(** * StudyNet counselor agent: retrieval and routing pipeline

    A shallow embedding of the core of the backend (query classifier,
    query enhancer, hierarchical document store, hybrid retriever, SQL
    engine over CSV tables, confidence of the orchestrator responses)
    together with the properties the specification states about it.

    Conventions of the embedding.
    - A Python [str] is a list of characters.  The characters are the ASCII
      code points; the character classes ([isalnum], [isspace], ...) and the
      case mappings are Python's on that range.  Text outside ASCII is
      covered where a property depends on it: table names are also modelled
      over Unicode code points, the character database being a variable.
    - A Python [float] score is an exact rational ([Q]).
    - A call that may raise returns a [Result]; [try]/[except] is [catch].
    - The collaborators that live outside the repository (language model,
      embedding store, text splitter, BM25 scorer, cross-encoder, SQL
      backend, file system) are variables of the sections that use them. *)

From Stdlib Require Import ZArith NArith QArith Qminmax Ascii String List Bool Lia.
From Stdlib Require Import DecimalString DecimalZ.
From stdpp Require Import gmap strings list fin_maps.

Set Default Proof Using "Type".
Open Scope bool_scope.

(** * The embedding *)

(** ** Python strings *)

Module PyStr.

Abbreviation str := (list ascii).

(** A string literal. *)
Definition py (s : string) : str := list_ascii_of_string s.

Definition code (c : ascii) : nat := nat_of_ascii c.

Definition between (lo hi n : nat) : bool := (lo <=? n)%nat && (n <=? hi)%nat.

Definition isdigit (c : ascii) : bool := between 48 57 (code c).
Definition isupper (c : ascii) : bool := between 65 90 (code c).
Definition islower (c : ascii) : bool := between 97 122 (code c).
Definition isalpha (c : ascii) : bool := isupper c || islower c.
Definition isalnum (c : ascii) : bool := isalpha c || isdigit c.

(** [str.isspace] on one character: tab, line feed, vertical tab, form
    feed, carriage return, the four separators 28..31 and the space. *)
Definition isspace (c : ascii) : bool :=
  between 9 13 (code c) || between 28 32 (code c).

Definition is_ascii (c : ascii) : bool := (code c <? 128)%nat.

Definition upper_char (c : ascii) : ascii :=
  if islower c then ascii_of_nat (code c - 32) else c.
Definition lower_char (c : ascii) : ascii :=
  if isupper c then ascii_of_nat (code c + 32) else c.

Definition upper (s : str) : str := map upper_char s.
Definition lower (s : str) : str := map lower_char s.

Definition eqc (a b : ascii) : bool := Ascii.eqb a b.

Fixpoint eqs (a b : str) : bool :=
  match a, b with
  | [], [] => true
  | x :: a', y :: b' => eqc x y && eqs a' b'
  | _, _ => false
  end.

Definition mem_char (c : ascii) (chars : str) : bool := existsb (eqc c) chars.

Definition mem_str (x : str) (l : list str) : bool := existsb (eqs x) l.

(** [s.startswith(p)] *)
Fixpoint startswith (p s : str) : bool :=
  match p, s with
  | [], _ => true
  | _ :: _, [] => false
  | a :: p', b :: s' => eqc a b && startswith p' s'
  end.

(** [s.endswith(p)] *)
Definition endswith (p s : str) : bool := startswith (rev p) (rev s).

(** [p in s] *)
Fixpoint contains (p s : str) : bool :=
  startswith p s || match s with [] => false | _ :: s' => contains p s' end.

(** [s.lstrip(chars)], [s.rstrip(chars)], [s.strip(chars)] *)
Fixpoint lstrip_by (f : ascii -> bool) (s : str) : str :=
  match s with
  | [] => []
  | c :: s' => if f c then lstrip_by f s' else s
  end.
Definition rstrip_by (f : ascii -> bool) (s : str) : str := rev (lstrip_by f (rev s)).
Definition lstrip_chars (chars s : str) : str := lstrip_by (fun c => mem_char c chars) s.
Definition rstrip_chars (chars s : str) : str := rstrip_by (fun c => mem_char c chars) s.
Definition strip_chars (chars s : str) : str := rstrip_chars chars (lstrip_chars chars s).

(** [s.strip()] *)
Definition strip (s : str) : str := rstrip_by isspace (lstrip_by isspace s).

(** [s.split(sep)] for a separator of one character. *)
Fixpoint split_char (sep : ascii) (s : str) : list str :=
  match s with
  | [] => [[]]
  | c :: s' =>
      if eqc c sep then [] :: split_char sep s'
      else match split_char sep s' with
           | h :: t => (c :: h) :: t
           | [] => [[c]]
           end
  end.

(** [s.split()]: the maximal runs of characters that are not whitespace. *)
Fixpoint split_ws_aux (cur : str) (s : str) : list str :=
  match s with
  | [] => match cur with [] => [] | _ => [rev cur] end
  | c :: s' =>
      if isspace c
      then match cur with
           | [] => split_ws_aux [] s'
           | _ => rev cur :: split_ws_aux [] s'
           end
      else split_ws_aux (c :: cur) s'
  end.
Definition split_ws (s : str) : list str := split_ws_aux [] s.

(** [sep.join(parts)] *)
Fixpoint join (sep : str) (parts : list str) : str :=
  match parts with
  | [] => []
  | [p] => p
  | p :: rest => p ++ sep ++ join sep rest
  end.

(** [s.replace(old, new)] for a non-empty [old]: the occurrences are taken
    from the left and do not overlap.  [skip] counts the characters of the
    occurrence being replaced that are still to be dropped. *)
Fixpoint replace_aux (old new : str) (skip : nat) (s : str) : str :=
  match s with
  | [] => []
  | c :: s' =>
      match skip with
      | S k => replace_aux old new k s'
      | O => if startswith old s
             then new ++ replace_aux old new (length old - 1) s'
             else c :: replace_aux old new 0 s'
      end
  end.
Definition replace (old new s : str) : str := replace_aux old new 0 s.

(** A string is truthy when it is not empty. *)
Definition nonempty (s : str) : bool := match s with [] => false | _ => true end.

(** [filter(None, parts)] *)
Definition filter_nonempty (parts : list str) : list str := List.filter nonempty parts.

(** [s[-n:]] for a positive [n] and [s[:n]]. *)
Definition last_chars (n : nat) (s : str) : str := skipn (length s - n) s.
Definition first_chars (n : nat) (s : str) : str := firstn n s.

(** [str(n)] for an integer. *)
Definition str_of_Z (n : Z) : str :=
  list_ascii_of_string (NilZero.string_of_int (Z.to_int n)).

(** [int(s)], where it is defined. *)
Definition Z_of_str (s : str) : option Z :=
  match NilZero.int_of_string (string_of_list_ascii s) with
  | Some d => Some (Z.of_int d)
  | None => None
  end.

End PyStr.
Import PyStr.

(** ** The SQL engine: table names *)

Module SQLNames.

(** [SQLEngine._sanitize_table_name] *)
Definition _sanitize_table_name (filename : str) : str :=
  let name := replace (py ".CSV") [] (replace (py ".csv") [] filename) in
  let name := map (fun c => if isalnum c then c else "_"%char) name in
  let name := lstrip_chars (py "0123456789_") name in
  let name := join (py "_") (filter_nonempty (split_char "_" name)) in
  let name :=
    match name with
    | c :: _ => if isdigit c then py "table_" ++ name else name
    | [] => name
    end in
  if nonempty name then lower name else py "unnamed_table".

End SQLNames.
Import SQLNames.

(** What is asked of a table name. *)

Module SQLNamesProps.

Definition ident_char (c : ascii) : bool := isalnum c || eqc c "_".

(** No two underscores in a row. *)
Fixpoint no_underscore_run (s : str) : bool :=
  match s with
  | a :: (b :: _) as t => negb (eqc a "_" && eqc b "_") && no_underscore_run t
  | _ => true
  end.

Definition starts_with_digit (s : str) : bool :=
  match s with c :: _ => isdigit c | [] => false end.

Definition starts_with_underscore (s : str) : bool :=
  match s with c :: _ => eqc c "_" | [] => false end.

(** [s.islower()]: some cased character, and none in upper case. *)
Definition is_lowercase (s : str) : bool :=
  existsb islower s && forallb (fun c => negb (isupper c)) s.

Definition has_space (s : str) : bool := existsb isspace s.

(** A segment between two underscores: not empty, alphanumeric. *)
Definition segment (p : str) : Prop := p <> [] /\ Forall (fun c => isalnum c = true) p.

(** The shape of a name put together from segments. *)
Definition tidy (s : str) : Prop :=
  Forall (fun c => ident_char c = true) s /\
  no_underscore_run s = true /\
  starts_with_underscore s = false.

(** The name before the final branch on emptiness. *)
Definition squeezed (filename : str) : str :=
  join (py "_") (filter_nonempty (split_char "_"
    (lstrip_chars (py "0123456789_")
       (map (fun c => if isalnum c then c else "_"%char)
          (replace (py ".CSV") [] (replace (py ".csv") [] filename)))))).

End SQLNamesProps.
Import SQLNamesProps.

(** ** Table names over code points *)

Module Unicode.

(** A Python [str] in full: a sequence of Unicode code points. *)
Abbreviation ustr := (list N).

(** The code point of an ASCII character, and an ASCII string as a [str]. *)
Definition code_point (c : ascii) : N := N_of_ascii c.
Definition u (s : str) : ustr := map code_point s.

(** What [str.isalnum], [str.isdigit] and [str.lower] take from the Unicode
    character database.  The lower case of a string is not taken character by
    character: one code point can map to several, and the capital sigma
    depends on its place in the word. *)
Record CharDB := {
  db_isalnum : N -> bool;
  db_isdigit : N -> bool;
  db_lower : ustr -> ustr
}.

Fixpoint startswith (p s : ustr) : bool :=
  match p, s with
  | [], _ => true
  | _ :: _, [] => false
  | a :: p', b :: s' => (a =? b)%N && startswith p' s'
  end.

Fixpoint replace_aux (old new : ustr) (skip : nat) (s : ustr) : ustr :=
  match s with
  | [] => []
  | c :: s' =>
      match skip with
      | S k => replace_aux old new k s'
      | O => if startswith old s
             then new ++ replace_aux old new (length old - 1) s'
             else c :: replace_aux old new 0 s'
      end
  end.
Definition replace (old new s : ustr) : ustr := replace_aux old new 0 s.

Definition mem_char (c : N) (chars : ustr) : bool := existsb (N.eqb c) chars.

Fixpoint lstrip_chars (chars s : ustr) : ustr :=
  match s with
  | [] => []
  | c :: s' => if mem_char c chars then lstrip_chars chars s' else s
  end.

Fixpoint split_char (sep : N) (s : ustr) : list ustr :=
  match s with
  | [] => [[]]
  | c :: s' =>
      if (c =? sep)%N then [] :: split_char sep s'
      else match split_char sep s' with
           | h :: t => (c :: h) :: t
           | [] => [[c]]
           end
  end.

Fixpoint join (sep : ustr) (parts : list ustr) : ustr :=
  match parts with
  | [] => []
  | [p] => p
  | p :: rest => p ++ sep ++ join sep rest
  end.

Definition nonempty (s : ustr) : bool := match s with [] => false | _ => true end.

Section Database.

Variable db : CharDB.

(** [SQLEngine._sanitize_table_name] on any file name. *)
Definition _sanitize_table_name (filename : ustr) : ustr :=
  let name := replace (u (py ".CSV")) [] (replace (u (py ".csv")) [] filename) in
  let name := map (fun c => if db_isalnum db c then c else code_point "_") name in
  let name := lstrip_chars (u (py "0123456789_")) name in
  let name := join (u (py "_")) (List.filter nonempty (split_char (code_point "_") name)) in
  let name :=
    match name with
    | c :: _ => if db_isdigit db c then u (py "table_") ++ name else name
    | [] => name
    end in
  if nonempty name then db_lower db name else u (py "unnamed_table").

(** An alphanumeric character or an underscore. *)
Definition ident_char (c : N) : bool := db_isalnum db c || (c =? code_point "_")%N.

(** The database has Unicode's entries on the ASCII range. *)
Definition ascii_compatible : Prop :=
  (forall c, is_ascii c = true -> db_isalnum db (code_point c) = isalnum c) /\
  (forall c, is_ascii c = true -> db_isdigit db (code_point c) = isdigit c) /\
  (forall s, forallb is_ascii s = true -> db_lower db (u s) = u (lower s)).

(** Its entries for U+0130, the capital I with a dot above (a letter, in
    lower case an [i] followed by U+0307), and for U+0307, the combining dot
    above (a mark). *)
Definition dotted_capital_i : Prop :=
  db_isalnum db 0x130 = true /\
  db_isdigit db 0x130 = false /\
  db_lower db [0x130%N] = [0x69%N; 0x307%N] /\
  db_isalnum db 0x307 = false.

End Database.

(** The lower case of one code point, for the ASCII range and U+0130. *)
Definition lower_code_point (c : N) : ustr :=
  if (c =? 0x130)%N then [0x69%N; 0x307%N]
  else if (c <? 128)%N then [code_point (lower_char (ascii_of_N c))]
  else [c].

(** The entries of the character database for the ASCII range, U+0130 and
    U+0307.  The other code points are entered as symbols without case, which
    is not what all of them are: the development reads the database at the
    entries named here only. *)
Definition unicode_excerpt : CharDB :=
  {| db_isalnum := fun c => ((c <? 128)%N && isalnum (ascii_of_N c)) || (c =? 0x130)%N;
     db_isdigit := fun c => (c <? 128)%N && isdigit (ascii_of_N c);
     db_lower := flat_map lower_code_point |}.

End Unicode.

(** ** Calls that may raise *)

Module PyExn.

(** The outcome of a call: a value, or an exception with its message. *)
Inductive Result (A : Type) : Type :=
| Ok (a : A)
| Raise (e : str).
Arguments Ok {A} a.
Arguments Raise {A} e.

Definition bind {A B} (r : Result A) (k : A -> Result B) : Result B :=
  match r with
  | Ok a => k a
  | Raise e => Raise e
  end.

(** [try: body  except Exception as e: handler(e)] *)
Definition catch {A} (body : Result A) (handler : str -> Result A) : Result A :=
  match body with
  | Ok a => Ok a
  | Raise e => handler e
  end.

Definition raises {A} (r : Result A) : bool :=
  match r with Ok _ => false | Raise _ => true end.

End PyExn.
Import PyExn.

Notation "'let!' x ':=' c1 'in' c2" := (bind c1 (fun x => c2))
  (at level 10, x name, c1 at level 100, c2 at level 200).

(** ** The SQL engine *)

Module SQLEngine.

(** A pandas data frame: the column names, their dtypes and the rows. *)
Record DataFrame := {
  df_columns : list str;
  df_dtypes : list str;
  df_rows : list (list str)
}.

(** One entry of a table schema. *)
Record ColumnInfo := {
  column_name : str;
  data_type : str;
  sample_values : list str
}.

(** The state of a [SQLEngine] object. *)
Record Engine := {
  csv_directories : list str;
  dataframes : gmap str DataFrame;
  table_schemas : gmap str (list ColumnInfo)
}.

Definition set_table (e : Engine) (name : str) (df : DataFrame)
    (schema : list ColumnInfo) : Engine :=
  {| csv_directories := csv_directories e;
     dataframes := <[name := df]> (dataframes e);
     table_schemas := <[name := schema]> (table_schemas e) |}.

(** [df[col].head(3).tolist()] for the column at position [i]. *)
Definition column_head (df : DataFrame) (i : nat) : list str :=
  firstn 3 (map (fun row => nth i row []) (df_rows df)).

(** [SQLEngine._get_schema] *)
Definition _get_schema (df : DataFrame) : list ColumnInfo :=
  map (fun ic : nat * str =>
         {| column_name := snd ic;
            data_type := nth (fst ic) (df_dtypes df) [];
            sample_values := column_head df (fst ic) |})
      (combine (seq 0 (length (df_columns df))) (df_columns df)).

(** [os.path.join] of a directory and a file name, [os.path.basename]. *)
Definition path_join (dir filename : str) : str :=
  if startswith (py "/") filename then filename
  else if nonempty dir && negb (endswith (py "/") dir)
       then dir ++ py "/" ++ filename
       else dir ++ filename.

Definition basename (path : str) : str :=
  List.last (split_char "/" path) [].

Definition encodings : list str :=
  [py "utf-8"; py "latin-1"; py "iso-8859-1"; py "cp1252"; py "utf-16"].

Section Files.

(** The file system and the CSV reader: [os.path.exists], [os.listdir] and
    [pd.read_csv], which gives no frame when it raises. *)
Variable path_exists : str -> bool.
Variable listdir : str -> list str.
Variable read_csv : str -> str -> option DataFrame.

(** [SQLEngine._read_csv_with_encoding] *)
Fixpoint try_encodings (file_path : str) (encs : list str) : option DataFrame :=
  match encs with
  | [] => None
  | encoding :: rest =>
      match read_csv file_path encoding with
      | Some df => Some df
      | None => try_encodings file_path rest
      end
  end.
Definition _read_csv_with_encoding (file_path : str) : option DataFrame :=
  try_encodings file_path encodings.

(** The body of the loop of [load_all_csv_files] over the files of one
    directory; the state is the engine and [csv_count]. *)
Definition load_one (csv_directory : str) (st : Engine * nat) (filename : str)
    : Engine * nat :=
  let '(e, csv_count) := st in
  if endswith (py ".csv") (lower filename) then
    let file_path := path_join csv_directory filename in
    let table_name := _sanitize_table_name filename in
    match dataframes e !! table_name with
    | Some _ => st                         (* already loaded: skipped *)
    | None =>
        match _read_csv_with_encoding file_path with
        | None => st
        | Some df => (set_table e table_name df (_get_schema df), S csv_count)
        end
    end
  else st.

Definition load_directory (st : Engine * nat) (csv_directory : str) : Engine * nat :=
  let '(e, total_csv_count) := st in
  if path_exists csv_directory then
    let '(e', csv_count) :=
      fold_left (load_one csv_directory) (listdir csv_directory) (e, 0%nat) in
    (e', (total_csv_count + csv_count)%nat)
  else st.

(** [SQLEngine.load_all_csv_files]: the engine afterwards and the number of
    files loaded. *)
Definition load_all_csv_files (e : Engine) : Engine * nat :=
  fold_left load_directory (csv_directories e) (e, 0%nat).

(** [SQLEngine.add_csv_file]: the engine afterwards and the returned flag.
    An absent or empty [table_name] selects the sanitized file name. *)
Definition add_csv_file (e : Engine) (file_path : str) (table_name : option str)
    : Engine * bool :=
  let filename := basename file_path in
  let table_name :=
    match table_name with
    | Some (c :: n) => c :: n
    | _ => _sanitize_table_name filename
    end in
  match _read_csv_with_encoding file_path with
  | None => (e, false)
  | Some df => (set_table e table_name df (_get_schema df), true)
  end.

(** [SQLEngine.reload_csv_files] *)
Definition reload_csv_files (e : Engine) : Engine * nat :=
  load_all_csv_files
    {| csv_directories := csv_directories e; dataframes := ∅; table_schemas := ∅ |}.

End Files.

(** The dictionary returned by [execute_query]. *)
Inductive QueryResult :=
| QuerySuccess (row_count column_count : nat) (columns : list str)
               (data : list (list str)) (query : str)
| QueryFailure (error : str) (query : str).

Definition qr_query (r : QueryResult) : str :=
  match r with
  | QuerySuccess _ _ _ _ q => q
  | QueryFailure _ q => q
  end.

Definition qr_success (r : QueryResult) : bool :=
  match r with QuerySuccess _ _ _ _ _ => true | QueryFailure _ _ => false end.

(** The number of rows of a result; a failure carries none. *)
Definition qr_row_count (r : QueryResult) : nat :=
  match r with
  | QuerySuccess n _ _ _ _ => n
  | QueryFailure _ _ => 0
  end.

Section Execute.

(** [pandasql.sqldf]: runs a query on the tables, or raises. *)
Variable sqldf : str -> gmap str DataFrame -> Result DataFrame.

(** [query_upper] of [execute_query]. *)
Definition query_upper (query : str) : str := strip (upper query).

(** The test that guards the addition of the clause. *)
Definition appends_limit (query : str) : bool :=
  negb (contains (py "LIMIT") (query_upper query)) &&
  negb (endswith (py ";") (query_upper query)).

(** [SQLEngine.execute_query] *)
Definition execute_query (e : Engine) (query : str) (limit : Z) : QueryResult :=
  let query :=
    if appends_limit query
    then rstrip_chars (py ";") query ++ py " LIMIT " ++ str_of_Z limit
    else query in
  match sqldf query (dataframes e) with
  | Ok result_df =>
      QuerySuccess (length (df_rows result_df))
                   (length (df_columns result_df))
                   (df_columns result_df)
                   (df_rows result_df)
                   query
  | Raise err => QueryFailure err query
  end.

End Execute.

(** A backend for the queries [SELECT * FROM t], with an optional
    [LIMIT n] and an optional final [;].  Key words in any letter case; a
    negative limit means no limit, as in SQLite. *)

Definition keyword (kw tok : str) : bool := eqs (upper tok) kw.

Definition drop_terminator (tokens : list str) : list str :=
  match rev tokens with
  | [] => []
  | t :: before =>
      if endswith (py ";") t
      then match removelast t with
           | [] => rev before
           | t' => rev (t' :: before)
           end
      else tokens
  end.

Definition select_all (tables : gmap str DataFrame) (t : str) (lim : option Z)
    : Result DataFrame :=
  match tables !! t with
  | None => Raise (py "no such table: " ++ t)
  | Some df =>
      match lim with
      | Some n =>
          if (n <? 0)%Z then Ok df
          else Ok {| df_columns := df_columns df; df_dtypes := df_dtypes df;
                     df_rows := firstn (Z.to_nat n) (df_rows df) |}
      | None => Ok df
      end
  end.

Definition mini_sqldf (query : str) (tables : gmap str DataFrame) : Result DataFrame :=
  match drop_terminator (split_ws query) with
  | [s; star; f; t] =>
      if keyword (py "SELECT") s && eqs star (py "*") && keyword (py "FROM") f
      then select_all tables t None
      else Raise (py "syntax error")
  | [s; star; f; t; l; n] =>
      if keyword (py "SELECT") s && eqs star (py "*") && keyword (py "FROM") f
         && keyword (py "LIMIT") l
      then match Z_of_str n with
           | Some k => select_all tables t (Some k)
           | None => Raise (py "syntax error")
           end
      else Raise (py "syntax error")
  | _ => Raise (py "syntax error")
  end.



(** A table of [n] rows with one column. *)
Definition numbered_table (n : nat) : DataFrame :=
  {| df_columns := [py "id"]; df_dtypes := [py "int64"];
     df_rows := map (fun i => [str_of_Z (Z.of_nat i)]) (seq 0 n) |}.

Definition engine_with (name : str) (df : DataFrame) : Engine :=
  {| csv_directories := [py "./pdfs"; py "./uploaded_docs"];
     dataframes := {[ name := df ]};
     table_schemas := {[ name := _get_schema df ]} |}.

End SQLEngine.
Import SQLEngine.

(** What is asked of an SQL backend and of a query. *)

Module SQLEngineProps.

Abbreviation backend := (str -> gmap str DataFrame -> Result DataFrame).





End SQLEngineProps.
Import SQLEngineProps.

(** ** The loader of the knowledge base *)

Module CsvLoading.

(** [Path.stem]: the file name without its last suffix. *)
Definition stem (name : str) : str :=
  let suffix := length (lstrip_by (fun c => negb (eqc c ".")) (rev name)) in
  (* [suffix] is the position after the last dot, 0 when there is none *)
  if (1 <? suffix)%nat && (suffix <? length name)%nat
  then firstn (suffix - 1) name
  else name.

Section Loaders.

Variable read_csv : str -> str -> option DataFrame.

(** One round of the loop of [KnowledgeBaseLoader._load_csv_files_from_folder]
    (load_kb.py), as far as the engine is concerned. *)
Definition kb_load_csv (force_reload : bool) (e : Engine) (csv_file : str) : Engine :=
  let table_name := _sanitize_table_name (stem (basename csv_file)) in
  if negb force_reload && bool_decide (is_Some (dataframes e !! table_name))
  then e
  else fst (add_csv_file read_csv e csv_file (Some table_name)).

End Loaders.

(** The table [name] holds [df] and its schema is [sch]. *)
Definition holds (name : str) (df : DataFrame) (sch : option (list ColumnInfo))
    (e : Engine) : Prop :=
  dataframes e !! name = Some df /\ table_schemas e !! name = sch.

End CsvLoading.
Import CsvLoading.

(** ** The language model *)

Module LLM.

(** A prompt is a fixed text with holes; it is given by what fills them. *)
Inductive Prompt :=
| ClassifyPrompt (query : str) (available_tables : list str)
| VariationsPrompt (query : str) (num_variations : nat)
| ContextPrompt (context_tail : str) (query : str).

(** [llm.invoke(prompt).content], or the exception of the call. *)
Abbreviation model := (Prompt -> Result str).

(** A model that is out of reach. *)
Definition unreachable : model := fun _ => Raise (py "connection error").

End LLM.
Import LLM.

(** ** The query classifier *)

Module Classifier.

Inductive QueryType := STRUCTURED_SQL | SEMANTIC_RAG | HYBRID.

(** [QueryType.value] *)
Definition value (t : QueryType) : str :=
  match t with
  | STRUCTURED_SQL => py "structured_sql"
  | SEMANTIC_RAG => py "semantic_rag"
  | HYBRID => py "hybrid"
  end.

Definition sql_keywords : list str :=
  map py ["count"; "total"; "sum"; "average"; "max"; "min"; "how many";
          "list all"; "show all"; "filter"; "where"; "group by";
          "aggregate"; "statistics"; "top"; "bottom"; "ranking";
          "fees"; "fee"; "provider"; "providers"; "course"; "courses";
          "data"; "records"; "entries"; "price"; "cost"; "degree"; "degrees"]%string.

Definition rag_keywords : list str :=
  map py ["how to"; "what is"; "explain"; "describe"; "why";
          "process"; "procedure"; "steps"; "guide"; "overview";
          "concept"; "definition"; "meaning"; "purpose"; "workflow";
          "application"; "management"; "leads"; "crm"]%string.

(** [sum(1 for keyword in keywords if keyword in query_lower)] *)
Definition count_matches (keywords : list str) (query_lower : str) : nat :=
  length (List.filter (fun keyword => contains keyword query_lower) keywords).

Definition sql_matches (query : str) : nat := count_matches sql_keywords (lower query).
Definition rag_matches (query : str) : nat := count_matches rag_keywords (lower query).

(** [QueryClassifier._keyword_based_classification] *)
Definition _keyword_based_classification (query : str) : option QueryType :=
  let sql_matches := sql_matches query in
  let rag_matches := rag_matches query in
  if (2 <=? sql_matches)%nat && (rag_matches =? 0)%nat then Some STRUCTURED_SQL
  else if (2 <=? rag_matches)%nat && (sql_matches =? 0)%nat then Some SEMANTIC_RAG
  else if (1 <=? sql_matches)%nat && (1 <=? rag_matches)%nat then Some HYBRID
  else None.

(** The dictionary returned by [classify_query]. *)
Record Classification := {
  query_type : str;
  classification_method : str;
  confidence : str;
  requires_sql : bool;
  requires_rag : bool;
  available_tables : list str
}.

Definition type_in (t : QueryType) (ts : list QueryType) : bool :=
  existsb (fun u => match t, u with
                    | STRUCTURED_SQL, STRUCTURED_SQL
                    | SEMANTIC_RAG, SEMANTIC_RAG
                    | HYBRID, HYBRID => true
                    | _, _ => false
                    end) ts.

Section WithModel.

Variable llm : model.

(** [QueryClassifier._llm_based_classification] *)
Definition _llm_based_classification (query : str) (available_tables : list str)
    : QueryType :=
  match llm (ClassifyPrompt query available_tables) with
  | Ok content =>
      let classification := upper (strip content) in
      if contains (py "STRUCTURED_SQL") classification then STRUCTURED_SQL
      else if contains (py "SEMANTIC_RAG") classification then SEMANTIC_RAG
      else if contains (py "HYBRID") classification then HYBRID
      else SEMANTIC_RAG
  | Raise _ => SEMANTIC_RAG
  end.

(** [QueryClassifier.classify_query] *)
Definition classify_query (query : str) (available_tables : option (list str))
    : Classification :=
  let available_tables :=
    match available_tables with Some (t :: ts) => t :: ts | _ => [] end in
  match _keyword_based_classification query with
  | Some keyword_result =>
      {| query_type := value keyword_result;
         classification_method := py "keyword";
         confidence := py "high";
         requires_sql := type_in keyword_result [STRUCTURED_SQL; HYBRID];
         requires_rag := type_in keyword_result [SEMANTIC_RAG; HYBRID];
         available_tables := available_tables |}
  | None =>
      let llm_result := _llm_based_classification query available_tables in
      {| query_type := value llm_result;
         classification_method := py "llm";
         confidence := py "medium";
         requires_sql := type_in llm_result [STRUCTURED_SQL; HYBRID];
         requires_rag := type_in llm_result [SEMANTIC_RAG; HYBRID];
         available_tables := available_tables |}
  end.

End WithModel.

(** What [requires_sql] and [requires_rag] are for a value of [query_type]. *)
Definition needs_sql (query_type : str) : bool :=
  eqs query_type (py "structured_sql") || eqs query_type (py "hybrid").
Definition needs_rag (query_type : str) : bool :=
  eqs query_type (py "semantic_rag") || eqs query_type (py "hybrid").

End Classifier.
Import Classifier.

(** ** Sorting as [list.sort(key=..., reverse=True)] and [sorted] do *)

Module PySort.

Section Sort.
Context {A K : Type}.
Variable key : A -> K.
Variable ltb : K -> K -> bool.

(** [x] comes before the elements already placed: it goes after those of
    a larger key only, which keeps equal keys in their first order. *)
Fixpoint insert_desc (x : A) (sorted : list A) : list A :=
  match sorted with
  | [] => [x]
  | y :: rest =>
      if ltb (key x) (key y) then y :: insert_desc x rest else x :: y :: rest
  end.

Definition sort_desc (l : list A) : list A := fold_right insert_desc [] l.

(** The same in increasing order. *)
Fixpoint insert_asc (x : A) (sorted : list A) : list A :=
  match sorted with
  | [] => [x]
  | y :: rest =>
      if ltb (key y) (key x) then y :: insert_asc x rest else x :: y :: rest
  end.

Definition sort_asc (l : list A) : list A := fold_right insert_asc [] l.

End Sort.

End PySort.
Import PySort.

(** ** The query enhancer *)

Module Enhancer.

Definition acronym_dict : list (str * str) :=
  map (fun kv : string * string => (py (fst kv), py (snd kv)))
    [("CRM", "Customer Relationship Management");
     ("AI", "Artificial Intelligence");
     ("ML", "Machine Learning");
     ("NLP", "Natural Language Processing");
     ("RAG", "Retrieval Augmented Generation");
     ("LLM", "Large Language Model");
     ("API", "Application Programming Interface");
     ("UI", "User Interface");
     ("UX", "User Experience");
     ("PDF", "Portable Document Format");
     ("CSV", "Comma-Separated Values");
     ("SQL", "Structured Query Language");
     ("RPL", "Recognition of Prior Learning");
     ("NSW", "New South Wales")]%string.

Definition stop_words : list str :=
  map py ["the"; "is"; "at"; "which"; "on"; "and"; "a"; "an";
          "as"; "are"; "was"; "were"; "be"; "been"; "being";
          "have"; "has"; "had"; "do"; "does"; "did"; "will";
          "would"; "could"; "should"; "may"; "might"; "must";
          "can"; "shall"; "to"; "of"; "in"; "for"; "with";
          "by"; "from"; "about"; "into"; "through"; "during";
          "before"; "after"; "above"; "below"; "up"; "down";
          "out"; "off"; "over"; "under"; "again"; "further"]%string.

Fixpoint dict_get (d : list (str * str)) (k : str) : option str :=
  match d with
  | [] => None
  | (k', v) :: rest => if eqs k k' then Some v else dict_get rest k
  end.

Definition punctuation : str := py ".,!?;:".

(** [QueryEnhancer.expand_acronyms] *)
Definition expand_acronyms (query : str) : str :=
  join (py " ")
    (map (fun word =>
            let clean_word := strip_chars punctuation word in
            match dict_get acronym_dict (upper clean_word) with
            | Some expansion => clean_word ++ py " (" ++ expansion ++ py ")"
            | None => word
            end)
         (split_ws query)).

(** [QueryEnhancer.remove_stop_words] *)
Definition remove_stop_words (query : str) : str :=
  let words := split_ws (lower query) in
  let filtered := List.filter (fun w => negb (mem_str w stop_words)) words in
  match filtered with
  | [] => query
  | _ => join (py " ") filtered
  end.

(** The loop of [extract_keywords] that drops the duplicates. *)
Fixpoint collect_keywords (max_keywords : nat) (seen keywords words : list str)
    : list str :=
  match words with
  | [] => keywords
  | word :: rest =>
      if negb (mem_str (lower word) seen) && (2 <? length word)%nat
      then let keywords := keywords ++ [word] in
           if (max_keywords <=? length keywords)%nat then keywords
           else collect_keywords max_keywords (lower word :: seen) keywords rest
      else collect_keywords max_keywords seen keywords rest
  end.

(** [QueryEnhancer.extract_keywords] *)
Definition extract_keywords (query : str) (max_keywords : nat) : list str :=
  let cleaned := remove_stop_words query in
  let words := map (strip_chars punctuation) (split_ws cleaned) in
  let words := sort_desc (@length ascii) Nat.ltb words in
  collect_keywords max_keywords [] [] words.

(** The dictionary returned by [enhance_query]. *)
Record Enhancement := {
  original : str;
  expanded : str;
  keywords : list str;
  variations : list str;
  context_aware : str;
  total_queries : nat
}.

Definition newline : ascii := "010"%char.

Section WithModel.

Variable llm : model.

(** [QueryEnhancer.generate_query_variations] *)
Definition generate_query_variations (query : str) (num_variations : nat)
    : Result (list str) :=
  catch
    (let! content := llm (VariationsPrompt query num_variations) in
     let variations := split_char newline (strip content) in
     let variations :=
       firstn num_variations
         (map (fun v => lstrip_chars (py "123456789.-) ") (strip v))
              (List.filter (fun v => nonempty (strip v)) variations)) in
     let all_queries :=
       query :: List.filter (fun v => nonempty v && negb (eqs v query)) variations in
     Ok all_queries)
    (fun _ => Ok [query]).

(** [QueryEnhancer._generate_context_aware_query] *)
Definition _generate_context_aware_query (query context : str) : Result str :=
  catch
    (let! content := llm (ContextPrompt (last_chars 500 context) query) in
     let context_aware := lstrip_chars (py "123.-) ") (strip content) in
     Ok (if nonempty context_aware then context_aware else query))
    (fun _ => Ok query).

(** [QueryEnhancer.enhance_query]; a context that is absent or empty is
    not used. *)
Definition enhance_query (query : str) (context : option str) : Result Enhancement :=
  let expanded_query := expand_acronyms query in
  let keywords := extract_keywords query 5 in
  let! variations := generate_query_variations query 3 in
  let! cv :=
    match context with
    | Some (c :: context) =>
        let! context_aware_query := _generate_context_aware_query query (c :: context) in
        Ok (context_aware_query,
            if mem_str context_aware_query variations then variations
            else variations ++ [context_aware_query])
    | _ => Ok (query, variations)
    end in
  Ok {| original := query;
        expanded := expanded_query;
        keywords := keywords;
        variations := snd cv;
        context_aware := fst cv;
        total_queries := length (snd cv) |}.

End WithModel.

End Enhancer.
Import Enhancer.

(** ** Documents *)

Module Docs.

(** A value of a metadata dictionary. *)
Inductive Value :=
| VStr (s : str)
| VInt (n : Z)
| VFloat (x : Q).

(** A [Document] object.  [doc_id] is the identity of the object, what
    [id(doc)] returns: two references to one object have the same [doc_id]. *)
Record Document := {
  doc_id : nat;
  page_content : str;
  metadata : gmap str Value
}.

(** [doc.metadata[key] = v] *)
Definition set_meta (key : str) (v : Value) (d : Document) : Document :=
  {| doc_id := doc_id d;
     page_content := page_content d;
     metadata := <[key := v]> (metadata d) |}.

(** [doc.metadata.get(key)] for a key that holds a string. *)
Definition meta_str (key : str) (d : Document) : option str :=
  match metadata d !! key with
  | Some (VStr s) => Some s
  | _ => None
  end.

(** [l[:k]] and [l[start:]] for integers of any sign. *)
Definition slice_to {A} (k : Z) (l : list A) : list A :=
  if (k <? 0)%Z then firstn (length l - Z.to_nat (- k)) l
  else firstn (Z.to_nat k) l.
Definition slice_from {A} (start : Z) (l : list A) : list A :=
  if (start <? 0)%Z then skipn (length l - Z.to_nat (- start)) l
  else skipn (Z.to_nat start) l.

Definition Qltb (x y : Q) : bool := negb (Qle_bool y x).

End Docs.
Import Docs.

(** ** The hybrid retriever *)

Module Retriever.

Definition rrf_constant : Z := 60.

(** An entry of [doc_scores]. *)
Record Scored := { doc : Document; score : Q }.

(** [doc_scores]: a dictionary from [id(doc)] to its entry, in the order in
    which the keys were first set. *)
Abbreviation ScoreTable := (list (nat * Scored)).

Fixpoint table_get (table : ScoreTable) (id : nat) : option Scored :=
  match table with
  | [] => None
  | (id', e) :: rest => if (id =? id')%nat then Some e else table_get rest id
  end.

(** One round of either loop of [reciprocal_rank_fusion]: the entry of the
    document is created at score 0 when it is missing, its score grows by
    [rrf_score] and the score of the search is noted under [key]. *)
Fixpoint add_rrf (d : Document) (rrf_score : Q) (key : str) (s : Q)
    (table : ScoreTable) : ScoreTable :=
  match table with
  | [] => [(doc_id d, {| doc := set_meta key (VFloat s) d; score := (0 + rrf_score)%Q |})]
  | (id', e) :: rest =>
      if (doc_id d =? id')%nat
      then (id', {| doc := set_meta key (VFloat s) (doc e);
                    score := (score e + rrf_score)%Q |}) :: rest
      else (id', e) :: add_rrf d rrf_score key s rest
  end.

(** [for rank, (doc, score) in enumerate(results)], from [rank] on. *)
Fixpoint add_ranked (weight : Q) (key : str) (rank : nat)
    (results : list (Document * Q)) (table : ScoreTable) : ScoreTable :=
  match results with
  | [] => table
  | (d, s) :: rest =>
      let rrf_score := (weight / inject_Z (rrf_constant + Z.of_nat rank + 1))%Q in
      add_ranked weight key (S rank) rest (add_rrf d rrf_score key s table)
  end.

(** [doc_scores] after the two loops. *)
Definition doc_scores (semantic_results keyword_results : list (Document * Q))
    (semantic_weight : Q) : ScoreTable :=
  let keyword_weight := (1 - semantic_weight)%Q in
  add_ranked keyword_weight (py "bm25_score") 0%nat keyword_results
    (add_ranked semantic_weight (py "semantic_score") 0%nat semantic_results []).

(** [HybridRetriever.reciprocal_rank_fusion] *)
Definition reciprocal_rank_fusion
    (semantic_results keyword_results : list (Document * Q))
    (k : Z) (semantic_weight : Q) : list Document :=
  let table := doc_scores semantic_results keyword_results semantic_weight in
  let sorted_docs := sort_desc score Qltb (map snd table) in
  let sorted_docs :=
    map (fun item => {| doc := set_meta (py "rrf_score") (VFloat (score item)) (doc item);
                        score := score item |}) sorted_docs in
  map doc (slice_to k sorted_docs).

(** The score the specification gives to a document: [weight / (60 + r + 1)]
    for each rank [r], counted from [rank], at which it stands in the list. *)
Fixpoint rank_score (weight : Q) (rank : nat) (results : list (Document * Q))
    (id : nat) : Q :=
  match results with
  | [] => 0%Q
  | (d, _) :: rest =>
      ((if (doc_id d =? id)%nat
        then weight / inject_Z (60 + Z.of_nat rank + 1) else 0)
       + rank_score weight (S rank) rest id)%Q
  end.

Definition occurs (id : nat) (results : list (Document * Q)) : bool :=
  existsb (fun r => (doc_id (fst r) =? id)%nat) results.

End Retriever.
Import Retriever.

(** The score and the presence of a document in a table of scores. *)

Module RetrieverProps.

Definition table_score (table : ScoreTable) (id : nat) : Q :=
  match table_get table id with Some e => score e | None => 0%Q end.

Definition in_table (table : ScoreTable) (id : nat) : bool :=
  match table_get table id with Some _ => true | None => false end.

End RetrieverProps.
Import RetrieverProps.

(** The example of the specification: semantic results [A, B, C], keyword
    results [B, D]. *)
Module FusionExample.

Definition mk (id : nat) (text : string) : Document :=
  {| doc_id := id; page_content := py text; metadata := ∅ |}.
Definition A := mk 1 "alpha".
Definition B := mk 2 "beta".
Definition C := mk 3 "gamma".
Definition D := mk 4 "delta".

Definition semantic_results : list (Document * Q) :=
  [(A, (9#10)%Q); (B, (8#10)%Q); (C, (7#10)%Q)].
Definition keyword_results : list (Document * Q) := [(B, (5#2)%Q); (D, (6#5)%Q)].

Definition table := doc_scores semantic_results keyword_results (6#10)%Q.

Definition score_of (d : Document) : Q :=
  match table_get table (doc_id d) with Some e => score e | None => 0%Q end.

End FusionExample.

(** ** Hybrid search *)

Module HybridSearch.

(** The state of a [HybridRetriever] object: the corpus the BM25 index was
    built from, when it was built, and [bm25_documents]. *)
Record RetrieverState := {
  bm25_index : option (list Document);
  bm25_documents : list Document
}.

Definition initial_state : RetrieverState :=
  {| bm25_index := None; bm25_documents := [] |}.


(** [np.argsort(scores)]: the indices by increasing score; equal scores
    are left in the order of the indices. *)
Definition argsort (scores : list Q) : list nat :=
  map fst (sort_asc snd Qltb (combine (seq 0 (length scores)) scores)).

Section Collaborators.

(** The Chroma stores: the similarity search on the child store, which
    embeds the query and raises when the embedding service fails, the read
    of a parent text and the read of the whole child collection. *)
Variable child_similarity_search : str -> Z -> Result (list (Document * Q)).
Variable parent_get : str -> option str.
Variable child_collection_get : Result (list Document).
(** [BM25Okapi(corpus).get_scores(query)] *)
Variable bm25_get_scores : list Document -> list str -> list Q.
(** [CrossEncoder.predict], when the model could be loaded. *)
Variable cross_encoder : option (list (str * str) -> Result (list Q)).

Definition attach_parent (r : Document * Q) : Document * Q :=
  let '(d, score) := r in
  match meta_str (py "parent_id") d with
  | Some (c :: parent_id) =>
      match parent_get (c :: parent_id) with
      | Some text => (set_meta (py "parent_context") (VStr text) d, score)
      | None => (d, score)
      end
  | _ => (d, score)
  end.

(** [HierarchicalVectorStore.similarity_search_with_score] *)
Definition similarity_search_with_score (query : str) (k : Z) (threshold : Q)
    : Result (list (Document * Q)) :=
  let k := Z.max 1 k in
  let! child_results := child_similarity_search query (k * 2) in
  let filtered_results :=
    List.filter (fun r : Document * Q => Qle_bool threshold (snd r)) child_results in
  Ok (map attach_parent (slice_to k filtered_results)).

(** [HybridRetriever.semantic_search] *)
Definition semantic_search (query : str) (k : Z) : Result (list (Document * Q)) :=
  similarity_search_with_score query k 0%Q.

(** [HybridRetriever._get_all_documents_from_vectorstore] *)
Definition _get_all_documents_from_vectorstore : list Document :=
  match child_collection_get with
  | Ok documents => documents
  | Raise _ => []
  end.

(** [HybridRetriever._build_bm25_index] *)
Definition _build_bm25_index (documents : list Document) : RetrieverState :=
  {| bm25_index := Some documents; bm25_documents := documents |}.

(** The scoring part of [keyword_search], once the index is there. *)
Definition bm25_top (st : RetrieverState) (query : str) (k : Z)
    : list (Document * Q) :=
  let tokenized_query := split_ws (lower query) in
  let scores :=
    match bm25_index st with
    | Some corpus => bm25_get_scores corpus tokenized_query
    | None => []
    end in
  let k := Z.min k (Z.of_nat (length scores)) in
  if (k =? 0)%Z || (length scores =? 0)%nat then []
  else
    let top_indices := rev (slice_from (- k) (argsort scores)) in
    flat_map (fun idx =>
                match nth_error (bm25_documents st) idx, nth_error scores idx with
                | Some d, Some s => if Qltb 0%Q s then [(d, s)] else []
                | _, _ => []
                end)
             top_indices.

(** [HybridRetriever.keyword_search]: the results and the state afterwards. *)
Definition keyword_search (st : RetrieverState) (query : str) (k : Z)
    : list (Document * Q) * RetrieverState :=
  match bm25_index st, bm25_documents st with
  | Some _, _ :: _ => (bm25_top st query k, st)
  | _, _ =>
      match _get_all_documents_from_vectorstore with
      | [] => ([], st)
      | all_docs =>
          let st := _build_bm25_index all_docs in
          (bm25_top st query k, st)
      end
  end.

(** [HybridRetriever.cross_encoder_rerank] *)
Definition cross_encoder_rerank (query : str) (documents : list Document)
    (top_n : Z) : list Document :=
  match cross_encoder, documents with
  | Some predict, _ :: _ =>
      let pairs := map (fun d => (query, first_chars 512 (page_content d))) documents in
      match predict pairs with
      | Ok scores =>
          let doc_score_pairs :=
            sort_desc (snd : Document * Q -> Q) Qltb (combine documents scores) in
          map (fun ds : Document * Q =>
                 set_meta (py "cross_encoder_score") (VFloat (snd ds)) (fst ds))
              (slice_to top_n doc_score_pairs)
      | Raise _ => slice_to top_n documents
      end
  | _, _ => slice_to top_n documents
  end.

(** [HybridRetriever.hybrid_search]: the documents and the state afterwards,
    or the exception that left the method. *)
Definition hybrid_search (st : RetrieverState) (query : str) (k : Z)
    (semantic_weight : Q) (use_cross_encoder : bool)
    : Result (list Document * RetrieverState) :=
  let! semantic_results := semantic_search query (k * 2) in
  let '(keyword_results, st) := keyword_search st query (k * 2) in
  let fused_docs :=
    reciprocal_rank_fusion semantic_results keyword_results (k * 2) semantic_weight in
  let final_docs :=
    if use_cross_encoder && (match cross_encoder with Some _ => true | None => false end)
    then cross_encoder_rerank query fused_docs k
    else slice_to k fused_docs in
  Ok (final_docs, st).


End Collaborators.

End HybridSearch.
Import HybridSearch.

Module DegradedSearch.

(** An embedding service that is out of reach, a child collection of two
    documents and a BM25 scorer that gives every document the score 1. *)
Definition failing_search : str -> Z -> Result (list (Document * Q)) :=
  fun _ _ => Raise (py "embedding service unreachable").
Definition no_parent : str -> option str := fun _ => None.
Definition two_documents : Result (list Document) :=
  Ok [FusionExample.B; FusionExample.D].
Definition flat_scores : list Document -> list str -> list Q :=
  fun corpus _ => map (fun _ => 1%Q) corpus.

End DegradedSearch.
Import DegradedSearch.

(** ** The responses of the agents *)

Module Agent.

Local Open Scope Q_scope.

(** A source of a response. *)
Record Source := {
  source_type : str;
  source_tool : str;
  source_content : str
}.

(** [doc.metadata.get('retrieval_score', default)]; the key holds a number
    when it is there. *)
Definition retrieval_score (default : Q) (d : Document) : Q :=
  match metadata d !! py "retrieval_score" with
  | Some (VFloat x) => x
  | Some (VInt n) => inject_Z n
  | _ => default
  end.

(** [max(l)] for a list of scores that is not empty. *)
Definition max_score (first : Q) (others : list Q) : Q := fold_left Qmax others first.

(** The confidence of [RAGAgent.process_query]:
    [min(max([...]) if kb_docs else 0.5, 1.0)] *)
Definition rag_confidence (kb_docs : list Document) : Q :=
  Qmin (match map (retrieval_score (1#2)) kb_docs with
        | [] => 1#2
        | x :: xs => max_score x xs
        end) 1.

(** What the body of [RAGAgent.process_query] has at hand when it reaches
    its return statement. *)
Record RagRun := {
  run_answer : str;
  run_sources : list Source;
  run_web_search_used : bool;
  run_kb_docs : list Document
}.

Record RagResponse := {
  rag_answer : str;
  rag_sources : list Source;
  rag_session_id : str;
  rag_web_search_used : bool;
  rag_confidence_score : Q
}.

(** The two return statements of [RAGAgent.process_query]: the one at the
    end of the [try] block and the one of its [except] clause. *)
Definition rag_agent_response (session_id : str) (run : Result RagRun) : RagResponse :=
  match run with
  | Ok r =>
      {| rag_answer := run_answer r;
         rag_sources := run_sources r;
         rag_session_id := session_id;
         rag_web_search_used := run_web_search_used r;
         rag_confidence_score := rag_confidence (run_kb_docs r) |}
  | Raise e =>
      {| rag_answer := py "I encountered an error processing your query: " ++ e;
         rag_sources := [];
         rag_session_id := session_id;
         rag_web_search_used := false;
         rag_confidence_score := 0 |}
  end.

(** One entry of [intermediate_steps]. *)
Record AgentStep := { tool : str; observation : str }.

(** What [agent_executor.invoke] returns. *)
Record AgentResult := {
  output : option str;
  intermediate_steps : option (list AgentStep)
}.

Definition sql_tools : list str :=
  [py "sql_query"; py "get_sql_schema"; py "table_preview"].

Definition step_source (s : AgentStep) : list Source :=
  if mem_str (tool s) sql_tools
  then [{| source_type := py "sql"; source_tool := tool s;
           source_content := first_chars 200 (observation s) |}]
  else if eqs (tool s) (py "rag_search")
  then [{| source_type := py "rag"; source_tool := tool s;
           source_content := first_chars 200 (observation s) |}]
  else [].

Record Response := {
  answer : str;
  sources : list Source;
  session_id : str;
  classification : option Classification;
  tools_used : list str;
  sql_used : bool;
  rag_used : bool;
  hybrid_mode : bool;
  confidence_score : Q
}.

(** [chat_history] of [MasterOrchestrator.process_query]. *)
Definition parse_chat_history (context : str) : list (str * str) :=
  flat_map (fun line =>
              if nonempty (strip line) then
                if startswith (py "User:") line
                then [(py "human", strip (replace (py "User:") [] line))]
                else if startswith (py "Assistant:") line
                then [(py "ai", strip (replace (py "Assistant:") [] line))]
                else []
              else [])
           (match context with [] => [] | _ => split_char Enhancer.newline context end).

Section Orchestrator.

Variable llm : model.
(** [agent_executor.invoke] on the input and the chat history. *)
Variable agent_executor : str -> list (str * str) -> Result AgentResult.

(** The response built from the result of the agent. *)
Definition response_of (sid : str) (cl : option Classification) (result : AgentResult)
    : Response :=
  let answer :=
    match output result with
    | Some (c :: a) => c :: a
    | _ => py "I couldn't process your query properly."
    end in
  let steps := match intermediate_steps result with Some l => l | None => [] end in
  let sources := flat_map step_source steps in
  let sql_used := existsb (fun s => mem_str (tool s) sql_tools) steps in
  let rag_used := existsb (fun s => eqs (tool s) (py "rag_search")) steps in
  {| answer := answer;
     sources := sources;
     session_id := sid;
     classification := cl;
     tools_used := map tool steps;
     sql_used := sql_used;
     rag_used := rag_used;
     hybrid_mode := sql_used && rag_used;
     confidence_score := match sources with [] => 5#10 | _ => 9#10 end |}.

(** The response of the [except] clause. *)
Definition error_response (sid : str) (e : str) : Response :=
  {| answer := py "I encountered an error processing your query: " ++ e;
     sources := [];
     session_id := sid;
     classification := None;
     tools_used := [];
     sql_used := false;
     rag_used := false;
     hybrid_mode := false;
     confidence_score := 0 |}.

(** [MasterOrchestrator.process_query], for a session whose memory holds
    [context]; the tables are those of the SQL engine. *)
Definition process_query (tables : list str) (sid context query : str)
    (use_classification use_enhancement : bool) : Response :=
  let run :=
    let classification :=
      if use_classification then Some (classify_query llm query (Some tables))
      else None in
    let! enhanced_query :=
      if use_enhancement
      then (let! enhancement := enhance_query llm query (Some context) in
            Ok (expanded enhancement))
      else Ok query in
    let chat_history := parse_chat_history context in
    let! result := agent_executor enhanced_query chat_history in
    Ok (response_of sid classification result) in
  match run with
  | Ok response => response
  | Raise e => error_response sid e
  end.

End Orchestrator.

(** A step that brings documents, and with them retrieval scores. *)
Definition retrieves (s : AgentStep) : bool := eqs (tool s) (py "rag_search").

End Agent.
Import Agent.

Module AgentProps.

(** A step that is recorded as a source. *)
Definition is_source_step (s : AgentStep) : bool :=
  mem_str (tool s) sql_tools || eqs (tool s) (py "rag_search").

(** A run of the orchestrator in which the agent made one SQL query. *)
Definition one_sql_step : AgentResult :=
  {| output := Some (py "There are 3 providers.");
     intermediate_steps :=
       Some [{| tool := py "sql_query";
                observation := py "Query Results (1 rows):" |}] |}.

End AgentProps.
Import AgentProps.

(** ** The hierarchical document store *)

Module VectorStore.

(** A chunk as a Chroma collection keeps it. *)
Record Chunk := {
  chunk_text : str;
  chunk_meta : gmap str Value
}.

(** The identifier of a child chunk, [f"{parent_id}_child_{i}"], is kept as
    the pair of its two parts. *)
Abbreviation child_id := (str * nat)%type.

(** The state of a [HierarchicalVectorStore] object and of what it draws
    from: the two collections, [parent_child_map], the number of identifiers
    drawn from [uuid.uuid4] and the number of calls made to the collections. *)
Record Store := {
  child_store : gmap child_id Chunk;
  parent_store : gmap str Chunk;
  parent_child_map : gmap str (list child_id);
  uuids_drawn : nat;
  store_calls : nat
}.

Definition empty_store : Store :=
  {| child_store := ∅; parent_store := ∅; parent_child_map := ∅;
     uuids_drawn := 0; store_calls := 0 |}.

(** A computation on the store that may raise; the store as the exception
    leaves it is part of the outcome. *)
Definition M (A : Type) : Type := Store -> Result A * Store.

Definition ret {A} (a : A) : M A := fun st => (Ok a, st).

Definition mbind {A B} (m : M A) (k : A -> M B) : M B :=
  fun st =>
    match m st with
    | (Ok a, st') => k a st'
    | (Raise e, st') => (Raise e, st')
    end.

(** [not chunk or len(chunk.strip()) == 0] *)
Definition blank (chunk : str) : bool := negb (nonempty (strip chunk)).

Section Ingestion.

(** The two text splitters, which may raise. *)
Variable parent_splitter : str -> Result (list str).
Variable child_splitter : str -> Result (list str).
(** [str(uuid.uuid4())], by the number of identifiers drawn before. *)
Variable uuid4 : nat -> str.
(** Whether the call to a Chroma collection with the given number raises
    (the collection embeds the text, and the embedding service may fail). *)
Variable store_fails : nat -> bool.

Definition draw_uuid : M str :=
  fun st =>
    (Ok (uuid4 (uuids_drawn st)),
     {| child_store := child_store st; parent_store := parent_store st;
        parent_child_map := parent_child_map st;
        uuids_drawn := S (uuids_drawn st); store_calls := store_calls st |}).

(** [self.child_store.add_documents([child_doc], ids=[child_id])] *)
Definition child_add (id : child_id) (c : Chunk) : M unit :=
  fun st =>
    if store_fails (store_calls st)
    then (Raise (py "embedding failed"),
          {| child_store := child_store st; parent_store := parent_store st;
             parent_child_map := parent_child_map st;
             uuids_drawn := uuids_drawn st; store_calls := S (store_calls st) |})
    else (Ok tt,
          {| child_store := <[id := c]> (child_store st);
             parent_store := parent_store st;
             parent_child_map := parent_child_map st;
             uuids_drawn := uuids_drawn st; store_calls := S (store_calls st) |}).

(** [self.parent_store.add_documents([parent_doc], ids=[parent_id])] *)
Definition parent_add (id : str) (c : Chunk) : M unit :=
  fun st =>
    if store_fails (store_calls st)
    then (Raise (py "embedding failed"),
          {| child_store := child_store st; parent_store := parent_store st;
             parent_child_map := parent_child_map st;
             uuids_drawn := uuids_drawn st; store_calls := S (store_calls st) |})
    else (Ok tt,
          {| child_store := child_store st;
             parent_store := <[id := c]> (parent_store st);
             parent_child_map := parent_child_map st;
             uuids_drawn := uuids_drawn st; store_calls := S (store_calls st) |}).

(** [self.parent_child_map[parent_id] = child_ids] *)
Definition map_children (id : str) (child_ids : list child_id) : M unit :=
  fun st =>
    (Ok tt,
     {| child_store := child_store st; parent_store := parent_store st;
        parent_child_map := <[id := child_ids]> (parent_child_map st);
        uuids_drawn := uuids_drawn st; store_calls := store_calls st |}).

Definition child_metadata (doc_meta : gmap str Value) (parent_id : str) (i : nat)
    : gmap str Value :=
  <[py "chunk_type" := VStr (py "child")]>
    (<[py "chunk_index" := VInt (Z.of_nat i)]>
       (<[py "parent_id" := VStr parent_id]> doc_meta)).

Definition parent_metadata (doc_meta : gmap str Value) (num_children : nat)
    : gmap str Value :=
  <[py "num_children" := VInt (Z.of_nat num_children)]>
    (<[py "chunk_type" := VStr (py "parent")]> doc_meta).

(** The loop over the child chunks of one parent, from the index [i] on. *)
Fixpoint add_children (doc_meta : gmap str Value) (parent_id : str) (i : nat)
    (child_chunks : list str) (child_ids : list child_id) : M (list child_id) :=
  match child_chunks with
  | [] => ret child_ids
  | child_chunk :: rest =>
      if blank child_chunk
      then add_children doc_meta parent_id (S i) rest child_ids
      else
        mbind (child_add (parent_id, i)
                 {| chunk_text := child_chunk;
                    chunk_meta := child_metadata doc_meta parent_id i |})
              (fun _ => add_children doc_meta parent_id (S i) rest
                          (child_ids ++ [(parent_id, i)]))
  end.

(** A splitter that raises gives way to the whole text as one chunk. *)
Definition split_or_whole (splitter : str -> Result (list str)) (text : str) : list str :=
  match splitter text with
  | Ok chunks => chunks
  | Raise _ => [text]
  end.

(** The loop over the parent chunks of one document. *)
Fixpoint add_parents (doc_meta : gmap str Value) (parent_chunks : list str)
    (all_parent_ids : list str) : M (list str) :=
  match parent_chunks with
  | [] => ret all_parent_ids
  | parent_chunk :: rest =>
      if blank parent_chunk
      then add_parents doc_meta rest all_parent_ids
      else
        mbind draw_uuid (fun parent_id =>
        let child_chunks := split_or_whole child_splitter parent_chunk in
        mbind (add_children doc_meta parent_id 0 child_chunks []) (fun child_ids =>
        match child_ids with
        | [] => add_parents doc_meta rest all_parent_ids
        | _ =>
            mbind (parent_add parent_id
                     {| chunk_text := parent_chunk;
                        chunk_meta := parent_metadata doc_meta (length child_ids) |})
                  (fun _ =>
            mbind (map_children parent_id child_ids) (fun _ =>
            add_parents doc_meta rest (all_parent_ids ++ [parent_id])))
        end))
  end.

(** The loop over the documents. *)
Fixpoint add_each (documents : list Document) (all_parent_ids : list str)
    : M (list str) :=
  match documents with
  | [] => ret all_parent_ids
  | d :: rest =>
      if blank (page_content d)
      then add_each rest all_parent_ids
      else
        let parent_chunks := split_or_whole parent_splitter (page_content d) in
        mbind (add_parents (metadata d) parent_chunks all_parent_ids)
              (fun all_parent_ids => add_each rest all_parent_ids)
  end.

(** [HierarchicalVectorStore.add_documents] *)
Definition add_documents (documents : list Document) : M (list str) :=
  add_each documents [].

(** A sequence of calls; a caller goes on after a call that raised. *)
Fixpoint run_calls (calls : list (list Document)) (st : Store) : Store :=
  match calls with
  | [] => st
  | documents :: rest => run_calls rest (snd (add_documents documents st))
  end.

(** Every call of the sequence returned. *)
Fixpoint all_returned (calls : list (list Document)) (st : Store) : bool :=
  match calls with
  | [] => true
  | documents :: rest =>
      negb (raises (fst (add_documents documents st))) &&
      all_returned rest (snd (add_documents documents st))
  end.

End Ingestion.

(** The parent a stored child chunk names. *)
Definition parent_of (c : Chunk) : option str :=
  match chunk_meta c !! py "parent_id" with
  | Some (VStr p) => Some p
  | _ => None
  end.

(** Every stored child chunk names a parent chunk. *)
Definition children_name_parent (st : Store) : Prop :=
  forall id c, child_store st !! id = Some c ->
    exists p, parent_of c = Some p.

(** No orphan: the parent a stored child names is stored. *)
Definition no_orphan (st : Store) : Prop :=
  forall id c, child_store st !! id = Some c ->
    exists p, parent_of c = Some p /\ is_Some (parent_store st !! p).

(** Every stored parent chunk has a stored child that is not blank. *)
Definition no_childless_parent (st : Store) : Prop :=
  forall p pc, parent_store st !! p = Some pc ->
    exists id c, child_store st !! id = Some c /\
                 parent_of c = Some p /\ blank (chunk_text c) = false.

End VectorStore.
Import VectorStore.

(** The invariants behind the three properties. *)

Module VectorStoreProps.

(** A stored child names the parent of its identifier and is not blank. *)
Definition children_wf (st : Store) : Prop :=
  forall id c, child_store st !! id = Some c ->
    parent_of c = Some (fst id) /\ blank (chunk_text c) = false.

(** A stored parent has a stored child. *)
Definition parents_wf (st : Store) : Prop :=
  forall p pc, parent_store st !! p = Some pc ->
    exists i, is_Some (child_store st !! (p, i)).

(** The parent of a stored child is stored, or is the one being built. *)
Definition parents_present (pending : option str) (st : Store) : Prop :=
  forall id c, child_store st !! id = Some c ->
    is_Some (parent_store st !! fst id) \/ pending = Some (fst id).

Definition wf (st : Store) : Prop := children_wf st /\ parents_wf st.

End VectorStoreProps.
Import VectorStoreProps.

(** Splitters that return the text as one chunk, numbered identifiers, and
    one document. *)
Module IngestionExample.

Definition whole : str -> Result (list str) := fun text => Ok [text].
Definition numbered : nat -> str := fun n => py "parent-" ++ str_of_Z (Z.of_nat n).
Definition visa_rules : Document :=
  {| doc_id := 0; page_content := py "Visa rules"; metadata := ∅ |}.
(** The second call to a collection, the write of the parent, fails. *)
Definition second_fails : nat -> bool := fun n => (n =? 1)%nat.
Definition never_fails : nat -> bool := fun _ => false.

End IngestionExample.

(** ** What is asked of a sorted list *)

Module PySortProps.

(** No element is followed by one of a strictly larger key. *)
Definition descending {A K : Type} (key : A -> K) (ltb : K -> K -> bool)
    (l : list A) : Prop :=
  ForallOrdPairs (fun a b => ltb (key a) (key b) = false) l.

(** A word as [str.split()] gives it: not empty, without whitespace. *)
Definition word (w : str) : Prop :=
  w <> [] /\ Forall (fun c => isspace c = false) w.

End PySortProps.
Import PySortProps.

(** ** The language model on the further prompts *)

Module LLMMore.

(** The prompts of the methods below, by what fills their holes. *)
Inductive FurtherPrompt :=
| SqlIntentPrompt (query : str)
| SuggestTablePrompt (query : str) (available_tables : list str)
| SqlFriendlyPrompt (query : str)
| SemanticPrompt (query : str)
| ReformulatePrompt (query : str) (context : option str)
| RerankPrompt (query : str) (doc_texts : list str) (top_n : Z).

Abbreviation further_model := (FurtherPrompt -> Result str).

Definition out_of_reach : further_model := fun _ => Raise (py "connection error").

End LLMMore.
Import LLMMore.

(** ** The query classifier: SQL intent and table suggestion *)

Module ClassifierMore.

(** The dictionary returned by [extract_sql_intent]. *)
Record SqlIntent := {
  operation : str;
  columns : list str;
  conditions : option str;
  aggregation : option str
}.

Definition unknown_intent : SqlIntent :=
  {| operation := py "UNKNOWN"; columns := []; conditions := None;
     aggregation := None |}.

(** [line.split(':', 1)[1]] for a line that has a colon. *)
Fixpoint after_colon (line : str) : str :=
  match line with
  | [] => []
  | c :: rest => if eqc c ":" then rest else after_colon rest
  end.

(** One round of the loop over the lines of the reply. *)
Definition read_line (intent : SqlIntent) (line : str) : SqlIntent :=
  if startswith (py "Operation:") line then
    {| operation := strip (after_colon line); columns := columns intent;
       conditions := conditions intent; aggregation := aggregation intent |}
  else if startswith (py "Columns:") line then
    let cols := strip (after_colon line) in
    if negb (eqs (upper cols) (py "UNKNOWN"))
    then {| operation := operation intent;
            columns := map strip (split_char "," cols);
            conditions := conditions intent; aggregation := aggregation intent |}
    else intent
  else if startswith (py "Conditions:") line then
    let cond := strip (after_colon line) in
    if negb (eqs (upper cond) (py "NONE"))
    then {| operation := operation intent; columns := columns intent;
            conditions := Some cond; aggregation := aggregation intent |}
    else intent
  else if startswith (py "Aggregation:") line then
    let agg := strip (after_colon line) in
    if negb (eqs (upper agg) (py "NONE"))
    then {| operation := operation intent; columns := columns intent;
            conditions := conditions intent; aggregation := Some agg |}
    else intent
  else intent.

Section WithModel.

Variable llm : further_model.

(** [QueryClassifier.extract_sql_intent] *)
Definition extract_sql_intent (query : str) : SqlIntent :=
  match llm (SqlIntentPrompt query) with
  | Ok content =>
      fold_left read_line (split_char Enhancer.newline (strip content)) unknown_intent
  | Raise _ => unknown_intent
  end.

(** [QueryClassifier.suggest_table] *)
Definition suggest_table (query : str) (available_tables : list str) : option str :=
  match available_tables with
  | [] => None
  | [table] => Some table
  | first :: _ =>
      match llm (SuggestTablePrompt query available_tables) with
      | Ok content =>
          let suggested := lower (strip content) in
          match List.find (fun table => contains (lower table) suggested
                                        || contains suggested (lower table))
                          available_tables with
          | Some table => Some table
          | None => Some first
          end
      | Raise _ => Some first
      end
  end.

End WithModel.

(** The reply the prompt of [extract_sql_intent] asks for. *)
Definition intent_reply (op cols cond agg : str) : str :=
  py "Operation: " ++ op ++ [Enhancer.newline] ++
  py "Columns: " ++ cols ++ [Enhancer.newline] ++
  py "Conditions: " ++ cond ++ [Enhancer.newline] ++
  py "Aggregation: " ++ agg.

(** A field of the reply: on one line. *)
Definition one_line (s : str) : bool := negb (mem_char Enhancer.newline s).

(** A text that does not end with whitespace and is not empty. *)
Definition ends_in_text (s : str) : bool :=
  match rev s with c :: _ => negb (isspace c) | [] => false end.

End ClassifierMore.
Import ClassifierMore.

(** ** The query enhancer: optimisation and decomposition *)

Module EnhancerMore.

Section WithModel.

Variable llm : further_model.

(** [QueryEnhancer.optimize_for_sql] *)
Definition optimize_for_sql (query : str) : str :=
  match llm (SqlFriendlyPrompt query) with
  | Ok content =>
      let optimized := strip content in
      if nonempty optimized then optimized else query
  | Raise _ => query
  end.

(** [QueryEnhancer.optimize_for_semantic] *)
Definition optimize_for_semantic (query : str) : str :=
  let expanded := expand_acronyms query in
  match llm (SemanticPrompt query) with
  | Ok content =>
      let optimized := strip content in
      if nonempty optimized then optimized else expanded
  | Raise _ => expanded
  end.

End WithModel.

(** [\w] on one character, and at a position that may be outside the text. *)
Definition re_word (c : ascii) : bool := isalnum c || eqc c "_".
Definition word_at (c : option ascii) : bool :=
  match c with Some c => re_word c | None => false end.

(** [\bw\b] matches at the head of [s], which [prev] precedes; [w] is
    made of letters. *)
Definition matches_word (w : str) (prev : option ascii) (s : str) : bool :=
  startswith w s && negb (word_at prev) && negb (word_at (nth_error s (length w))).

(** [re.split(r'\?|\band\b|\bor\b', s)]: [cur] is the piece being read, in
    reverse, and [skip] the number of characters of the match at hand that
    are still to be dropped. *)
Fixpoint re_split_aux (prev : option ascii) (skip : nat) (cur : str) (s : str)
    : list str :=
  match s with
  | [] => [rev cur]
  | c :: s' =>
      match skip with
      | S k => re_split_aux (Some c) k cur s'
      | O =>
          if eqc c "?" then rev cur :: re_split_aux (Some c) 0 [] s'
          else if matches_word (py "and") prev s
          then rev cur :: re_split_aux (Some c) 2 [] s'
          else if matches_word (py "or") prev s
          then rev cur :: re_split_aux (Some c) 1 [] s'
          else re_split_aux (Some c) 0 (c :: cur) s'
      end
  end.
Definition re_split (s : str) : list str := re_split_aux None 0 [] s.

(** [QueryEnhancer.decompose_complex_query] *)
Definition decompose_complex_query (query : str) : list str :=
  if negb (mem_char "?" query) then [query]
  else
    let questions := re_split query in
    let sub_queries :=
      map strip (List.filter (fun q => nonempty (strip q)) questions) in
    if (length sub_queries <=? 1)%nat then [query] else sub_queries.

(** A text without whitespace at either end. *)
Definition trimmed (s : str) : Prop :=
  match s with c :: _ => isspace c = false | [] => True end /\
  match rev s with c :: _ => isspace c = false | [] => True end.

End EnhancerMore.
Import EnhancerMore.

(** ** The SQL engine: construction and schemas *)

Module SQLEngineMore.

Section Files.

Variable path_exists : str -> bool.
Variable listdir : str -> list str.
Variable read_csv : str -> str -> option DataFrame.

(** [SQLEngine.__init__]; no list of directories, or an empty one, selects
    the two default directories. *)
Definition init (csv_directories : option (list str)) : Engine :=
  fst (load_all_csv_files path_exists listdir read_csv
         {| csv_directories :=
              match csv_directories with
              | Some (d :: ds) => d :: ds
              | _ => [py "./pdfs"; py "./uploaded_docs"]
              end;
            dataframes := ∅; table_schemas := ∅ |}).

End Files.

(** What [get_table_schema] returns: the schema of one table, its error
    dictionary, or the schemas of all the tables. *)
Inductive SchemaReply :=
| TableSchema (table_name : str) (row_count : nat) (columns : list ColumnInfo)
| SchemaError (error : str)
| AllSchemas (schemas : gmap str (nat * list ColumnInfo)).

(** [str(KeyError(name))] *)
Definition key_error (name : str) : str := py "'" ++ name ++ py "'".

(** [SQLEngine.get_table_schema].  [self.dataframes[table_name]] raises
    [KeyError] for a name that has a schema and no frame; over all the
    tables the name in the message is the first such name, in the order of
    the map. *)
Definition get_table_schema (e : Engine) (table_name : option str)
    : Result SchemaReply :=
  match table_name with
  | Some (c :: n) =>
      let table_name := c :: n in
      match table_schemas e !! table_name with
      | Some columns =>
          match dataframes e !! table_name with
          | Some df => Ok (TableSchema table_name (length (df_rows df)) columns)
          | None => Raise (key_error table_name)
          end
      | None => Ok (SchemaError (py "Table '" ++ table_name ++ py "' not found"))
      end
  | _ =>
      match List.find (fun name => negb (bool_decide (is_Some (dataframes e !! name))))
                      (map fst (map_to_list (table_schemas e))) with
      | Some name => Raise (key_error name)
      | None =>
          Ok (AllSchemas
                (map_imap (fun name columns =>
                             match dataframes e !! name with
                             | Some df => Some (length (df_rows df), columns)
                             | None => None
                             end)
                          (table_schemas e)))
      end
  end.

(** The two dictionaries of the engine agree: a table has a schema exactly
    when it has a frame, and the schema is the one of the frame. *)
Definition consistent (e : Engine) : Prop :=
  forall name, table_schemas e !! name = _get_schema <$> (dataframes e !! name).

End SQLEngineMore.
Import SQLEngineMore.

(** ** The hybrid retriever: the table of scores and the index *)

Module RetrieverMore.

(** The entries of a table of scores sit under the identity of their
    document, each identity once. *)
Definition well_keyed (table : ScoreTable) : Prop :=
  NoDup (map fst table) /\
  Forall (fun p : nat * Scored => doc_id (doc (snd p)) = fst p) table.

(** The identities of the documents of a list of results. *)
Definition result_ids (results : list (Document * Q)) : list nat :=
  map (fun r => doc_id (fst r)) results.

Section Collaborators.

Variable child_collection_get : Result (list Document).

(** [HybridRetriever.rebuild_bm25_index]: the flag and the state
    afterwards. *)
Definition rebuild_bm25_index (st : RetrieverState) : bool * RetrieverState :=
  match _get_all_documents_from_vectorstore child_collection_get with
  | [] => (false, st)
  | documents => (true, _build_bm25_index documents)
  end.

End Collaborators.

End RetrieverMore.
Import RetrieverMore.

(** ** The retriever with reformulation and reranking *)

Module IntelligentRetriever.

(** [config.SIMILARITY_THRESHOLD] *)
Definition SIMILARITY_THRESHOLD : Q := 7#10.

(** [s.isdigit()] *)
Definition isdigit_str (s : str) : bool := nonempty s && forallb isdigit s.

(** [[int(idx.strip()) for idx in parts if idx.strip().isdigit()]]; no
    list when a call of [int] raises. *)
Fixpoint read_indices (parts : list str) : option (list Z) :=
  match parts with
  | [] => Some []
  | idx :: rest =>
      if isdigit_str (strip idx)
      then match Z_of_str (strip idx), read_indices rest with
           | Some n, Some l => Some (n :: l)
           | _, _ => None
           end
      else read_indices rest
  end.

(** The lines given to the model: [f"[{i}] {doc.page_content[:500]}"], from
    the index [i] on. *)
Fixpoint doc_texts (i : nat) (documents : list Document) : list str :=
  match documents with
  | [] => []
  | d :: rest =>
      (py "[" ++ str_of_Z (Z.of_nat i) ++ py "] " ++ first_chars 500 (page_content d))
      :: doc_texts (S i) rest
  end.

Section Retrieve.

Variable llm : further_model.
(** [Document.__eq__] of the library. *)
Variable doc_eq : Document -> Document -> bool.
Variable child_similarity_search : str -> Z -> Result (list (Document * Q)).
Variable parent_get : str -> option str.

(** [IntelligentRetriever.reformulate_query]; a context that is absent or
    empty is not used. *)
Definition reformulate_query (query : str) (context : option str) : list str :=
  let context := match context with Some (c :: r) => Some (c :: r) | _ => None end in
  match llm (ReformulatePrompt query context) with
  | Ok content =>
      let alternatives := split_char Enhancer.newline (strip content) in
      let alternatives :=
        firstn 3
          (map (fun q => lstrip_chars (py "123.-) ") (strip q))
               (List.filter (fun q => nonempty (strip q)) alternatives)) in
      query :: alternatives
  | Raise _ => [query]
  end.

(** [doc in reranked]: some element is the document, or is equal to it. *)
Definition doc_in (d : Document) (reranked : list Document) : bool :=
  existsb (fun e => (doc_id e =? doc_id d)%nat || doc_eq e d) reranked.

(** The loop that fills [reranked] in the first order. *)
Fixpoint fill (top_n : Z) (documents reranked : list Document) : list Document :=
  match documents with
  | [] => reranked
  | d :: rest =>
      if negb (doc_in d reranked) && (Z.of_nat (length reranked) <? top_n)%Z
      then fill top_n rest (reranked ++ [d])
      else fill top_n rest reranked
  end.

(** [IntelligentRetriever.rerank_results] *)
Definition rerank_results (query : str) (documents : list Document) (top_n : Z)
    : list Document :=
  match documents with
  | [] => []
  | _ =>
      if (Z.of_nat (length documents) <=? top_n)%Z then slice_to top_n documents
      else
        match llm (RerankPrompt query (doc_texts 0 (firstn 10 documents)) top_n) with
        | Ok content =>
            match read_indices (split_char "," (strip content)) with
            | Some indices =>
                let reranked :=
                  flat_map (fun idx =>
                              if (0 <=? idx)%Z && (idx <? Z.of_nat (length documents))%Z
                              then match nth_error documents (Z.to_nat idx) with
                                   | Some d => [d]
                                   | None => []
                                   end
                              else [])
                           (slice_to top_n indices) in
                if (Z.of_nat (length reranked) <? top_n)%Z
                then fill top_n documents reranked
                else reranked
            | None => slice_to top_n documents
            end
        | Raise _ => slice_to top_n documents
        end
  end.

(** The loop over the results of one query: [seen_contents] and
    [all_documents]. *)
Definition add_result (st : list str * list Document) (r : Document * Q)
    : list str * list Document :=
  let '(seen_contents, all_documents) := st in
  if mem_str (page_content (fst r)) seen_contents then st
  else (page_content (fst r) :: seen_contents,
        all_documents ++ [set_meta (py "retrieval_score") (VFloat (snd r)) (fst r)]).

(** The loop over the queries; a search that raises ends it. *)
Fixpoint gather (k : Z) (queries : list str) (st : list str * list Document)
    : Result (list str * list Document) :=
  match queries with
  | [] => Ok st
  | q :: rest =>
      let! results :=
        similarity_search_with_score child_similarity_search parent_get q (k * 2)
          SIMILARITY_THRESHOLD in
      gather k rest (fold_left add_result results st)
  end.

(** [IntelligentRetriever.retrieve] *)
Definition retrieve (query : str) (k : Z) (use_reformulation use_reranking : bool)
    (context : option str) : Result (list Document) :=
  let k := Z.max 1 k in
  let queries :=
    if use_reformulation then reformulate_query query context else [query] in
  let! st := gather k queries ([], []) in
  let all_documents := sort_desc (retrieval_score 0%Q) Qltb (snd st) in
  Ok (match use_reranking, all_documents with
      | true, _ :: _ => rerank_results query all_documents k
      | _, _ => slice_to k all_documents
      end).

End Retrieve.

(** A document that carries a retrieval score at or above the threshold. *)
Definition scored_above (threshold : Q) (d : Document) : Prop :=
  exists s, metadata d !! py "retrieval_score" = Some (VFloat s) /\ (threshold <= s)%Q.

End IntelligentRetriever.
Import IntelligentRetriever.

(** ** The document store: the map from parents to children *)

Module VectorStoreMore.

(** [parent_id] is a key of [parent_child_map]. *)
Definition mapped (st : Store) (parent_id : str) : Prop :=
  is_Some (parent_child_map st !! parent_id).

(** A list of children of [parent_id]: not empty, each child stored under
    an identifier of that parent. *)
Definition children_of (st : Store) (parent_id : str) (ids : list child_id) : Prop :=
  ids <> [] /\
  Forall (fun id : child_id => fst id = parent_id /\ is_Some (child_store st !! id)) ids.

(** [parent_child_map] agrees with the two collections: a key is a stored
    parent, and its entry lists stored children of it. *)
Definition map_wf (st : Store) : Prop :=
  forall parent_id ids,
    parent_child_map st !! parent_id = Some ids ->
    is_Some (parent_store st !! parent_id) /\ children_of st parent_id ids.

End VectorStoreMore.
Import VectorStoreMore.

(** ** The conversation memory: the context given to the agents *)

Module Memory.

(** A [ChatMessage] row. *)
Record ChatMessage := { role : str; content : str }.

(** [role_label] of [get_conversation_context]. *)
Definition role_label (msg : ChatMessage) : str :=
  if eqs (role msg) (py "user") then py "User" else py "Assistant".

(** The loop of [get_conversation_context] over the messages and the final
    [join]. *)
Definition format_context (messages : list ChatMessage) : str :=
  join [Enhancer.newline]
       (map (fun msg => role_label msg ++ py ": " ++ content msg) messages).

Section Session.

(** The slice [messages[-max_messages:]] of the query set, which is the
    object-relational mapper's to answer or to refuse. *)
Variable last_messages : Z -> list ChatMessage -> Result (list ChatMessage).

(** [ConversationMemoryManager.get_conversation_context], for the messages
    of the session, or for a session that does not exist. *)
Definition get_conversation_context (session : option (list ChatMessage))
    (max_messages : option Z) : Result str :=
  match session with
  | None => Ok []
  | Some messages =>
      let! messages :=
        match max_messages with
        | Some n =>
            if negb (n =? 0)%Z && (0 <? n)%Z && (n <? Z.of_nat (length messages))%Z
            then last_messages n messages
            else Ok messages
        | None => Ok messages
        end in
      Ok (format_context messages)
  end.

End Session.

(** The entry of the chat history for a message. *)
Definition history_entry (msg : ChatMessage) : str * str :=
  (if eqs (role msg) (py "user") then py "human" else py "ai", strip (content msg)).

(** A message that [parse_chat_history] can read back: its content is on
    one line and does not hold the label of its role followed by a colon. *)
Definition readable (msg : ChatMessage) : Prop :=
  mem_char Enhancer.newline (content msg) = false /\
  contains (role_label msg ++ py ":") (content msg) = false.

End Memory.
Import Memory.

(** ** Table names that need no cleaning *)

Module SQLNamesMore.

(** A name made of segments in lower case, joined by one underscore, that
    does not start with a digit. *)
Definition clean_name (t : str) : Prop :=
  exists segments,
    t = join (py "_") segments /\ segments <> [] /\
    Forall (fun p => segment p /\ lower p = p) segments /\
    starts_with_digit t = false.

End SQLNamesMore.
Import SQLNamesMore.

(** ** The document store: search with metadata filters *)

Module HierarchicalSearch.

Section Collaborators.

Variable child_similarity_search : str -> Z -> Result (list (Document * Q)).
Variable parent_get : str -> option str.
(** [child_store.get(where=filters, limit=k)["documents"]], which may raise. *)
Variable child_get_where : gmap str Value -> Z -> Result (list str).
(** The identity of the [n]-th document the method creates. *)
Variable new_id : nat -> nat.

(** [Document(page_content=doc, metadata={})] with the score 0.5, for the
    texts from the index [n] on. *)
Fixpoint keyword_documents (n : nat) (texts : list str) : list (Document * Q) :=
  match texts with
  | [] => []
  | text :: rest =>
      ({| doc_id := new_id n; page_content := text; metadata := ∅ |}, (1#2)%Q)
      :: keyword_documents (S n) rest
  end.

(** The loop that drops the repeated contents and stops at [k] results. *)
Fixpoint dedupe (k : Z) (seen : list str) (final_results : list Document)
    (sorted : list (Document * Q)) : list Document :=
  match sorted with
  | [] => final_results
  | (d, _) :: rest =>
      if mem_str (page_content d) seen then dedupe k seen final_results rest
      else
        let final_results := final_results ++ [d] in
        if (k <=? Z.of_nat (length final_results))%Z then final_results
        else dedupe k (page_content d :: seen) final_results rest
  end.

(** [HierarchicalVectorStore.hybrid_search], which
    [IntelligentRetriever.retrieve_with_metadata_filter] calls with the same
    arguments; filters that are absent or empty are not used. *)
Definition hybrid_search (query : str) (k : Z)
    (metadata_filters : option (gmap str Value)) : Result (list Document) :=
  let k := Z.max 1 k in
  let! semantic_results :=
    similarity_search_with_score child_similarity_search parent_get query k (7#10) in
  match metadata_filters with
  | Some filters =>
      if bool_decide (filters = ∅) then Ok (map fst semantic_results)
      else
        let! texts := child_get_where filters k in
        let combined := semantic_results ++ keyword_documents 0 texts in
        Ok (dedupe k [] [] (sort_desc snd Qltb combined))
  | None => Ok (map fst semantic_results)
  end.

End Collaborators.

End HierarchicalSearch.

(** * Properties *)

(** *** Facts on the string operations *)

Module PyStrFacts.

Lemma eqc_refl c : eqc c c = true.
Proof. apply Ascii.eqb_refl. Qed.

Lemma eqc_eq a b : eqc a b = true -> a = b.
Proof. apply Ascii.eqb_eq. Qed.

Lemma eqs_eq a b : eqs a b = true <-> a = b.
Proof.
  revert b. induction a as [|x a IH]; intros [|y b]; simpl; split;
    try discriminate; try reflexivity.
  - intros H. apply andb_true_iff in H as [A B].
    apply eqc_eq in A. apply IH in B. congruence.
  - intros [= -> ->]. rewrite eqc_refl. apply IH. reflexivity.
Qed.

Lemma startswith_app p s : startswith p (p ++ s) = true.
Proof.
  induction p as [|c p IH]; simpl; [reflexivity|].
  rewrite eqc_refl. exact IH.
Qed.

Lemma startswith_split p s :
  startswith p s = true -> exists r, s = p ++ r.
Proof.
  revert s. induction p as [|c p IH]; intros s H; [exists s; reflexivity|].
  destruct s as [|d s]; [discriminate|]. simpl in H.
  apply andb_true_iff in H as [A B]. apply eqc_eq in A. subst d.
  destruct (IH _ B) as [r ->]. exists r. reflexivity.
Qed.

Lemma contains_unfold p s :
  contains p s =
  startswith p s || match s with [] => false | _ :: s' => contains p s' end.
Proof. destruct s; reflexivity. Qed.

Lemma contains_app p x y : contains p (x ++ p ++ y) = true.
Proof.
  induction x as [|c x IH].
  - rewrite contains_unfold. simpl app. rewrite startswith_app. reflexivity.
  - rewrite contains_unfold. simpl app. cbv iota. rewrite IH. apply orb_true_r.
Qed.

Lemma contains_split p s :
  contains p s = true -> exists x y, s = x ++ p ++ y.
Proof.
  induction s as [|c s IH]; rewrite contains_unfold; intros H.
  - rewrite orb_false_r in H. apply startswith_split in H as [r ->].
    exists [], r. reflexivity.
  - apply orb_true_iff in H as [H|H].
    + apply startswith_split in H as [r ->]. exists [], r. reflexivity.
    + destruct (IH H) as (x & y & ->). exists (c :: x), y. reflexivity.
Qed.

Lemma endswith_char c s :
  endswith [c] s = true <-> exists s', s = s' ++ [c].
Proof.
  unfold endswith. simpl. split.
  - destruct (rev s) as [|d r] eqn:E; [discriminate|]. intros H.
    rewrite andb_true_r in H. apply eqc_eq in H. subst d.
    exists (rev r). rewrite <- (rev_involutive s), E. reflexivity.
  - intros [s' ->]. rewrite rev_unit, eqc_refl. reflexivity.
Qed.

Lemma lstrip_by_keep f x c r :
  f c = false -> lstrip_by f (x ++ c :: r) = lstrip_by f x ++ c :: r.
Proof.
  intros Hc. induction x as [|a x IH]; simpl.
  - rewrite Hc. reflexivity.
  - destruct (f a); [exact IH | reflexivity].
Qed.

Lemma rstrip_by_keep f x c r :
  f c = false -> rstrip_by f (x ++ c :: r) = x ++ c :: rstrip_by f r.
Proof.
  intros Hc. unfold rstrip_by.
  rewrite rev_app_distr. simpl. rewrite <- app_assoc. simpl.
  rewrite (lstrip_by_keep f (rev r) c (rev x) Hc).
  rewrite rev_app_distr. simpl. rewrite rev_involutive, <- app_assoc.
  reflexivity.
Qed.

Lemma strip_keep x c r :
  isspace c = false ->
  strip (x ++ c :: r) = lstrip_by isspace x ++ c :: rstrip_by isspace r.
Proof.
  intros Hc. unfold strip.
  rewrite (lstrip_by_keep _ x c r Hc). apply rstrip_by_keep, Hc.
Qed.

Lemma rstrip_by_last f s :
  (forall s' c, s = s' ++ [c] -> f c = false) -> rstrip_by f s = s.
Proof.
  destruct s as [|a s] using rev_ind; [reflexivity|]. intros H.
  rewrite (rstrip_by_keep f s a [] (H _ _ eq_refl)). reflexivity.
Qed.

Lemma upper_app a b : upper (a ++ b) = upper a ++ upper b.
Proof. apply map_app. Qed.

Lemma upper_lower s : upper (lower s) = upper s.
Proof.
  unfold upper, lower. rewrite map_map. apply map_ext.
  intros c. destruct c as [[] [] [] [] [] [] [] []]; reflexivity.
Qed.

(** Splitting on whitespace. *)

Lemma split_ws_aux_space cur a c s :
  isspace c = true ->
  split_ws_aux cur (a ++ c :: s) = split_ws_aux cur a ++ split_ws_aux [] s.
Proof.
  intros Hc. revert cur. induction a as [|x a IH]; intros cur; simpl.
  - rewrite Hc. destruct cur; reflexivity.
  - destruct (isspace x).
    + destruct cur; rewrite IH; reflexivity.
    + apply IH.
Qed.

Lemma split_ws_aux_word cur w s :
  Forall (fun c => isspace c = false) w ->
  split_ws_aux cur (w ++ s) = split_ws_aux (rev w ++ cur) s.
Proof.
  intros Hw. revert cur. induction Hw as [|c w Hc _ IH]; intros cur; simpl.
  - reflexivity.
  - rewrite Hc, IH, <- app_assoc. reflexivity.
Qed.

Lemma split_ws_word w :
  w <> [] -> Forall (fun c => isspace c = false) w -> split_ws w = [w].
Proof.
  intros Hne Hw. unfold split_ws.
  rewrite <- (app_nil_r w) at 1. rewrite (split_ws_aux_word [] w [] Hw).
  simpl. rewrite app_nil_r. destruct (rev w) as [|c r] eqn:E.
  - apply (f_equal (@rev ascii)) in E. rewrite rev_involutive in E.
    simpl in E. congruence.
  - rewrite <- E, rev_involutive. reflexivity.
Qed.

(** The decimal numerals. *)

Lemma uint_digits d :
  Forall (fun c => isdigit c = true)
         (list_ascii_of_string (NilEmpty.string_of_uint d)).
Proof. induction d; simpl; constructor; auto. Qed.

Lemma str_of_Z_digits n :
  (0 <= n)%Z ->
  str_of_Z n <> [] /\ Forall (fun c => isdigit c = true) (str_of_Z n).
Proof.
  intros Hn. unfold str_of_Z. destruct n as [|p|p]; [| |lia].
  - split; [discriminate | repeat constructor].
  - simpl. pose proof (DecimalPos.Unsigned.to_uint_nonnil p) as Hp.
    pose proof (uint_digits (Pos.to_uint p)) as Hd.
    unfold NilZero.string_of_uint.
    destruct (Pos.to_uint p) eqn:E; [congruence| | | | | | | | | |];
      (split; [discriminate | exact Hd]).
Qed.

Lemma Z_of_str_of_Z n : Z_of_str (str_of_Z n) = Some n.
Proof.
  unfold Z_of_str, str_of_Z. rewrite string_of_list_ascii_of_string.
  rewrite NilZero.isi.
  - rewrite DecimalZ.of_to. reflexivity.
  - destruct n; simpl; try discriminate.
    intros [= H]. exact (DecimalPos.Unsigned.to_uint_nonnil _ H).
  - destruct n; simpl; try discriminate.
    intros [= H]. exact (DecimalPos.Unsigned.to_uint_nonnil _ H).
Qed.

Lemma digit_not_space c : isdigit c = true -> isspace c = false.
Proof. destruct c as [[] [] [] [] [] [] [] []]; vm_compute; congruence. Qed.

End PyStrFacts.
Import PyStrFacts.

Example sanitize_provider_list :
  _sanitize_table_name (py "2024 Provider List.csv") = py "provider_list".
Proof. vm_compute. reflexivity. Qed.

(** *** Properties of the derived table name *)

Module SQLNamesFacts.

Lemma no_underscore_run_cons a b t :
  no_underscore_run (a :: b :: t) =
  negb (eqc a "_" && eqc b "_") && no_underscore_run (b :: t).
Proof. reflexivity. Qed.

Ltac all_chars c :=
  destruct c as [[] [] [] [] [] [] [] []]; vm_compute; try reflexivity; try discriminate; auto.

Lemma lower_char_ident c : ident_char c = true -> ident_char (lower_char c) = true.
Proof. all_chars c. Qed.

Lemma lower_char_underscore c : eqc (lower_char c) "_" = eqc c "_".
Proof. all_chars c. Qed.

Lemma lower_char_digit c : isdigit (lower_char c) = isdigit c.
Proof. all_chars c. Qed.

Lemma lower_char_not_upper c : isupper (lower_char c) = false.
Proof. all_chars c. Qed.

Lemma lower_char_idem c : lower_char (lower_char c) = lower_char c.
Proof. all_chars c. Qed.

Lemma lower_char_cased c :
  isalpha c = true -> islower (lower_char c) = true.
Proof. all_chars c. Qed.

Lemma ident_not_space c : ident_char c = true -> isspace c = false.
Proof. all_chars c. Qed.

Lemma ident_split c :
  ident_char c = true -> eqc c "_" = false -> isalnum c = true.
Proof. unfold ident_char. intros H E. rewrite E, orb_false_r in H. exact H. Qed.

Lemma alnum_not_underscore c : isalnum c = true -> eqc c "_" = false.
Proof. all_chars c. Qed.

Lemma alnum_alpha_or_digit c :
  isalnum c = true -> isdigit c = false -> isalpha c = true.
Proof. unfold isalnum. intros H E. rewrite E, orb_false_r in H. exact H. Qed.

(** What the successive steps of the sanitizer keep. *)

Lemma lstrip_by_Forall (P : ascii -> Prop) f s :
  Forall P s -> Forall P (lstrip_by f s).
Proof.
  induction 1 as [|c s Hc Hs IH]; simpl; [constructor|].
  destruct (f c); [exact IH | constructor; assumption].
Qed.

Lemma split_char_cons sep s : exists h t, split_char sep s = h :: t.
Proof.
  destruct s as [|c s]; simpl; [eauto|].
  destruct (eqc c sep); [eauto|].
  destruct (split_char sep s); eauto.
Qed.

Lemma split_char_Forall (P : ascii -> Prop) sep s :
  Forall P s -> Forall (Forall P) (split_char sep s).
Proof.
  induction 1 as [|c s Hc Hs IH]; simpl.
  - repeat constructor.
  - destruct (eqc c sep).
    + constructor; [constructor | exact IH].
    + destruct (split_char sep s) as [|h t].
      * repeat constructor. exact Hc.
      * inversion IH; subst. constructor; [constructor|]; assumption.
Qed.

Lemma split_char_no_sep sep s :
  Forall (Forall (fun c => eqc c sep = false)) (split_char sep s).
Proof.
  induction s as [|c s IH]; simpl.
  - repeat constructor.
  - destruct (eqc c sep) eqn:E.
    + constructor; [constructor | exact IH].
    + destruct (split_char sep s) as [|h t].
      * repeat constructor. exact E.
      * inversion IH; subst. constructor; [constructor|]; assumption.
Qed.

Lemma segments_of_split s :
  Forall (fun c => ident_char c = true) s ->
  Forall segment (filter_nonempty (split_char "_" s)).
Proof.
  intros Hs.
  pose proof (split_char_Forall _ "_"%char s Hs) as H1.
  pose proof (split_char_no_sep "_"%char s) as H2.
  unfold filter_nonempty.
  induction (split_char "_" s) as [|p ps IH]; simpl; [constructor|].
  inversion H1; subst. inversion H2; subst.
  destruct p as [|c p]; simpl; [auto|].
  constructor; [|auto].
  split; [discriminate|].
  match goal with
  | A : Forall _ (c :: p), B : Forall _ (c :: p) |- _ =>
      clear - A B; induction (c :: p) as [|x xs IHx];
      [constructor | inversion A; inversion B; subst; constructor;
                     [apply ident_split; assumption | auto]]
  end.
Qed.

Lemma tidy_segment_cons p r :
  segment p -> tidy r -> r <> [] -> tidy (p ++ py "_" ++ r) /\ p ++ py "_" ++ r <> [].
Proof.
  intros [Hne Hp] (Hr1 & Hr2 & Hr3) Hrne.
  split; [|destruct p; [congruence | discriminate]].
  destruct p as [|c p]; [congruence|]. clear Hne.
  revert c Hp. induction p as [|d p IH]; intros c Hp.
  - inversion Hp; subst. destruct r as [|x r]; [congruence|].
    pose proof (alnum_not_underscore _ H1) as Hc.
    repeat split.
    + constructor; [unfold ident_char; rewrite H1; reflexivity|].
      constructor; [reflexivity | exact Hr1].
    + change ([c] ++ py "_" ++ x :: r) with (c :: "_"%char :: x :: r).
      rewrite !no_underscore_run_cons. simpl in Hr3. rewrite Hc, Hr3, Hr2.
      reflexivity.
    + simpl. exact Hc.
  - inversion Hp; subst.
    destruct (IH d H2) as (T1 & T2 & T3).
    pose proof (alnum_not_underscore _ H1) as Hc.
    repeat split.
    + constructor; [unfold ident_char; rewrite H1; reflexivity | exact T1].
    + change ((c :: d :: p) ++ py "_" ++ r) with (c :: (d :: p) ++ py "_" ++ r).
      change ((d :: p) ++ py "_" ++ r) with (d :: (p ++ py "_" ++ r)) in *.
      rewrite no_underscore_run_cons, Hc, T2. reflexivity.
    + simpl. exact Hc.
Qed.

Lemma tidy_segment p : segment p -> tidy p.
Proof.
  intros [Hne Hp]. destruct p as [|c p]; [congruence|]. clear Hne.
  revert c Hp. induction p as [|d p IH]; intros c Hp; inversion Hp; subst;
    pose proof (alnum_not_underscore _ H1) as Hc.
  - repeat split; [|simpl; exact Hc].
    constructor; [unfold ident_char; rewrite H1; reflexivity | constructor].
  - destruct (IH d H2) as (T1 & T2 & T3). repeat split.
    + constructor; [unfold ident_char; rewrite H1; reflexivity | exact T1].
    + rewrite no_underscore_run_cons, Hc, T2. reflexivity.
    + simpl. exact Hc.
Qed.

Lemma tidy_join ps :
  Forall segment ps -> tidy (join (py "_") ps) /\ (ps <> [] -> join (py "_") ps <> []).
Proof.
  induction 1 as [|p ps Hp Hps IH].
  - split; [|congruence]. repeat split. constructor.
  - destruct ps as [|q ps].
    + simpl. split; [apply tidy_segment; exact Hp|]. intros _. apply Hp.
    + destruct IH as [IH1 IH2].
      change (join (py "_") (p :: q :: ps)) with (p ++ py "_" ++ join (py "_") (q :: ps)).
      destruct (tidy_segment_cons p (join (py "_") (q :: ps)) Hp IH1) as [T N];
        [apply IH2; discriminate|].
      split; [exact T | intros _; exact N].
Qed.

Lemma tidy_lower s : tidy s -> tidy (lower s).
Proof.
  intros (H1 & H2 & H3). repeat split.
  - clear H2 H3. unfold lower.
    induction H1; simpl; constructor; auto using lower_char_ident.
  - clear H1 H3. induction s as [|a [|b s] IH]; try reflexivity.
    change (lower (a :: b :: s)) with (lower_char a :: lower_char b :: lower s).
    rewrite no_underscore_run_cons in H2.
    apply andb_true_iff in H2 as [A B].
    rewrite no_underscore_run_cons, !lower_char_underscore, A.
    exact (IH B).
  - destruct s as [|c s]; [reflexivity|]. simpl in *.
    rewrite lower_char_underscore. exact H3.
Qed.

Lemma lower_idem s : lower (lower s) = lower s.
Proof. unfold lower. rewrite map_map. apply map_ext, lower_char_idem. Qed.

Lemma lower_no_upper s : forallb (fun c => negb (isupper c)) (lower s) = true.
Proof.
  induction s as [|c s IH]; [reflexivity|]. simpl.
  rewrite lower_char_not_upper, IH. reflexivity.
Qed.

End SQLNamesFacts.

Import SQLNamesFacts.

Lemma map_ident_chars (s : str) :
  Forall (fun c => ident_char c = true)
         (map (fun c => if isalnum c then c else "_"%char) s).
Proof.
  induction s as [|c s IH]; simpl; constructor; [|exact IH].
  unfold ident_char. destruct (isalnum c) eqn:E; [rewrite E|]; reflexivity.
Qed.

Lemma Forall_forallb (f : ascii -> bool) (s : str) :
  Forall (fun c => f c = true) s -> forallb f s = true.
Proof. induction 1 as [|c s Hc _ IH]; simpl; [|rewrite Hc, IH]; reflexivity. Qed.

Lemma squeezed_tidy filename : tidy (squeezed filename).
Proof.
  unfold squeezed.
  apply tidy_join, segments_of_split, lstrip_by_Forall, map_ident_chars.
Qed.

Lemma sanitize_unfold filename :
  _sanitize_table_name filename =
  let name := squeezed filename in
  let name := match name with
              | c :: _ => if isdigit c then py "table_" ++ name else name
              | [] => name
              end in
  if nonempty name then lower name else py "unnamed_table".
Proof. reflexivity. Qed.

(** *** Table names over code points *)

Module UnicodeFacts.

Import Unicode(ustr, code_point, u, CharDB, db_isalnum, db_isdigit, db_lower,
               unicode_excerpt, lower_code_point).

Lemma code_point_inj a b : code_point a = code_point b -> a = b.
Proof.
  unfold code_point. intros H. apply (f_equal ascii_of_N) in H.
  now rewrite !ascii_N_embedding in H.
Qed.

Lemma code_point_eqb a b : (code_point a =? code_point b)%N = eqc a b.
Proof.
  unfold eqc. destruct (Ascii.eqb_spec a b) as [->|n].
  - apply N.eqb_refl.
  - apply N.eqb_neq. intros H. apply n, code_point_inj, H.
Qed.

Lemma u_app a b : u (a ++ b) = u a ++ u b.
Proof. apply map_app. Qed.

Lemma startswith_u p s : Unicode.startswith (u p) (u s) = startswith p s.
Proof.
  revert s. induction p as [|a p IH]; intros [|b s]; try reflexivity.
  cbn [u map Unicode.startswith startswith]. rewrite code_point_eqb.
  f_equal. apply IH.
Qed.

Lemma replace_aux_u old new k s :
  Unicode.replace_aux (u old) (u new) k (u s) = u (replace_aux old new k s).
Proof.
  revert k. induction s as [|c s IH]; intros k; [reflexivity|].
  destruct k as [|k].
  - change (u (c :: s)) with (code_point c :: u s).
    cbn [Unicode.replace_aux replace_aux].
    change (code_point c :: u s) with (u (c :: s)). rewrite startswith_u.
    destruct (startswith old (c :: s)).
    + rewrite u_app, IH.
      replace (length (u old)) with (length old)
        by (symmetry; apply length_map).
      reflexivity.
    + cbn [u map]. f_equal. apply IH.
  - cbn [u map Unicode.replace_aux replace_aux]. apply IH.
Qed.

Lemma replace_u old s :
  Unicode.replace (u old) [] (u s) = u (replace old [] s).
Proof. apply (replace_aux_u old [] 0 s). Qed.

Lemma mem_char_u c chars :
  Unicode.mem_char (code_point c) (u chars) = mem_char c chars.
Proof.
  unfold Unicode.mem_char, mem_char.
  induction chars as [|d chars IH]; [reflexivity|].
  cbn [u map existsb]. rewrite code_point_eqb. f_equal. exact IH.
Qed.

Lemma lstrip_chars_u chars s :
  Unicode.lstrip_chars (u chars) (u s) = u (lstrip_chars chars s).
Proof.
  unfold lstrip_chars. induction s as [|c s IH]; [reflexivity|].
  cbn [u map Unicode.lstrip_chars lstrip_by]. rewrite mem_char_u.
  destruct (mem_char c chars); [exact IH | reflexivity].
Qed.

Lemma split_char_u sep s :
  Unicode.split_char (code_point sep) (u s) = map u (split_char sep s).
Proof.
  induction s as [|c s IH]; [reflexivity|].
  cbn [u map Unicode.split_char split_char]. rewrite code_point_eqb.
  fold (u s). rewrite IH.
  destruct (eqc c sep); [reflexivity|].
  destruct (split_char sep s); reflexivity.
Qed.

Lemma filter_nonempty_u l :
  List.filter Unicode.nonempty (map u l) = map u (filter_nonempty l).
Proof.
  unfold filter_nonempty.
  induction l as [|[|c p] l IH]; [reflexivity| |];
    cbn [map List.filter u Unicode.nonempty nonempty]; [|f_equal]; exact IH.
Qed.

Lemma join_u sep l : Unicode.join (u sep) (map u l) = u (join sep l).
Proof.
  induction l as [|p [|q l] IH]; [reflexivity|reflexivity|].
  change (u (join sep (p :: q :: l))) with (u (p ++ sep ++ join sep (q :: l))).
  rewrite !u_app, <- IH. reflexivity.
Qed.

Lemma replace_aux_ascii old k s :
  forallb is_ascii s = true -> forallb is_ascii (replace_aux old [] k s) = true.
Proof.
  revert k. induction s as [|c s IH]; intros k H; [reflexivity|].
  cbn [forallb] in H. apply andb_true_iff in H as [Hc Hs].
  destruct k as [|k]; cbn [replace_aux]; [|auto].
  destruct (startswith old (c :: s)); cbn [app forallb]; [auto|].
  rewrite Hc. cbn [andb]. auto.
Qed.

Lemma ident_ascii c : ident_char c = true -> is_ascii c = true.
Proof.
  destruct c as [[] [] [] [] [] [] [] []]; vm_compute; congruence.
Qed.

Lemma ident_all_ascii s :
  Forall (fun c => ident_char c = true) s -> forallb is_ascii s = true.
Proof.
  induction 1 as [|c s Hc _ IH]; [reflexivity|].
  cbn [forallb]. now rewrite (ident_ascii c Hc), IH.
Qed.

Lemma map_alnum_u (db : CharDB) s :
  Unicode.ascii_compatible db ->
  forallb is_ascii s = true ->
  map (fun c => if db_isalnum db c then c else code_point "_") (u s)
  = u (map (fun c => if isalnum c then c else "_"%char) s).
Proof.
  intros (Ha & _ & _).
  induction s as [|c s IH]; intros H; [reflexivity|].
  cbn [forallb] in H. apply andb_true_iff in H as [Hc Hs].
  cbn [u map]. rewrite (Ha c Hc). fold (u s). rewrite (IH Hs).
  destruct (isalnum c); reflexivity.
Qed.

(** On a file name of ASCII characters the name over code points is the
    name of the ASCII model. *)
Lemma sanitize_u (db : CharDB) filename :
  Unicode.ascii_compatible db ->
  forallb is_ascii filename = true ->
  Unicode._sanitize_table_name db (u filename) = u (_sanitize_table_name filename).
Proof.
  intros compatible Hf. pose proof compatible as (_ & Hd & Hl).
  assert (E : Unicode.join (u (py "_"))
                (List.filter Unicode.nonempty
                   (Unicode.split_char (code_point "_")
                      (Unicode.lstrip_chars (u (py "0123456789_"))
                         (map (fun c => if db_isalnum db c then c else code_point "_")
                            (Unicode.replace (u (py ".CSV")) []
                               (Unicode.replace (u (py ".csv")) [] (u filename)))))))
              = u (squeezed filename)).
  { rewrite !replace_u, (map_alnum_u db _ compatible)
      by (unfold replace; auto using replace_aux_ascii).
    rewrite lstrip_chars_u, split_char_u, filter_nonempty_u, join_u.
    reflexivity. }
  rewrite sanitize_unfold. unfold Unicode._sanitize_table_name. cbv zeta.
  rewrite E. clear E.
  destruct (squeezed_tidy filename) as (T1 & _ & _).
  destruct (squeezed filename) as [|c s]; [reflexivity|].
  inversion T1 as [|? ? Hc Hs]; subst.
  cbn [u map]. rewrite (Hd c (ident_ascii c Hc)). fold (u s).
  destruct (isdigit c).
  - change (Unicode.nonempty (u (py "table_") ++ code_point c :: u s)) with true.
    change (nonempty (py "table_" ++ c :: s)) with true. cbv iota.
    change (u (py "table_") ++ code_point c :: u s) with (u (py "table_" ++ c :: s)).
    apply Hl, ident_all_ascii.
    repeat (constructor; [reflexivity|]). exact T1.
  - change (Unicode.nonempty (code_point c :: u s)) with true.
    change (nonempty (c :: s)) with true. cbv iota.
    change (code_point c :: u s) with (u (c :: s)).
    apply Hl, ident_all_ascii, T1.
Qed.

Lemma lower_code_point_ascii c :
  is_ascii c = true -> lower_code_point (code_point c) = [code_point (lower_char c)].
Proof.
  destruct c as [[] [] [] [] [] [] [] []]; vm_compute; congruence.
Qed.

Lemma lower_excerpt_ascii s :
  forallb is_ascii s = true -> flat_map lower_code_point (u s) = u (lower s).
Proof.
  induction s as [|c s IH]; intros H; [reflexivity|].
  cbn [forallb] in H. apply andb_true_iff in H as [Hc Hs].
  cbn [u map flat_map lower]. fold (u s). fold (lower s).
  rewrite (IH Hs), (lower_code_point_ascii c Hc). reflexivity.
Qed.

Lemma unicode_excerpt_compatible : Unicode.ascii_compatible unicode_excerpt.
Proof.
  split; [|split].
  - intros c. destruct c as [[] [] [] [] [] [] [] []]; vm_compute; congruence.
  - intros c. destruct c as [[] [] [] [] [] [] [] []]; vm_compute; congruence.
  - exact lower_excerpt_ascii.
Qed.

Lemma unicode_excerpt_dotted : Unicode.dotted_capital_i unicode_excerpt.
Proof. repeat split. Qed.

End UnicodeFacts.
Import UnicodeFacts.

(** C7, amended. The table name derived from a file name of ASCII characters
    is not empty, is in lower case, is made of letters, digits and
    underscores only, has no two underscores in a row and does not start
    with a digit.  It is the name that the code derives over code points,
    whichever character database has Unicode's entries on the ASCII range. *)
Theorem sanitize_table_name_wellformed (filename : str) :
  forallb is_ascii filename = true ->
  let t := _sanitize_table_name filename in
  (t <> [] /\
   is_lowercase t = true /\
   forallb ident_char t = true /\
   no_underscore_run t = true /\
   starts_with_digit t = false /\
   has_space t = false) /\
  (forall db : Unicode.CharDB,
     Unicode.ascii_compatible db ->
     Unicode._sanitize_table_name db (Unicode.u filename) = Unicode.u t).
Proof.
  intros Hascii. cbv zeta.
  split; [|intros db Hdb; apply sanitize_u; assumption].
  clear Hascii. rewrite sanitize_unfold. cbv zeta.
  destruct (squeezed_tidy filename) as (T1 & T2 & T3).
  assert (Hsp : forall s : str, forallb ident_char s = true -> has_space s = false).
  { induction s as [|c s IH]; [reflexivity|]. simpl. intros H.
    apply andb_true_iff in H as [A B]. rewrite (ident_not_space _ A). auto. }
  destruct (squeezed filename) as [|c s] eqn:E.
  - vm_compute. repeat split; congruence.
  - inversion T1 as [|? ? Hc Hs]; subst. simpl in T3.
    pose proof (ident_split _ Hc T3) as Hal.
    destruct (isdigit c) eqn:D.
    + (* the name would start with a digit: it is prefixed *)
      assert (Ht : tidy (py "table_" ++ c :: s)).
      { repeat split.
        - repeat (constructor; [reflexivity|]). exact T1.
        - change (py "table_" ++ c :: s)
            with ("t" :: "a" :: "b" :: "l" :: "e" :: "_" :: c :: s)%char.
          rewrite !no_underscore_run_cons, T3, T2. reflexivity. }
      apply tidy_lower in Ht. destruct Ht as (L1 & L2 & L3).
      pose proof (Forall_forallb _ _ L1) as L1'.
      change (nonempty (py "table_" ++ c :: s)) with true. cbv iota.
      repeat split; try assumption; try discriminate; auto.
      unfold is_lowercase. rewrite lower_no_upper, andb_true_r. reflexivity.
    + pose proof (tidy_lower _ (conj T1 (conj T2 T3))) as (L1 & L2 & L3).
      pose proof (Forall_forallb _ _ L1) as L1'.
      assert (N : nonempty (c :: s) = true) by reflexivity. rewrite N.
      repeat split; try assumption; try discriminate; auto.
      * unfold is_lowercase. rewrite lower_no_upper, andb_true_r. simpl.
        rewrite (lower_char_cased c (alnum_alpha_or_digit _ Hal D)). reflexivity.
      * simpl. rewrite lower_char_digit. exact D.
Qed.

(** The file name of the specification's example. *)
Lemma sanitize_table_name_wellformed_witness :
  let t := _sanitize_table_name (py "2024 Provider List.csv") in
  (t = py "provider_list" /\
   t <> [] /\ is_lowercase t = true /\ forallb ident_char t = true /\
   no_underscore_run t = true /\ starts_with_digit t = false /\
   has_space t = false) /\
  Unicode._sanitize_table_name Unicode.unicode_excerpt
    (Unicode.u (py "2024 Provider List.csv")) = Unicode.u (py "provider_list").
Proof.
  cbv zeta.
  destruct (sanitize_table_name_wellformed (py "2024 Provider List.csv"))
    as [A B]; [vm_compute; reflexivity|].
  split; [split; [vm_compute; reflexivity | exact A]|].
  exact (B Unicode.unicode_excerpt unicode_excerpt_compatible).
Defined.

(** The statement of C7 fails for a file name outside ASCII.  U+0130, the
    capital I with a dot above, is a letter and is kept; its lower case is
    [i] followed by U+0307, the combining dot above, which is neither
    alphanumeric nor an underscore.  So the table name of the file U+0130
    [.csv] has a character that the statement excludes: with every character
    database that has these entries, and the excerpt is one. *)
Lemma sanitize_table_name_outside_ascii :
  (forall db : Unicode.CharDB,
     Unicode.dotted_capital_i db ->
     let t := Unicode._sanitize_table_name db (0x130%N :: Unicode.u (py ".csv")) in
     t = [0x69%N; 0x307%N] /\
     forallb (Unicode.ident_char db) t = false) /\
  Unicode.dotted_capital_i Unicode.unicode_excerpt /\
  Unicode.ascii_compatible Unicode.unicode_excerpt /\
  ~ (forall (db : Unicode.CharDB) (filename : Unicode.ustr),
       Unicode.ascii_compatible db ->
       forallb (Unicode.ident_char db)
         (Unicode._sanitize_table_name db filename) = true).
Proof.
  split; [|split; [|split]].
  - intros [isalnum isdigit lower] (A & D & L & M). cbv zeta.
    cbn [Unicode.db_isalnum Unicode.db_isdigit Unicode.db_lower] in A, D, L, M.
    assert (E : Unicode._sanitize_table_name
                  (Unicode.Build_CharDB isalnum isdigit lower)
                  (0x130%N :: Unicode.u (py ".csv")) = [0x69%N; 0x307%N]).
    { unfold Unicode._sanitize_table_name. cbv zeta.
      cbn [Unicode.db_isalnum Unicode.db_isdigit Unicode.db_lower].
      change (Unicode.replace (Unicode.u (py ".CSV")) []
                (Unicode.replace (Unicode.u (py ".csv")) []
                   (0x130%N :: Unicode.u (py ".csv")))) with [0x130%N].
      cbn [map]. rewrite A.
      change (Unicode.join (Unicode.u (py "_"))
                (List.filter Unicode.nonempty
                   (Unicode.split_char (Unicode.code_point "_")
                      (Unicode.lstrip_chars (Unicode.u (py "0123456789_"))
                         [0x130%N])))) with [0x130%N].
      cbv iota. rewrite D. cbn [Unicode.nonempty]. exact L. }
    rewrite E. split; [reflexivity|].
    unfold Unicode.ident_char. cbn [forallb Unicode.db_isalnum]. rewrite M.
    apply andb_false_iff. right. reflexivity.
  - exact unicode_excerpt_dotted.
  - exact unicode_excerpt_compatible.
  - intros H.
    specialize (H Unicode.unicode_excerpt (0x130%N :: Unicode.u (py ".csv"))
                  unicode_excerpt_compatible).
    vm_compute in H. discriminate H.
Qed.

Example execute_query_terminated :
  qr_row_count (execute_query mini_sqldf (engine_with (py "t") (numbered_table 101))
                  (py "SELECT * FROM t;") 100) = 101%nat.
Proof. vm_compute. reflexivity. Qed.

Example execute_query_plain :
  qr_row_count (execute_query mini_sqldf (engine_with (py "t") (numbered_table 101))
                  (py "select * from t") 100) = 100%nat.
Proof. vm_compute. reflexivity. Qed.

(** *** The row limit of [execute_query] *)

Module SQLEngineFacts.

Lemma tokens_of_limited q n :
  (0 <= n)%Z ->
  split_ws (q ++ py " LIMIT " ++ str_of_Z n) =
  split_ws q ++ [py "LIMIT"; str_of_Z n].
Proof.
  intros Hn. destruct (str_of_Z_digits n Hn) as [Hne Hd].
  change (py " LIMIT " ++ str_of_Z n)
    with (" "%char :: (py "LIMIT" ++ " "%char :: str_of_Z n)).
  unfold split_ws.
  rewrite (split_ws_aux_space [] q " "%char) by reflexivity.
  rewrite (split_ws_aux_space [] (py "LIMIT") " "%char) by reflexivity.
  f_equal.
  change (split_ws_aux [] (py "LIMIT")) with [py "LIMIT"].
  change (split_ws_aux [] (str_of_Z n)) with (split_ws (str_of_Z n)).
  rewrite split_ws_word; [reflexivity | exact Hne |].
  clear Hne. induction Hd; constructor; auto using digit_not_space.
Qed.

Lemma numeral_not_terminated n :
  (0 <= n)%Z -> endswith (py ";") (str_of_Z n) = false.
Proof.
  intros Hn. destruct (str_of_Z_digits n Hn) as [_ Hd].
  destruct (endswith (py ";") (str_of_Z n)) eqn:E; [|reflexivity].
  apply (endswith_char ";"%char) in E as [s' E]. rewrite E in Hd.
  apply List.Forall_app in Hd as [_ Hd]. inversion Hd; subst. discriminate.
Qed.

Lemma drop_terminator_limited ts n :
  (0 <= n)%Z ->
  drop_terminator (ts ++ [py "LIMIT"; str_of_Z n]) = ts ++ [py "LIMIT"; str_of_Z n].
Proof.
  intros Hn. unfold drop_terminator.
  rewrite rev_app_distr.
  change (rev [py "LIMIT"; str_of_Z n] ++ rev ts)
    with (str_of_Z n :: py "LIMIT" :: rev ts).
  cbv iota. rewrite (numeral_not_terminated n Hn). reflexivity.
Qed.

Lemma select_all_limit tables t n df :
  (0 <= n)%Z -> select_all tables t (Some n) = Ok df ->
  (Z.of_nat (length (df_rows df)) <= n)%Z.
Proof.
  intros Hn. unfold select_all. destruct (tables !! t) as [d|]; [|discriminate].
  destruct (Z.ltb_spec n 0); [lia|]. intros [= <-]. simpl.
  rewrite length_firstn. lia.
Qed.

(** The backend for plain selections keeps to the clause. *)
Lemma mini_sqldf_limit q n tables df :
  (0 <= n)%Z ->
  mini_sqldf (q ++ py " LIMIT " ++ str_of_Z n) tables = Ok df ->
  (Z.of_nat (length (df_rows df)) <= n)%Z.
Proof.
  intros Hn. unfold mini_sqldf.
  rewrite (tokens_of_limited q n Hn), (drop_terminator_limited _ n Hn).
  destruct (split_ws q) as [|a [|b [|c [|d [|e l]]]]]; cbn [app];
    try discriminate.
  - change (keyword (py "FROM") (py "LIMIT")) with false.
    rewrite andb_false_r. discriminate.
  - destruct (_ && _); [|discriminate].
    rewrite Z_of_str_of_Z. apply select_all_limit, Hn.
  - destruct l as [|f [|g l]]; cbn [app]; discriminate.
Qed.


Section AnyBackend.

Variable sqldf : backend.

Lemma execute_query_sends e query limit :
  qr_query (execute_query sqldf e query limit) =
  if appends_limit query
  then rstrip_chars (py ";") query ++ py " LIMIT " ++ str_of_Z limit
  else query.
Proof.
  unfold execute_query. destruct (appends_limit query);
    destruct (sqldf _ _); reflexivity.
Qed.

Lemma terminated_upper query :
  endswith (py ";") query = true -> endswith (py ";") (query_upper query) = true.
Proof.
  intros H. apply (endswith_char ";"%char) in H as [s ->].
  apply (endswith_char ";"%char). unfold query_upper.
  rewrite upper_app. change (upper [";"%char]) with [";"%char].
  rewrite strip_keep by reflexivity. eauto.
Qed.

Lemma limit_word_upper a w b :
  upper w = py "LIMIT" ->
  contains (py "LIMIT") (query_upper (a ++ w ++ b)) = true.
Proof.
  intros Hw. unfold query_upper. rewrite !upper_app, Hw.
  change (py "LIMIT" ++ upper b)
    with ("L"%char :: (py "IMI" ++ "T"%char :: upper b)).
  rewrite strip_keep by reflexivity.
  rewrite rstrip_by_keep by reflexivity.
  change ("L"%char :: py "IMI" ++ "T"%char :: rstrip_by isspace (upper b))
    with (py "LIMIT" ++ rstrip_by isspace (upper b)).
  apply contains_app.
Qed.

Lemma unterminated_rstrip query :
  endswith (py ";") (query_upper query) = false ->
  rstrip_chars (py ";") query = query.
Proof.
  intros H. apply rstrip_by_last. intros s' c -> .
  destruct (mem_char c (py ";")) eqn:E; [|reflexivity].
  simpl in E. rewrite orb_false_r in E. apply eqc_eq in E. subst c.
  rewrite terminated_upper in H; [discriminate|].
  apply (endswith_char ";"%char). eauto.
Qed.

End AnyBackend.

End SQLEngineFacts.
Import SQLEngineFacts.

(** C10, amended. [execute_query] adds its clause exactly when the
    upper-cased text of the query, with the whitespace at both ends removed
    ([query_upper]), neither contains [LIMIT] nor ends with a semicolon.  So
    a query that ends with a semicolon, or that has the letters of "limit"
    somewhere in any letter case, is sent as it is, and its result can have
    more rows than the limit. *)
Theorem execute_query_limit_guard :
  (forall (sqldf : backend) e query limit,
     let sent := qr_query (execute_query sqldf e query limit) in
     (sent = query ++ py " LIMIT " ++ str_of_Z limit <->
      contains (py "LIMIT") (query_upper query) = false /\
      endswith (py ";") (query_upper query) = false) /\
     (sent = query ++ py " LIMIT " ++ str_of_Z limit \/ sent = query)) /\
  (forall (sqldf : backend) e query limit,
     endswith (py ";") query = true ->
     qr_query (execute_query sqldf e query limit) = query) /\
  (forall (sqldf : backend) e a w b limit,
     lower w = py "limit" ->
     qr_query (execute_query sqldf e (a ++ w ++ b) limit) = a ++ w ++ b) /\
  (let e := engine_with (py "t") (numbered_table 101) in
   let r := execute_query mini_sqldf e (py "SELECT * FROM t;") 100 in
   qr_success r = true /\ qr_row_count r = 101%nat) /\
  (let e := engine_with (py "limits") (numbered_table 101) in
   let r := execute_query mini_sqldf e (py "select * from limits") 100 in
   qr_success r = true /\ qr_row_count r = 101%nat).
Proof.
  split; [|split; [|split; [|split]]].
  - intros sqldf e query limit sent. subst sent.
    rewrite execute_query_sends. unfold appends_limit.
    destruct (contains (py "LIMIT") (query_upper query)) eqn:C;
      destruct (endswith (py ";") (query_upper query)) eqn:E; cbn [negb andb];
      try (split; [|right; reflexivity]; split;
           [ intros H; apply (f_equal (@length ascii)) in H;
             rewrite length_app in H; cbn [length app py list_ascii_of_string] in H; lia
           | intros [? ?]; discriminate ]).
    rewrite (unterminated_rstrip query E). split; [|left; reflexivity].
    split; auto.
  - intros sqldf e query limit H. rewrite execute_query_sends.
    unfold appends_limit. rewrite (terminated_upper query H), andb_false_r.
    reflexivity.
  - intros sqldf e a w b limit H. rewrite execute_query_sends.
    unfold appends_limit. rewrite limit_word_upper; [reflexivity|].
    rewrite <- upper_lower, H. reflexivity.
  - vm_compute. split; reflexivity.
  - vm_compute. split; reflexivity.
Qed.

(** The statement of C10 fails on the whitespace at the end of a query: the
    test is made on the text with the whitespace at both ends removed, so a
    semicolon followed by a space still keeps the clause away. *)
Lemma limit_guard_ignores_outer_whitespace :
  ~ (forall (sqldf : backend) e query limit,
       qr_query (execute_query sqldf e query limit)
         = query ++ py " LIMIT " ++ str_of_Z limit <->
       contains (py "LIMIT") (upper query) = false /\
       endswith (py ";") (upper query) = false).
Proof.
  intros H.
  destruct (H mini_sqldf (engine_with (py "t") (numbered_table 3))
              (py "SELECT * FROM t; ") 100%Z) as [_ H2].
  assert (E : qr_query (execute_query mini_sqldf
                          (engine_with (py "t") (numbered_table 3))
                          (py "SELECT * FROM t; ") 100)
              = py "SELECT * FROM t; " ++ py " LIMIT " ++ str_of_Z 100)
    by (apply H2; vm_compute; split; reflexivity).
  vm_compute in E. discriminate E.
Qed.

Lemma execute_query_limit_guard_witness :
  qr_query (execute_query mini_sqldf (engine_with (py "t") (numbered_table 3))
              (py "SELECT * FROM t;") 100) = py "SELECT * FROM t;".
Proof.
  apply (proj1 (proj2 execute_query_limit_guard)). vm_compute. reflexivity.
Defined.




(** *** Tables that are already loaded *)

Module CsvLoadingFacts.

Section Loaders.

Variable path_exists : str -> bool.
Variable listdir : str -> list str.
Variable read_csv : str -> str -> option DataFrame.

Lemma load_one_holds name df sch dir e n filename :
  holds name df sch e ->
  holds name df sch (fst (load_one read_csv dir (e, n) filename)).
Proof.
  intros [Hd Hs]. unfold load_one.
  destruct (endswith (py ".csv") (lower filename)); [|split; assumption].
  destruct (dataframes e !! _sanitize_table_name filename) eqn:L;
    [split; assumption|].
  destruct (_read_csv_with_encoding read_csv _); [|split; assumption].
  assert (Hne : _sanitize_table_name filename <> name) by congruence.
  split; simpl; rewrite lookup_insert_ne by exact Hne; assumption.
Qed.

Lemma load_files_holds name df sch dir files e n :
  holds name df sch e ->
  holds name df sch (fst (fold_left (load_one read_csv dir) files (e, n))).
Proof.
  revert e n. induction files as [|f files IH]; intros e n H; [exact H|].
  cbn [fold_left]. pose proof (load_one_holds name df sch dir e n f H) as H1.
  destruct (load_one read_csv dir (e, n) f) as [e1 n1]. apply IH, H1.
Qed.

Lemma load_directory_holds name df sch e n dir :
  holds name df sch e ->
  holds name df sch (fst (load_directory path_exists listdir read_csv (e, n) dir)).
Proof.
  intros H. unfold load_directory. destruct (path_exists dir); [|exact H].
  pose proof (load_files_holds name df sch dir (listdir dir) e 0 H) as H1.
  destruct (fold_left _ _ _) as [e1 n1]. exact H1.
Qed.

Lemma load_directories_holds name df sch dirs e n :
  holds name df sch e ->
  holds name df sch
    (fst (fold_left (load_directory path_exists listdir read_csv) dirs (e, n))).
Proof.
  revert e n. induction dirs as [|d dirs IH]; intros e n H; [exact H|].
  cbn [fold_left]. pose proof (load_directory_holds name df sch e n d H) as H1.
  destruct (load_directory _ _ _ (e, n) d) as [e1 n1]. apply IH, H1.
Qed.

End Loaders.

End CsvLoadingFacts.
Import CsvLoadingFacts.

(** The statement of C6 fails for [add_csv_file]: a file whose derived name
    is the name of a loaded table replaces that table. *)
Lemma add_csv_file_overwrites :
  ~ (forall (read_csv : str -> str -> option DataFrame) (e : Engine)
            (file_path : str),
       is_Some (dataframes e !! _sanitize_table_name (basename file_path)) ->
       fst (add_csv_file read_csv e file_path None) = e).
Proof.
  intros H.
  specialize (H (fun _ _ => Some (numbered_table 2))
                (engine_with (py "providers") (numbered_table 1))
                (py "./uploaded_docs/Providers.csv")).
  assert (L : is_Some (dataframes (engine_with (py "providers") (numbered_table 1))
                         !! _sanitize_table_name
                              (basename (py "./uploaded_docs/Providers.csv"))))
    by (vm_compute; eauto).
  specialize (H L).
  apply (f_equal (fun e => df_rows <$> (dataframes e !! py "providers"))) in H.
  vm_compute in H. discriminate.
Qed.

(** C6, amended. [load_all_csv_files], and the knowledge-base loader when no
    reload is forced, leave every table that is already loaded as it is, rows
    and schema.  [add_csv_file] itself makes no such test: a file that can be
    read is stored under its table name, replacing the table of that name,
    and a file that cannot be read leaves the engine as it is. *)
Theorem loaded_tables_policy
    (path_exists : str -> bool) (listdir : str -> list str)
    (read_csv : str -> str -> option DataFrame) (e : Engine) :
  (forall name df,
     dataframes e !! name = Some df ->
     let e' := fst (load_all_csv_files path_exists listdir read_csv e) in
     dataframes e' !! name = Some df /\
     table_schemas e' !! name = table_schemas e !! name) /\
  (forall csv_file,
     is_Some (dataframes e !! _sanitize_table_name (stem (basename csv_file))) ->
     kb_load_csv read_csv false e csv_file = e) /\
  (forall file_path name,
     name <> [] ->
     let e' := fst (add_csv_file read_csv e file_path (Some name)) in
     match _read_csv_with_encoding read_csv file_path with
     | Some df =>
         dataframes e' !! name = Some df /\
         table_schemas e' !! name = Some (_get_schema df) /\
         (forall other, other <> name ->
            dataframes e' !! other = dataframes e !! other /\
            table_schemas e' !! other = table_schemas e !! other) /\
         snd (add_csv_file read_csv e file_path (Some name)) = true
     | None =>
         e' = e /\ snd (add_csv_file read_csv e file_path (Some name)) = false
     end) /\
  (forall file_path,
     add_csv_file read_csv e file_path None =
     add_csv_file read_csv e file_path
       (Some (_sanitize_table_name (basename file_path)))).
Proof.
  split; [|split; [|split]].
  - intros name df H e'. subst e'. unfold load_all_csv_files.
    apply (load_directories_holds path_exists listdir read_csv name df
             (table_schemas e !! name) (csv_directories e) e 0).
    split; [exact H | reflexivity].
  - intros csv_file H. unfold kb_load_csv.
    rewrite bool_decide_eq_true_2 by exact H. reflexivity.
  - intros file_path name Hne e'. subst e'. unfold add_csv_file.
    destruct name as [|c name]; [congruence|].
    destruct (_read_csv_with_encoding read_csv file_path) as [df|]; simpl.
    + rewrite !lookup_insert_eq. repeat split; try reflexivity;
        rewrite lookup_insert_ne by congruence; reflexivity.
    + split; reflexivity.
  - intros file_path. unfold add_csv_file.
    destruct (_sanitize_table_name (basename file_path)) eqn:E; reflexivity.
Qed.

(** A directory that holds [Providers.csv] while [providers] is loaded. *)
Lemma loaded_tables_policy_witness :
  let e := engine_with (py "providers") (numbered_table 1) in
  let e' := fst (load_all_csv_files (fun _ => true) (fun _ => [py "Providers.csv"])
                   (fun _ _ => Some (numbered_table 2)) e) in
  dataframes e' !! py "providers" = Some (numbered_table 1) /\
  table_schemas e' !! py "providers" = table_schemas e !! py "providers".
Proof.
  apply (proj1 (loaded_tables_policy (fun _ => true) (fun _ => [py "Providers.csv"])
                  (fun _ _ => Some (numbered_table 2))
                  (engine_with (py "providers") (numbered_table 1)))
               (py "providers") (numbered_table 1)).
  vm_compute. reflexivity.
Defined.

(** *** The thresholds of the classifier *)

Example classify_how_many :
  _keyword_based_classification (py "How many providers are in NSW?")
  = Some STRUCTURED_SQL.
Proof. vm_compute. reflexivity. Qed.

Example classify_add_lead :
  _keyword_based_classification (py "How do I add a lead in the CRM?") = None
  /\ rag_matches (py "How do I add a lead in the CRM?") = 1%nat.
Proof. vm_compute. split; reflexivity. Qed.

(** C3. The keyword tier answers structured exactly when at least two
    structured key words and no semantic one match, semantic exactly when at
    least two semantic and no structured one match, hybrid exactly when at
    least one of each matches, and otherwise leaves the query to the language
    model; [requires_sql] and [requires_rag] are functions of the resulting
    [query_type]. *)
Theorem keyword_classification_thresholds :
  (forall query,
     let s := sql_matches query in
     let r := rag_matches query in
     (_keyword_based_classification query = Some STRUCTURED_SQL
      <-> (2 <= s /\ r = 0)%nat) /\
     (_keyword_based_classification query = Some SEMANTIC_RAG
      <-> (2 <= r /\ s = 0)%nat) /\
     (_keyword_based_classification query = Some HYBRID
      <-> (1 <= s /\ 1 <= r)%nat) /\
     (_keyword_based_classification query = None
      <-> ~ (2 <= s /\ r = 0)%nat /\ ~ (2 <= r /\ s = 0)%nat /\
          ~ (1 <= s /\ 1 <= r)%nat)) /\
  (forall (llm : model) query tables,
     let c := classify_query llm query tables in
     (forall t, _keyword_based_classification query = Some t ->
        query_type c = value t /\ classification_method c = py "keyword") /\
     (_keyword_based_classification query = None ->
        query_type c = value (_llm_based_classification llm query (available_tables c))
        /\ classification_method c = py "llm") /\
     requires_sql c = needs_sql (query_type c) /\
     requires_rag c = needs_rag (query_type c)) /\
  (forall (llm : model) tables,
     query_type (classify_query llm
       (py "List all providers and explain the application process") tables)
     = py "hybrid").
Proof.
  split; [|split].
  - intros query s r. subst s r. unfold _keyword_based_classification.
    destruct (Nat.leb_spec 2 (sql_matches query));
      destruct (Nat.eqb_spec (rag_matches query) 0);
      destruct (Nat.leb_spec 2 (rag_matches query));
      destruct (Nat.eqb_spec (sql_matches query) 0);
      destruct (Nat.leb_spec 1 (sql_matches query));
      destruct (Nat.leb_spec 1 (rag_matches query));
      cbn [andb]; try lia;
      repeat split; intros; try discriminate; try lia; try reflexivity.
  - intros llm query tables c. subst c. unfold classify_query.
    destruct (_keyword_based_classification query) as [t|].
    + split; [|split; [|split]].
      * intros u [= <-]. split; reflexivity.
      * discriminate.
      * destruct t; reflexivity.
      * destruct t; reflexivity.
    + split; [|split; [|split]].
      * discriminate.
      * intros _. split; reflexivity.
      * cbn [requires_sql query_type].
        destruct (_llm_based_classification llm query _); reflexivity.
      * cbn [requires_rag query_type].
        destruct (_llm_based_classification llm query _); reflexivity.
  - intros llm tables. reflexivity.
Qed.

Lemma keyword_classification_thresholds_witness :
  let c := classify_query unreachable (py "How many providers are in NSW?") None in
  query_type c = py "structured_sql" /\ classification_method c = py "keyword".
Proof.
  apply (proj1 (proj1 (proj2 keyword_classification_thresholds) unreachable
                  (py "How many providers are in NSW?") None) STRUCTURED_SQL).
  vm_compute. reflexivity.
Defined.

(** *** The enhancer and a failing model *)

Example expand_crm :
  expand_acronyms (py "What is CRM?")
  = py "What is CRM (Customer Relationship Management)".
Proof. vm_compute. reflexivity. Qed.

Example keywords_example :
  extract_keywords (py "How do I add a lead in the CRM system?") 5
  = [py "system"; py "lead"; py "how"; py "add"; py "crm"].
Proof. vm_compute. reflexivity. Qed.

(** C8. [enhance_query] returns for every model, query and context: no call
    of the model can make it raise.  The variations it returns start with
    the original query.  When every call of the model fails, the variations
    are the original query alone and the context-aware query is the original
    query, next to the acronym expansion and the key words, which do not
    depend on the model. *)
Theorem enhance_query_never_raises :
  (forall (llm : model) (query : str) (context : option str),
     exists r,
       enhance_query llm query context = Ok r /\
       variations r <> [] /\
       hd_error (variations r) = Some query /\
       original r = query /\
       total_queries r = length (variations r)) /\
  (forall (llm : model) (query : str) (context : option str),
     (forall prompt, raises (llm prompt) = true) ->
     enhance_query llm query context =
     Ok {| original := query;
           expanded := expand_acronyms query;
           keywords := extract_keywords query 5;
           variations := [query];
           context_aware := query;
           total_queries := 1 |}).
Proof.
  split.
  - intros llm query context. unfold enhance_query.
    assert (V : exists vs, generate_query_variations llm query 3 = Ok (query :: vs)).
    { unfold generate_query_variations.
      destruct (llm (VariationsPrompt query 3)); cbn [bind catch]; eauto. }
    destruct V as [vs ->]. cbn [bind].
    destruct context as [[|c context]|]; cbn [bind];
      try (eexists; repeat split; discriminate).
    assert (C : exists q, _generate_context_aware_query llm query (c :: context) = Ok q).
    { unfold _generate_context_aware_query.
      destruct (llm (ContextPrompt _ query)); cbn [bind catch]; eauto. }
    destruct C as [q ->]. cbn [bind].
    eexists. split; [reflexivity|]. cbn [variations original total_queries snd].
    destruct (mem_str q (query :: vs)); repeat split; discriminate.
  - intros llm query context H. unfold enhance_query.
    assert (V : generate_query_variations llm query 3 = Ok [query]).
    { unfold generate_query_variations.
      pose proof (H (VariationsPrompt query 3)) as Hr.
      destruct (llm (VariationsPrompt query 3)); [discriminate | reflexivity]. }
    rewrite V. cbn [bind].
    destruct context as [[|c context]|]; cbn [bind]; try reflexivity.
    assert (C : _generate_context_aware_query llm query (c :: context) = Ok query).
    { unfold _generate_context_aware_query.
      pose proof (H (ContextPrompt (last_chars 500 (c :: context)) query)) as Hr.
      destruct (llm (ContextPrompt _ query)); [discriminate | reflexivity]. }
    rewrite C. cbn [bind fst snd mem_str existsb].
    assert (E : eqs query query = true) by (apply eqs_eq; reflexivity).
    rewrite E. reflexivity.
Qed.

(** The model is out of reach and a context is given. *)
Lemma enhance_query_never_raises_witness :
  enhance_query unreachable (py "What is CRM?") (Some (py "User: hello")) =
  Ok {| original := py "What is CRM?";
        expanded := py "What is CRM (Customer Relationship Management)";
        keywords := [py "what"; py "crm"];
        variations := [py "What is CRM?"];
        context_aware := py "What is CRM?";
        total_queries := 1 |}.
Proof.
  rewrite (proj2 enhance_query_never_raises unreachable (py "What is CRM?")
             (Some (py "User: hello")) (fun _ => eq_refl)).
  vm_compute. reflexivity.
Defined.

Example fusion_order :
  map doc_id (reciprocal_rank_fusion FusionExample.semantic_results
                FusionExample.keyword_results 10 (6#10)%Q) = [2; 1; 3; 4]%nat.
Proof. vm_compute. reflexivity. Qed.

(** *** The scores of the fusion *)

Module RetrieverFacts.

Local Open Scope Q_scope.

Lemma add_rrf_score d x key s table id :
  table_score (add_rrf d x key s table) id ==
  table_score table id + (if (doc_id d =? id)%nat then x else 0).
Proof.
  unfold table_score. induction table as [|[id' e] rest IH]; simpl.
  - rewrite (Nat.eqb_sym id). destruct (doc_id d =? id)%nat; simpl; ring.
  - destruct (Nat.eqb_spec (doc_id d) id') as [E|E]; simpl.
    + subst id'. rewrite (Nat.eqb_sym id).
      destruct (doc_id d =? id)%nat; simpl; [reflexivity | ring].
    + destruct (Nat.eqb_spec id id') as [E'|E'].
      * subst id'. destruct (Nat.eqb_spec (doc_id d) id); [congruence | ring].
      * exact IH.
Qed.

Lemma add_rrf_in d x key s table id :
  in_table (add_rrf d x key s table) id =
  in_table table id || (doc_id d =? id)%nat.
Proof.
  unfold in_table. induction table as [|[id' e] rest IH]; simpl.
  - rewrite (Nat.eqb_sym id). destruct (doc_id d =? id)%nat; reflexivity.
  - destruct (Nat.eqb_spec (doc_id d) id') as [E|E]; simpl.
    + subst id'. rewrite (Nat.eqb_sym id).
      destruct (doc_id d =? id)%nat; [reflexivity|].
      destruct (table_get rest id); reflexivity.
    + destruct (Nat.eqb_spec id id') as [E'|E']; [reflexivity | exact IH].
Qed.

Lemma add_ranked_score w key rank results table id :
  table_score (add_ranked w key rank results table) id ==
  table_score table id + rank_score w rank results id.
Proof.
  revert rank table.
  induction results as [|[d s] rest IH]; intros rank table; simpl.
  - ring.
  - rewrite IH, add_rrf_score. unfold rrf_constant. ring.
Qed.

Lemma add_ranked_in w key rank results table id :
  in_table (add_ranked w key rank results table) id =
  in_table table id || occurs id results.
Proof.
  revert rank table.
  induction results as [|[d s] rest IH]; intros rank table; simpl.
  - rewrite orb_false_r. reflexivity.
  - rewrite IH, add_rrf_in, orb_assoc. reflexivity.
Qed.

Lemma rank_score_absent w rank results id :
  occurs id results = false -> rank_score w rank results id == 0.
Proof.
  revert rank. induction results as [|[d s] rest IH]; intros rank; simpl.
  - reflexivity.
  - intros H. apply orb_false_iff in H as [A B]. rewrite A, (IH _ B). ring.
Qed.

End RetrieverFacts.
Import RetrieverFacts.

(** C1. In [reciprocal_rank_fusion] the score of a document is the sum, over
    the ranks [r] (from 0) at which it stands in either list, of
    [weight / (60 + r + 1)], with [semantic_weight] for the semantic list and
    [1 - semantic_weight] for the keyword list; a document is scored exactly
    when it stands in one of the lists.  For semantic results [A, B, C] and
    keyword results [B, D] with weight 0.6, [B] scores [0.6/62 + 0.4/61],
    more than each of [A], [C] and [D], and comes first. *)
Theorem reciprocal_rank_fusion_scores :
  (forall (semantic_results keyword_results : list (Document * Q))
          (semantic_weight : Q) (id : nat),
     match table_get (doc_scores semantic_results keyword_results semantic_weight) id with
     | Some e =>
         (score e == rank_score semantic_weight 0 semantic_results id
                     + rank_score (1 - semantic_weight) 0 keyword_results id)%Q
         /\ occurs id semantic_results || occurs id keyword_results = true
     | None =>
         occurs id semantic_results = false /\ occurs id keyword_results = false
     end) /\
  (let s := FusionExample.score_of in
   (s FusionExample.A == (6#10) / 61)%Q /\
   (s FusionExample.B == (6#10) / 62 + (4#10) / 61)%Q /\
   (s FusionExample.C == (6#10) / 63)%Q /\
   (s FusionExample.D == (4#10) / 62)%Q /\
   (s FusionExample.A < s FusionExample.B)%Q /\
   (s FusionExample.C < s FusionExample.B)%Q /\
   (s FusionExample.D < s FusionExample.B)%Q /\
   map doc_id (reciprocal_rank_fusion FusionExample.semantic_results
                 FusionExample.keyword_results 10 (6#10)%Q) = [2; 1; 3; 4]%nat /\
   (exists d x,
      hd_error (reciprocal_rank_fusion FusionExample.semantic_results
                  FusionExample.keyword_results 10 (6#10)%Q) = Some d /\
      doc_id d = doc_id FusionExample.B /\
      metadata d !! py "rrf_score" = Some (VFloat x) /\
      (x == s FusionExample.B)%Q)).
Proof.
  split.
  - intros sem kw sw id.
    pose proof (add_ranked_score (1 - sw)%Q (py "bm25_score") 0 kw
                  (add_ranked sw (py "semantic_score") 0 sem []) id) as S1.
    pose proof (add_ranked_score sw (py "semantic_score") 0 sem [] id) as S2.
    pose proof (add_ranked_in (1 - sw)%Q (py "bm25_score") 0 kw
                  (add_ranked sw (py "semantic_score") 0 sem []) id) as I1.
    pose proof (add_ranked_in sw (py "semantic_score") 0 sem [] id) as I2.
    unfold doc_scores. unfold table_score, in_table in *.
    destruct (table_get (add_ranked (1 - sw)%Q _ 0 kw _) id) as [e|].
    + split.
      * rewrite S1.
        destruct (table_get (add_ranked sw _ 0 sem []) id) as [e'|].
        -- rewrite S2. simpl. ring.
        -- simpl in I2. symmetry in I2.
           rewrite (rank_score_absent sw 0 sem id I2). ring.
      * rewrite I1.
        destruct (table_get (add_ranked sw _ 0 sem []) id); rewrite I2; reflexivity.
    + destruct (table_get (add_ranked sw _ 0 sem []) id); [discriminate|].
      simpl in I1, I2. split; congruence.
  - cbv zeta.
    repeat (split; [vm_compute; reflexivity|]).
    eexists. eexists. split; [vm_compute; reflexivity|].
    split; [reflexivity|]. split; [vm_compute; reflexivity|].
    vm_compute. reflexivity.
Qed.

(** *** A failing semantic search *)

Module HybridSearchFacts.

Lemma enhance_query_returns (llm : model) query context :
  exists r, enhance_query llm query context = Ok r.
Proof.
  unfold enhance_query, generate_query_variations, _generate_context_aware_query.
  destruct (llm (VariationsPrompt query 3)); cbn [bind catch];
    destruct context as [[|c context]|]; cbn [bind catch]; eauto;
    destruct (llm (ContextPrompt _ query)); cbn [bind catch]; eauto.
Qed.

(** When the semantic search finds nothing, without raising, the result is
    made of the keyword results alone. *)
Lemma hybrid_search_keyword_only
    child_similarity_search parent_get child_collection_get bm25_get_scores
    st query k semantic_weight :
  child_similarity_search query (Z.max 1 (k * 2) * 2)%Z = Ok [] ->
  hybrid_search child_similarity_search parent_get child_collection_get
    bm25_get_scores None st query k semantic_weight true =
  let '(keyword_results, st') :=
    keyword_search child_collection_get bm25_get_scores st query (k * 2) in
  Ok (slice_to k (reciprocal_rank_fusion [] keyword_results (k * 2) semantic_weight),
      st').
Proof.
  intros H. unfold hybrid_search, semantic_search, similarity_search_with_score.
  rewrite H. cbn [bind List.filter].
  replace (slice_to (Z.max 1 (k * 2)) (@nil (Document * Q))) with (@nil (Document * Q))
    by (unfold slice_to; destruct (_ <? 0)%Z; rewrite firstn_nil; reflexivity).
  cbn [map]. destruct (keyword_search _ _ st query (k * 2)). reflexivity.
Qed.

End HybridSearchFacts.
Import HybridSearchFacts.

Example hybrid_search_degraded :
  hybrid_search failing_search no_parent two_documents flat_scores None
    initial_state (py "visa process") 5 (6#10)%Q true
  = Raise (py "embedding service unreachable").
Proof. reflexivity. Qed.

Example keyword_search_alone :
  map (fun r : Document * Q => doc_id (fst r))
      (fst (keyword_search two_documents flat_scores initial_state
              (py "visa process") 10)) = [4; 2]%nat.
Proof. vm_compute. reflexivity. Qed.




(** *** The confidence of a response *)

Module AgentFacts.

Local Open Scope Q_scope.

Lemma Qmax_cases x y : Qmax x y = x \/ Qmax x y = y.
Proof.
  unfold Qmax, GenericMinMax.gmax. destruct (x ?= y); auto.
Qed.

Lemma max_score_in first others :
  List.In (max_score first others) (first :: others).
Proof.
  unfold max_score. revert first.
  induction others as [|y ys IH]; intros first; simpl; [auto|].
  destruct (IH (Qmax first y)) as [H|H]; [|auto].
  rewrite <- H. destruct (Qmax_cases first y) as [E|E]; rewrite E; auto.
Qed.

Lemma max_score_ge first others x :
  List.In x (first :: others) -> x <= max_score first others.
Proof.
  unfold max_score. revert first x.
  induction others as [|y ys IH]; intros first x; simpl.
  - intros [<-|[]]. apply Qle_refl.
  - intros [<-|[<-|H]].
    + eapply Qle_trans; [apply Q.le_max_l | apply IH; left; reflexivity].
    + eapply Qle_trans; [apply Q.le_max_r | apply IH; left; reflexivity].
    + apply IH. right. exact H.
Qed.

Lemma sources_of_steps steps :
  flat_map step_source steps = [] <-> existsb is_source_step steps = false.
Proof.
  induction steps as [|s steps IH]; [split; reflexivity|].
  cbn [flat_map existsb]. unfold step_source at 1. unfold is_source_step at 1.
  destruct (mem_str (tool s) sql_tools); cbn [orb app];
    [split; intros; discriminate|].
  destruct (eqs (tool s) (py "rag_search")); cbn [orb app];
    [split; intros; discriminate|].
  exact IH.
Qed.

End AgentFacts.
Import AgentFacts.

Example process_query_sql_confidence :
  confidence_score
    (process_query unreachable (fun _ _ => Ok one_sql_step) [py "providers"]
       (py "s1") [] (py "How many providers are in NSW?") true true)
  = (9#10)%Q.
Proof. vm_compute. reflexivity. Qed.

(** The statement of C9 fails for the orchestrator: a run without any
    document search, so without retrieval score, has confidence 0.9. *)
Lemma confidence_without_retrieval_score :
  ~ (forall (sid : str) (cl : option Classification) (result : AgentResult),
       (forall steps s, intermediate_steps result = Some steps ->
                        List.In s steps -> retrieves s = false) ->
       (confidence_score (response_of sid cl result) == 1#2)%Q).
Proof.
  intros H. specialize (H (py "s1") None one_sql_step).
  assert (N : forall steps s, intermediate_steps one_sql_step = Some steps ->
                              List.In s steps -> retrieves s = false).
  { intros steps s [= <-] [<-|[]]. reflexivity. }
  specialize (H N). vm_compute in H. discriminate H.
Qed.

(** C9, amended. The response of [RAGAgent.process_query] has for
    confidence the largest retrieval score of the documents retrieved (0.5
    for a document without score), capped at 1, and 0.5 when no document was
    retrieved.  The response of [MasterOrchestrator.process_query] has
    confidence 0.9 when a call of an SQL tool or of the document search was
    recorded as a source, and 0.5 otherwise.  Both have confidence 0 when the
    processing raised. *)
Theorem confidence_score_policy :
  (forall sid (r : RagRun),
     let c := rag_confidence_score (rag_agent_response sid (Ok r)) in
     (c <= 1)%Q /\
     (run_kb_docs r = [] -> c = Qmin (1#2) 1) /\
     (forall d, List.In d (run_kb_docs r) ->
        (Qmin (retrieval_score (1#2) d) 1 <= c)%Q) /\
     (run_kb_docs r <> [] ->
        exists d, List.In d (run_kb_docs r) /\
                  c = Qmin (retrieval_score (1#2) d) 1)) /\
  (forall sid cl (result : AgentResult),
     let steps := match intermediate_steps result with Some l => l | None => [] end in
     confidence_score (response_of sid cl result)
     = if existsb is_source_step steps then (9#10)%Q else (5#10)%Q) /\
  (forall (llm : model) agent_executor tables sid context query uc ue,
     let r := process_query llm agent_executor tables sid context query uc ue in
     (confidence_score r = (9#10)%Q /\ sources r <> []) \/
     (confidence_score r = (5#10)%Q /\ sources r = []) \/
     (confidence_score r = 0%Q /\ sources r = [])) /\
  (forall sid e,
     rag_confidence_score (rag_agent_response sid (Raise e)) = 0%Q /\
     confidence_score (error_response sid e) = 0%Q).
Proof.
  split; [|split; [|split]].
  - intros sid r c. subst c. cbn [rag_agent_response rag_confidence_score].
    unfold rag_confidence. split; [apply Q.le_min_r|]. split; [|split].
    + intros ->. reflexivity.
    + intros d Hd.
      destruct (map (retrieval_score (1#2)) (run_kb_docs r)) as [|x xs] eqn:E.
      * destruct (run_kb_docs r); [destruct Hd | discriminate].
      * apply Q.min_le_compat_r. apply max_score_ge. rewrite <- E.
        apply in_map. exact Hd.
    + intros Hne.
      destruct (map (retrieval_score (1#2)) (run_kb_docs r)) as [|x xs] eqn:E.
      * destruct (run_kb_docs r); [congruence | discriminate].
      * pose proof (max_score_in x xs) as Hin. rewrite <- E in Hin.
        apply in_map_iff in Hin as (d & Hd & Hin).
        exists d. split; [exact Hin|]. rewrite Hd. reflexivity.
  - intros sid cl result steps. subst steps. cbn [response_of confidence_score].
    pose proof (sources_of_steps
                  (match intermediate_steps result with Some l => l | None => [] end)) as S.
    destruct (flat_map step_source _) eqn:F.
    + rewrite (proj1 S eq_refl). reflexivity.
    + destruct (existsb is_source_step _); [reflexivity|].
      destruct S as [_ S]. discriminate (S eq_refl).
  - intros llm agent_executor tables sid context query uc ue r. subst r.
    unfold process_query.
    assert (E : exists q, (if ue
                           then (let! enhancement := enhance_query llm query (Some context) in
                                 Ok (expanded enhancement))
                           else Ok query) = Ok q).
    { destruct ue; [|eauto].
      destruct (enhance_query_returns llm query (Some context)) as [x ->].
      cbn [bind]. eauto. }
    destruct E as [q ->]. cbn [bind].
    destruct (agent_executor q (parse_chat_history context)) as [result|e]; cbn [bind].
    + cbn [response_of confidence_score sources].
      destruct (flat_map step_source _); [right; left | left]; split;
        try reflexivity; discriminate.
    + right. right. split; reflexivity.
  - intros sid e. split; reflexivity.
Qed.

(** A run of the legacy agent that retrieved nothing. *)
Lemma confidence_score_policy_witness :
  rag_confidence_score
    (rag_agent_response (py "s1")
       (Ok {| run_answer := py "I could not find anything.";
              run_sources := []; run_web_search_used := false;
              run_kb_docs := [] |}))
  = Qmin (1#2) 1.
Proof.
  apply (proj1 (proj2 (proj1 confidence_score_policy (py "s1")
                         {| run_answer := py "I could not find anything.";
                            run_sources := []; run_web_search_used := false;
                            run_kb_docs := [] |}))).
  reflexivity.
Defined.

(** *** Invariants of the ingestion *)

Module VectorStoreFacts.

Lemma wf_ext st st' :
  child_store st' = child_store st -> parent_store st' = parent_store st ->
  wf st -> wf st'.
Proof.
  intros Ec Ep [H1 H2]. split.
  - intros id c. rewrite Ec. apply H1.
  - intros p pc. rewrite Ep, Ec. apply H2.
Qed.

Lemma parents_present_ext pending st st' :
  child_store st' = child_store st -> parent_store st' = parent_store st ->
  parents_present pending st -> parents_present pending st'.
Proof. intros Ec Ep H id c. rewrite Ec, Ep. apply H. Qed.

Lemma parent_of_child_metadata text meta p i :
  parent_of {| chunk_text := text; chunk_meta := child_metadata meta p i |} = Some p.
Proof.
  unfold parent_of, child_metadata. cbn [chunk_meta].
  rewrite lookup_insert_ne by discriminate.
  rewrite lookup_insert_ne by discriminate.
  rewrite lookup_insert_eq. reflexivity.
Qed.

Section Ingestion.

Variable parent_splitter : str -> Result (list str).
Variable child_splitter : str -> Result (list str).
Variable uuid4 : nat -> str.
Variable store_fails : nat -> bool.

Lemma child_add_spec id c st r st' :
  child_add store_fails id c st = (r, st') ->
  parent_store st' = parent_store st /\
  ((raises r = true /\ child_store st' = child_store st) \/
   (r = Ok tt /\ child_store st' = <[id := c]> (child_store st))).
Proof.
  unfold child_add. destruct (store_fails (store_calls st)); intros [= <- <-];
    split; try reflexivity; [left | right]; split; reflexivity.
Qed.

Lemma parent_add_spec id c st r st' :
  parent_add store_fails id c st = (r, st') ->
  child_store st' = child_store st /\
  ((raises r = true /\ parent_store st' = parent_store st) \/
   (r = Ok tt /\ parent_store st' = <[id := c]> (parent_store st))).
Proof.
  unfold parent_add. destruct (store_fails (store_calls st)); intros [= <- <-];
    split; try reflexivity; [left | right]; split; reflexivity.
Qed.

(** The loop over the children keeps the store well formed, whatever its
    outcome, and does not touch the parents. *)
Lemma add_children_wf meta p chunks : forall i ids st r st',
  add_children store_fails meta p i chunks ids st = (r, st') ->
  wf st -> wf st' /\ parent_store st' = parent_store st.
Proof.
  induction chunks as [|chunk rest IH]; intros i ids st r st' H W.
  - injection H as <- <-. split; [exact W | reflexivity].
  - cbn [add_children] in H. destruct (blank chunk) eqn:B; [eapply IH; eauto|].
    unfold mbind in H.
    destruct (child_add store_fails (p, i) _ st) as [r1 st1] eqn:A.
    destruct (child_add_spec _ _ _ _ _ A) as [Ep [[Hr Ec]|[-> Ec]]].
    + destruct r1; [discriminate|]. injection H as <- <-.
      split; [eapply wf_ext; eauto | exact Ep].
    + assert (W1 : wf st1).
      { destruct W as [W1 W2]. split.
        - intros id c. rewrite Ec. intros L.
          apply lookup_insert_Some in L as [[<- <-]|[_ L]]; [|eauto].
          split; [apply parent_of_child_metadata | exact B].
        - intros q pc. rewrite Ep, Ec. intros L.
          destruct (W2 q pc L) as [j [c Hc]]. exists j.
          destruct (decide ((p, i) = (q, j))) as [<-|N].
          + rewrite lookup_insert_eq. eauto.
          + rewrite lookup_insert_ne by exact N. eauto. }
      destruct (IH _ _ _ _ _ H W1) as [W' E']. split; [exact W' | congruence].
Qed.

Lemma add_children_prefix meta p chunks : forall i ids st ids' st',
  add_children store_fails meta p i chunks ids st = (Ok ids', st') ->
  exists extra, ids' = ids ++ extra.
Proof.
  induction chunks as [|chunk rest IH]; intros i ids st ids' st' H.
  - injection H as <- <-. exists []. rewrite app_nil_r. reflexivity.
  - cbn [add_children] in H. destruct (blank chunk); [eapply IH; eauto|].
    unfold mbind in H.
    destruct (child_add store_fails (p, i) _ st) as [[[]|e] st1]; [|discriminate].
    destruct (IH _ _ _ _ _ H) as [extra ->].
    exists ((p, i) :: extra). rewrite <- app_assoc. reflexivity.
Qed.

(** When the loop returns, the identifiers it returns are those of stored
    children of [p]; the one parent that may be missing is [p]; and when it
    returns none it has stored nothing. *)
Lemma add_children_returned meta p chunks : forall i ids st ids' st',
  add_children store_fails meta p i chunks ids st = (Ok ids', st') ->
  (forall id, List.In id ids -> fst id = p /\ is_Some (child_store st !! id)) ->
  parents_present (Some p) st ->
  (forall id, List.In id ids' -> fst id = p /\ is_Some (child_store st' !! id)) /\
  parents_present (Some p) st' /\
  (ids' = [] -> child_store st' = child_store st).
Proof.
  induction chunks as [|chunk rest IH]; intros i ids st ids' st' H Hids P.
  - injection H as <- <-. auto.
  - cbn [add_children] in H. destruct (blank chunk) eqn:B; [eapply IH; eauto|].
    unfold mbind in H.
    destruct (child_add store_fails (p, i) _ st) as [r1 st1] eqn:A.
    destruct (child_add_spec _ _ _ _ _ A) as [Ep [[Hr Ec]|[-> Ec]]].
    + destruct r1; discriminate.
    + assert (Hids1 : forall id, List.In id (ids ++ [(p, i)]) ->
                        fst id = p /\ is_Some (child_store st1 !! id)).
      { intros id Hin. apply in_app_iff in Hin as [Hin|[<-|[]]].
        - destruct (Hids id Hin) as [F [c Hc]]. split; [exact F|].
          rewrite Ec. destruct (decide ((p, i) = id)) as [<-|N].
          + rewrite lookup_insert_eq. eauto.
          + rewrite lookup_insert_ne by exact N. eauto.
        - split; [reflexivity|]. rewrite Ec, lookup_insert_eq. eauto. }
      assert (P1 : parents_present (Some p) st1).
      { intros id c. rewrite Ec, Ep. intros L.
        apply lookup_insert_Some in L as [[<- <-]|[_ L]]; [right; reflexivity|].
        eapply P; eauto. }
      destruct (IH _ _ _ _ _ H Hids1 P1) as (R1 & R2 & R3).
      split; [exact R1|]. split; [exact R2|].
      intros ->. exfalso.
      destruct (add_children_prefix _ _ _ _ _ _ _ _ H) as [extra E].
      destruct ids; discriminate E.
Qed.

(** The loop over the parent chunks: the store stays well formed whatever
    the outcome, and without orphan when the loop returns. *)
Lemma add_parents_spec meta chunks : forall acc st r st',
  add_parents child_splitter uuid4 store_fails meta chunks acc st = (r, st') ->
  wf st ->
  wf st' /\ (parents_present None st -> raises r = false -> parents_present None st').
Proof.
  induction chunks as [|chunk rest IH]; intros acc st r st' H W.
  - injection H as <- <-. auto.
  - cbn [add_parents] in H. destruct (blank chunk) eqn:B; [eapply IH; eauto|].
    unfold mbind at 1 in H. cbn [draw_uuid] in H.
    set (p := uuid4 (uuids_drawn st)) in H.
    set (st0 := {| child_store := child_store st; parent_store := parent_store st;
                   parent_child_map := parent_child_map st;
                   uuids_drawn := S (uuids_drawn st);
                   store_calls := store_calls st |}) in H.
    assert (W0 : wf st0) by (eapply wf_ext; [| |exact W]; reflexivity).
    unfold mbind at 1 in H.
    destruct (add_children store_fails meta p 0 _ [] st0) as [r1 st1] eqn:A.
    destruct (add_children_wf _ _ _ _ _ _ _ _ A W0) as [W1 Ep1].
    destruct r1 as [ids|e]; [|injection H as <- <-; split; [exact W1 | discriminate]].
    assert (R : parents_present None st ->
                (forall id, List.In id ids ->
                   fst id = p /\ is_Some (child_store st1 !! id)) /\
                parents_present (Some p) st1 /\
                (ids = [] -> child_store st1 = child_store st0)).
    { intros P. eapply add_children_returned; [exact A | intros ? [] |].
      intros id c L. destruct (P id c L) as [?|?]; [left; assumption | discriminate]. }
    assert (Rids : forall id, List.In id ids ->
                     fst id = p /\ is_Some (child_store st1 !! id)).
    { (* the identifiers are stored, with or without the hypothesis on st *)
      clear R.
      assert (G : forall chunks i ids0 s ids1 s1,
                 add_children store_fails meta p i chunks ids0 s = (Ok ids1, s1) ->
                 (forall id, List.In id ids0 ->
                    fst id = p /\ is_Some (child_store s !! id)) ->
                 forall id, List.In id ids1 ->
                    fst id = p /\ is_Some (child_store s1 !! id)).
      { clear. induction chunks as [|chunk rest IH]; intros i ids0 s ids1 s1 H Hids.
        - injection H as <- <-. exact Hids.
        - cbn [add_children] in H. destruct (blank chunk); [eapply IH; eauto|].
          unfold mbind in H.
          destruct (child_add store_fails (p, i) _ s) as [r1 s0] eqn:A.
          destruct (child_add_spec _ _ _ _ _ A) as [Ep [[Hr Ec]|[-> Ec]]];
            [destruct r1; discriminate|].
          eapply IH; [exact H|]. intros id Hin.
          apply in_app_iff in Hin as [Hin|[<-|[]]].
          + destruct (Hids id Hin) as [F [c Hc]]. split; [exact F|].
            rewrite Ec. destruct (decide ((p, i) = id)) as [<-|N].
            * rewrite lookup_insert_eq. eauto.
            * rewrite lookup_insert_ne by exact N. eauto.
          + split; [reflexivity|]. rewrite Ec, lookup_insert_eq. eauto. }
      eapply G; [exact A | intros ? []]. }
    destruct ids as [|id0 ids].
    + (* no child: the parent is not stored *)
      destruct (IH _ _ _ _ H W1) as [W' P']. split; [exact W'|].
      intros P. apply P'.
      destruct (R P) as (_ & _ & Ec). specialize (Ec eq_refl).
      intros id c. rewrite Ec, Ep1. apply P.
    + unfold mbind at 1 in H.
      destruct (parent_add store_fails p _ st1) as [r2 st2] eqn:A2.
      destruct (parent_add_spec _ _ _ _ _ A2) as [Ec2 [[Hr Ep2]|[-> Ep2]]].
      * destruct r2; [discriminate|]. injection H as <- <-.
        split; [eapply wf_ext; eauto | discriminate].
      * unfold mbind at 1 in H. cbn [map_children] in H.
        match type of H with
        | add_parents _ _ _ _ _ _ ?s = _ => set (st3 := s) in H
        end.
        assert (W3 : wf st3).
        { destruct W1 as [C1 C2]. split.
          - intros id c. cbn [st3 child_store]. rewrite Ec2. apply C1.
          - intros q pc. cbn [st3 child_store parent_store]. rewrite Ec2, Ep2.
            intros L. apply lookup_insert_Some in L as [[<- <-]|[_ L]]; [|eauto].
            destruct (Rids id0 (or_introl eq_refl)) as [F Hs].
            destruct id0 as [q i0]. simpl in F. subst q. eauto. }
        destruct (IH _ _ _ _ H W3) as [W' P']. split; [exact W'|].
        intros P. apply P'.
        destruct (R P) as (_ & P1 & _).
        intros id c. cbn [st3 child_store parent_store]. rewrite Ec2, Ep2.
        intros L. left. destruct (P1 id c L) as [[x Hx]|[= E]].
        -- destruct (decide (p = fst id)) as [<-|N].
           ++ rewrite lookup_insert_eq. eauto.
           ++ rewrite lookup_insert_ne by exact N. eauto.
        -- rewrite <- E, lookup_insert_eq. eauto.
Qed.

Lemma add_each_spec documents : forall acc st r st',
  add_each parent_splitter child_splitter uuid4 store_fails documents acc st = (r, st') ->
  wf st ->
  wf st' /\ (parents_present None st -> raises r = false -> parents_present None st').
Proof.
  induction documents as [|d rest IH]; intros acc st r st' H W.
  - injection H as <- <-. auto.
  - cbn [add_each] in H. destruct (blank (page_content d)); [eapply IH; eauto|].
    unfold mbind in H.
    destruct (add_parents _ _ _ _ _ acc st) as [r1 st1] eqn:A.
    destruct (add_parents_spec _ _ _ _ _ _ A W) as [W1 P1].
    destruct r1 as [acc1|e].
    + destruct (IH _ _ _ _ H W1) as [W' P']. split; [exact W'|].
      intros P. apply P', P1; [exact P | reflexivity].
    + injection H as <- <-. split; [exact W1 | discriminate].
Qed.

Lemma run_calls_spec calls : forall st,
  wf st ->
  wf (run_calls parent_splitter child_splitter uuid4 store_fails calls st) /\
  (parents_present None st ->
   all_returned parent_splitter child_splitter uuid4 store_fails calls st = true ->
   parents_present None
     (run_calls parent_splitter child_splitter uuid4 store_fails calls st)).
Proof.
  induction calls as [|documents rest IH]; intros st W; [auto|].
  cbn [run_calls all_returned]. unfold add_documents.
  destruct (add_each _ _ _ _ documents [] st) as [r st1] eqn:A.
  destruct (add_each_spec _ _ _ _ _ A W) as [W1 P1]. cbn [fst snd].
  destruct (IH st1 W1) as [W' P']. split; [exact W'|].
  intros P R. apply andb_true_iff in R as [R1 R2].
  apply P'; [|exact R2]. apply P1; [exact P|].
  destruct r; [reflexivity | discriminate].
Qed.

End Ingestion.

Lemma wf_empty : wf empty_store /\ parents_present None empty_store.
Proof.
  split; [split|]; intros x y L; cbn in L; rewrite lookup_empty in L;
    discriminate.
Qed.

Lemma wf_no_childless_parent st : wf st -> no_childless_parent st.
Proof.
  intros [C P] p pc L. destruct (P p pc L) as [i [c Hc]].
  destruct (C _ _ Hc) as [Hp Hb]. exists (p, i), c. auto.
Qed.

Lemma wf_children_name_parent st : wf st -> children_name_parent st.
Proof. intros [C _] id c L. destruct (C _ _ L) as [Hp _]. eauto. Qed.

Lemma wf_no_orphan st : wf st -> parents_present None st -> no_orphan st.
Proof.
  intros [C _] P id c L. destruct (C _ _ L) as [Hp _].
  exists (fst id). split; [exact Hp|].
  destruct (P _ _ L) as [?|?]; [assumption | discriminate].
Qed.

End VectorStoreFacts.
Import VectorStoreFacts.

Example add_documents_returns_parent :
  fst (add_documents IngestionExample.whole IngestionExample.whole
         IngestionExample.numbered IngestionExample.never_fails
         [IngestionExample.visa_rules] empty_store)
  = Ok [py "parent-0"].
Proof. vm_compute. reflexivity. Qed.

(** The statement of C4 fails when a write to the store raises: the child
    chunks written before the failure stay, and their parent is never
    written. *)
Lemma orphan_after_failed_write :
  ~ (forall parent_splitter child_splitter uuid4 store_fails calls,
       no_orphan (run_calls parent_splitter child_splitter uuid4 store_fails
                    calls empty_store)).
Proof.
  intros H.
  specialize (H IngestionExample.whole IngestionExample.whole
                IngestionExample.numbered IngestionExample.second_fails
                [[IngestionExample.visa_rules]]).
  destruct (H (py "parent-0", 0%nat)
              {| chunk_text := py "Visa rules";
                 chunk_meta := child_metadata ∅ (py "parent-0") 0 |})
    as (p & Hp & [pc Hs]).
  - vm_compute. reflexivity.
  - vm_compute in Hp. injection Hp as <-. vm_compute in Hs. discriminate Hs.
Qed.

(** C4, amended. After any sequence of calls of [add_documents] on an empty
    store, every stored child chunk names a parent chunk and every stored
    parent chunk has a stored child chunk that is not blank; when every call
    of the sequence returned, the parent that a stored child names is stored
    as well. *)
Theorem add_documents_invariants
    parent_splitter child_splitter uuid4 store_fails calls :
  let st := run_calls parent_splitter child_splitter uuid4 store_fails calls
              empty_store in
  children_name_parent st /\
  no_childless_parent st /\
  (all_returned parent_splitter child_splitter uuid4 store_fails calls empty_store
     = true -> no_orphan st).
Proof.
  cbv zeta. destruct wf_empty as [W P].
  destruct (run_calls_spec parent_splitter child_splitter uuid4 store_fails
              calls empty_store W) as [W' P'].
  split; [apply wf_children_name_parent, W'|].
  split; [apply wf_no_childless_parent, W'|].
  intros R. apply wf_no_orphan; [exact W' | exact (P' P R)].
Qed.

Lemma add_documents_invariants_witness :
  no_orphan (run_calls IngestionExample.whole IngestionExample.whole
               IngestionExample.numbered IngestionExample.never_fails
               [[IngestionExample.visa_rules]; [IngestionExample.visa_rules]]
               empty_store).
Proof.
  apply (add_documents_invariants IngestionExample.whole IngestionExample.whole
           IngestionExample.numbered IngestionExample.never_fails
           [[IngestionExample.visa_rules]; [IngestionExample.visa_rules]]).
  vm_compute. reflexivity.
Defined.

(** *** Facts on sorting *)

Module PySortFacts.

Section Sort.
Context {A K : Type}.
Variable key : A -> K.
Variable ltb : K -> K -> bool.

Lemma insert_desc_perm x l : Permutation (insert_desc key ltb x l) (x :: l).
Proof.
  induction l as [|y l IH]; cbn; [reflexivity|].
  destruct (ltb (key x) (key y)); [|reflexivity].
  rewrite IH. apply perm_swap.
Qed.

Lemma sort_desc_perm l : Permutation (sort_desc key ltb l) l.
Proof.
  induction l as [|x l IH]; cbn; [reflexivity|].
  rewrite insert_desc_perm. now constructor.
Qed.

Lemma sort_desc_length l : length (sort_desc key ltb l) = length l.
Proof. apply Permutation_length, sort_desc_perm. Qed.

Lemma sort_desc_In x l : List.In x (sort_desc key ltb l) <-> List.In x l.
Proof.
  split; apply Permutation_in; [|symmetry]; apply sort_desc_perm.
Qed.

Lemma insert_desc_descending x l :
  (forall a b, ltb a b = true -> ltb b a = false) ->
  (forall a b c, ltb a b = false -> ltb b c = false -> ltb a c = false) ->
  descending key ltb l -> descending key ltb (insert_desc key ltb x l).
Proof.
  intros asym trans. induction 1 as [|y l Hy Hl IH]; cbn.
  - constructor; constructor.
  - destruct (ltb (key x) (key y)) eqn:E.
    + constructor; [|exact IH].
      rewrite List.Forall_forall. intros z Hz.
      apply (Permutation_in _ (insert_desc_perm x l)) in Hz.
      destruct Hz as [<-|Hz]; [now apply asym|].
      rewrite List.Forall_forall in Hy. now apply Hy.
    + constructor; [|now constructor].
      constructor; [exact E|].
      rewrite List.Forall_forall in Hy |- *. intros z Hz.
      apply trans with (key y); [exact E|now apply Hy].
Qed.

Lemma sort_desc_descending l :
  (forall a b, ltb a b = true -> ltb b a = false) ->
  (forall a b c, ltb a b = false -> ltb b c = false -> ltb a c = false) ->
  descending key ltb (sort_desc key ltb l).
Proof.
  intros asym trans. induction l as [|x l IH]; cbn; [constructor|].
  now apply insert_desc_descending.
Qed.

Lemma sublist_In (l1 l2 : list A) x :
  sublist l1 l2 -> List.In x l1 -> List.In x l2.
Proof.
  induction 1 as [|y l1 l2 Hs IH|y l1 l2 Hs IH]; cbn; intros Hx.
  - exact Hx.
  - destruct Hx as [->|Hx]; [now left|right; now apply IH].
  - right. now apply IH.
Qed.

Lemma descending_sublist l1 l2 :
  sublist l1 l2 -> descending key ltb l2 -> descending key ltb l1.
Proof.
  induction 1 as [|x l1 l2 Hs IH|x l1 l2 Hs IH]; intros Hd.
  - constructor.
  - inversion Hd as [|? ? Hx Hl]; subst. constructor; [|now apply IH].
    rewrite List.Forall_forall in Hx |- *. intros z Hz. apply Hx.
    now apply (sublist_In l1 l2).
  - inversion Hd; subst. now apply IH.
Qed.

Lemma descending_lookup l i j a b :
  descending key ltb l -> (i < j)%nat ->
  l !! i = Some a -> l !! j = Some b -> ltb (key a) (key b) = false.
Proof.
  intros Hd. revert i j. induction Hd as [|x l Hx Hl IH]; intros i j Hij Hi Hj.
  - discriminate.
  - destruct j as [|j]; [lia|]. cbn in Hj. destruct i as [|i].
    + cbn in Hi. injection Hi as ->.
      rewrite List.Forall_forall in Hx. apply Hx.
      apply list_elem_of_In. eapply list_elem_of_lookup_2. exact Hj.
    + cbn in Hi. apply (IH i j); [lia|exact Hi|exact Hj].
Qed.

End Sort.

Lemma nat_ltb_asym a b : (a <? b)%nat = true -> (b <? a)%nat = false.
Proof. rewrite Nat.ltb_lt, Nat.ltb_ge. lia. Qed.

Lemma nat_ltb_trans a b c :
  (a <? b)%nat = false -> (b <? c)%nat = false -> (a <? c)%nat = false.
Proof. rewrite !Nat.ltb_ge. lia. Qed.

Lemma Qltb_lt x y : Qltb x y = true <-> (x < y)%Q.
Proof.
  unfold Qltb. rewrite negb_true_iff. split.
  - intros H. apply Qnot_le_lt. intros Hle.
    apply Qle_bool_iff in Hle. congruence.
  - intros H. destruct (Qle_bool y x) eqn:E; [|reflexivity].
    apply Qle_bool_iff in E. exfalso. now apply (Qlt_not_le x y).
Qed.

Lemma Qltb_ge x y : Qltb x y = false <-> (y <= x)%Q.
Proof.
  unfold Qltb. rewrite negb_false_iff. apply Qle_bool_iff.
Qed.

Lemma Qltb_asym a b : Qltb a b = true -> Qltb b a = false.
Proof. rewrite Qltb_lt, Qltb_ge. apply Qlt_le_weak. Qed.

Lemma Qltb_trans a b c :
  Qltb a b = false -> Qltb b c = false -> Qltb a c = false.
Proof. rewrite !Qltb_ge. intros H1 H2. now apply Qle_trans with b. Qed.

End PySortFacts.

(** *** Further facts on the string operations *)

Module PyStrMoreFacts.

Lemma mem_str_In x l : mem_str x l = true <-> List.In x l.
Proof.
  unfold mem_str. rewrite existsb_exists. split.
  - intros (y & Hy & E). apply PyStrFacts.eqs_eq in E. now subst.
  - intros H. exists x. split; [exact H|]. now apply PyStrFacts.eqs_eq.
Qed.

Lemma mem_str_not_In x l : mem_str x l = false <-> ~ List.In x l.
Proof.
  rewrite <- mem_str_In. destruct (mem_str x l); split; congruence.
Qed.

Lemma eqs_refl s : eqs s s = true.
Proof. now apply PyStrFacts.eqs_eq. Qed.

Lemma eqs_neq a b : eqs a b = false <-> a <> b.
Proof.
  rewrite <- PyStrFacts.eqs_eq. destruct (eqs a b); split; congruence.
Qed.

Lemma lower_char_space c : isspace (lower_char c) = isspace c.
Proof. destruct c as [[] [] [] [] [] [] [] []]; reflexivity. Qed.

Lemma lower_app a b : lower (a ++ b) = lower a ++ lower b.
Proof. apply map_app. Qed.

Lemma lower_join sep ws : lower (join sep ws) = join (lower sep) (map lower ws).
Proof.
  induction ws as [|w [|w' ws] IH]; [reflexivity|reflexivity|].
  change (join sep (w :: w' :: ws)) with (w ++ sep ++ join sep (w' :: ws)).
  rewrite !lower_app, IH. reflexivity.
Qed.

(** The words of [s.split()] are words, made of characters of [s]. *)
Lemma split_ws_aux_words (P : ascii -> Prop) s : forall cur,
  Forall (fun c => isspace c = false /\ P c) cur ->
  Forall P s ->
  Forall (fun w => word w /\ Forall P w) (split_ws_aux cur s).
Proof.
  assert (Hrev : forall cur, cur <> [] ->
            Forall (fun c => isspace c = false /\ P c) cur ->
            word (rev cur) /\ Forall P (rev cur)).
  { intros cur Hne Hcur. split; [split|].
    - intros E. apply Hne. apply (f_equal (@rev ascii)) in E.
      now rewrite rev_involutive in E.
    - apply List.Forall_rev. eapply List.Forall_impl; [|exact Hcur]. now intros c [H _].
    - apply List.Forall_rev. eapply List.Forall_impl; [|exact Hcur]. now intros c [_ H]. }
  induction s as [|c s IH]; intros cur Hcur Hs; cbn.
  - destruct cur as [|x cur]; [constructor|].
    constructor; [|constructor]. now apply Hrev.
  - inversion Hs as [|? ? Hc Hs']; subst.
    destruct (isspace c) eqn:E.
    + destruct cur as [|x cur]; [now apply IH|].
      constructor; [now apply Hrev|now apply IH].
    + apply IH; [|exact Hs']. constructor; [now split|exact Hcur].
Qed.

Lemma split_ws_words (P : ascii -> Prop) s :
  Forall P s -> Forall (fun w => word w /\ Forall P w) (split_ws s).
Proof. intros H. apply split_ws_aux_words; [constructor|exact H]. Qed.

Lemma split_ws_word_list s : Forall word (split_ws s).
Proof.
  eapply List.Forall_impl; [|apply (split_ws_words (fun _ => True))].
  - now intros w [H _].
  - clear. induction s; constructor; auto.
Qed.

(** Splitting what was joined with one space gives the words back. *)
Lemma split_ws_join ws : Forall word ws -> split_ws (join (py " ") ws) = ws.
Proof.
  induction ws as [|w [|w' ws] IH]; intros H.
  - reflexivity.
  - inversion H as [|? ? [Hne Hw] _]; subst. now apply PyStrFacts.split_ws_word.
  - inversion H as [|? ? [Hne Hw] H']; subst.
    change (join (py " ") (w :: w' :: ws))
      with (w ++ " "%char :: join (py " ") (w' :: ws)).
    unfold split_ws.
    rewrite (PyStrFacts.split_ws_aux_space [] w " "%char) by reflexivity.
    change (split_ws_aux [] w) with (split_ws w).
    rewrite (PyStrFacts.split_ws_word w Hne Hw).
    change (split_ws_aux [] (join (py " ") (w' :: ws)))
      with (split_ws (join (py " ") (w' :: ws))).
    now rewrite IH.
Qed.

Lemma join_nonempty sep ws :
  ws <> [] -> Forall (fun w => w <> []) ws -> join sep ws <> [].
Proof.
  destruct ws as [|w [|w' ws]]; intros Hne H; [congruence| |].
  - now inversion H.
  - inversion H as [|? ? Hw _]; subst. cbn -[join].
    change (join sep (w :: w' :: ws)) with (w ++ sep ++ join sep (w' :: ws)).
    destruct w; [congruence|discriminate].
Qed.

Lemma lstrip_by_head f s :
  match lstrip_by f s with c :: _ => f c = false | [] => True end.
Proof.
  induction s as [|c s IH]; cbn; [exact I|].
  destruct (f c) eqn:E; [exact IH|exact E].
Qed.

Lemma filter_length_le {A} (f : A -> bool) l :
  (length (List.filter f l) <= length l)%nat.
Proof.
  induction l as [|x l IH]; cbn; [lia|]. destruct (f x); cbn; lia.
Qed.

Lemma filter_idem {A} (f : A -> bool) l :
  List.filter f (List.filter f l) = List.filter f l.
Proof.
  induction l as [|x l IH]; cbn; [reflexivity|].
  destruct (f x) eqn:E; cbn; [rewrite E|]; now rewrite ?IH.
Qed.

Lemma In_firstn {A} (x : A) n l : List.In x (firstn n l) -> List.In x l.
Proof.
  intros H. rewrite <- (firstn_skipn n l). apply in_or_app. now left.
Qed.

Lemma In_skipn {A} (x : A) n l : List.In x (skipn n l) -> List.In x l.
Proof.
  intros H. rewrite <- (firstn_skipn n l). apply in_or_app. now right.
Qed.

End PyStrMoreFacts.

(** *** Facts on the query enhancer *)

Module EnhancerFacts.

Import PyStrMoreFacts PySortFacts.

(** What the loop of [extract_keywords] adds to the keywords it has. *)
Lemma collect_keywords_spec m : forall words seen acc,
  exists picked,
    collect_keywords m seen acc words = acc ++ picked /\
    sublist picked words /\
    Forall (fun w => (2 < length w)%nat) picked /\
    NoDup (map lower picked) /\
    (forall w, List.In w picked -> ~ List.In (lower w) seen) /\
    ((length acc < Nat.max 1 m)%nat ->
     (length (acc ++ picked) <= Nat.max 1 m)%nat).
Proof.
  induction words as [|w rest IH]; intros seen acc; cbn [collect_keywords].
  - exists []. rewrite app_nil_r.
    repeat split; try constructor; try (intros ? []); lia.
  - destruct (negb (mem_str (lower w) seen) && (2 <? length w)%nat) eqn:C.
    + apply andb_true_iff in C as [Hseen Hlen].
      apply negb_true_iff, mem_str_not_In in Hseen.
      apply Nat.ltb_lt in Hlen.
      destruct (m <=? length (acc ++ [w]))%nat eqn:Full.
      * exists [w]. split; [reflexivity|]. split.
        { apply sublist_skip, sublist_nil_l. }
        split; [now repeat constructor|].
        split; [cbn; constructor; [intros H; inversion H|constructor]|].
        split; [intros ? [<-|[]]; exact Hseen|].
        rewrite length_app. cbn. lia.
      * destruct (IH (lower w :: seen) (acc ++ [w]))
          as (picked & E & Hsub & Hlong & Hnd & Hnew & Hbound).
        exists (w :: picked). rewrite E, <- app_assoc. split; [reflexivity|].
        split; [now apply sublist_skip|].
        split; [now constructor|].
        split.
        { cbn. constructor; [|exact Hnd].
          rewrite list_elem_of_In, in_map_iff. intros (v & Ev & Hv).
          apply (Hnew v Hv). left. now symmetry. }
        split.
        { intros v [<-|Hv]; [exact Hseen|].
          intros Hin. apply (Hnew v Hv). now right. }
        intros _. change (acc ++ w :: picked) with (acc ++ [w] ++ picked).
        rewrite app_assoc. apply Hbound.
        apply Nat.leb_gt in Full. lia.
    + destruct (IH seen acc) as (picked & E & Hsub & Hrest).
      exists picked. split; [exact E|]. split; [now apply sublist_cons|exact Hrest].
Qed.

Lemma lower_fixed_chars s :
  Forall (fun c => lower_char c = c) (lower s).
Proof.
  induction s as [|c s IH]; cbn; constructor; [|exact IH].
  apply SQLNamesFacts.lower_char_idem.
Qed.

Lemma lower_fixed w : Forall (fun c => lower_char c = c) w -> lower w = w.
Proof.
  induction 1 as [|c w Hc _ IH]; [reflexivity|].
  change (lower (c :: w)) with (lower_char c :: lower w). now rewrite Hc, IH.
Qed.

(** The words of a query in lower case that are not stop words. *)
Lemma kept_words query :
  let kept := List.filter (fun w => negb (mem_str w stop_words))
                          (split_ws (lower query)) in
  Forall word kept /\ map lower kept = kept.
Proof.
  intros kept.
  assert (H : Forall (fun w => word w /\ Forall (fun c => lower_char c = c) w) kept).
  { apply List.Forall_forall. intros w Hw. apply filter_In in Hw as [Hw _].
    pose proof (split_ws_words (fun c => lower_char c = c) (lower query)
                  (lower_fixed_chars query)) as Hall.
    rewrite List.Forall_forall in Hall. now apply Hall. }
  split.
  - eapply List.Forall_impl; [|exact H]. now intros w [Hw _].
  - induction H as [|w l [_ Hw] _ IH]; [reflexivity|].
    change (map lower (w :: l)) with (lower w :: map lower l).
    now rewrite (lower_fixed w Hw), IH.
Qed.

End EnhancerFacts.

(** X1. [extract_keywords] returns at most [max(1, max_keywords)] keywords;
    each is longer than two characters and is a word of the query without
    its stop words, stripped of its punctuation; no two keywords are equal
    once in lower case; and no keyword is longer than one before it. *)
Theorem extract_keywords_shape (query : str) (max_keywords : nat) :
  let ks := extract_keywords query max_keywords in
  (length ks <= Nat.max 1 max_keywords)%nat /\
  Forall (fun w => (2 < length w)%nat) ks /\
  NoDup (map lower ks) /\
  (forall i j a b, (i < j)%nat -> ks !! i = Some a -> ks !! j = Some b ->
     (length b <= length a)%nat) /\
  (forall w, List.In w ks ->
     List.In w (map (strip_chars punctuation) (split_ws (remove_stop_words query)))).
Proof.
  intros ks. unfold ks, extract_keywords.
  set (words := map (strip_chars punctuation) (split_ws (remove_stop_words query))).
  destruct (EnhancerFacts.collect_keywords_spec max_keywords
              (sort_desc (@length ascii) Nat.ltb words) [] [])
    as (picked & E & Hsub & Hlong & Hnd & _ & Hbound).
  rewrite E. cbn [app] in *.
  split; [apply Hbound; cbn; lia|].
  split; [exact Hlong|]. split; [exact Hnd|]. split.
  - intros i j a b Hij Hi Hj.
    assert (Hd : descending (@length ascii) Nat.ltb picked).
    { apply (PySortFacts.descending_sublist _ _ _ _ Hsub).
      apply PySortFacts.sort_desc_descending.
      - apply PySortFacts.nat_ltb_asym.
      - apply PySortFacts.nat_ltb_trans. }
    pose proof (PySortFacts.descending_lookup _ _ _ _ _ _ _ Hd Hij Hi Hj) as H.
    apply Nat.ltb_ge in H. exact H.
  - intros w Hw. apply (PySortFacts.sort_desc_In (@length ascii) Nat.ltb).
    now apply (PySortFacts.sublist_In picked).
Qed.

(** X2. [remove_stop_words] gives, word for word, the words of the query in
    lower case that are not stop words; when every word is a stop word the
    query comes back unchanged; and applying it twice changes nothing. *)
Theorem remove_stop_words_keeps_other_words (query : str) :
  let kept := List.filter (fun w => negb (mem_str w stop_words))
                          (split_ws (lower query)) in
  split_ws (remove_stop_words query)
    = match kept with [] => split_ws query | _ => kept end /\
  (kept = [] -> remove_stop_words query = query) /\
  Forall (fun w => ~ List.In w stop_words) kept /\
  remove_stop_words (remove_stop_words query) = remove_stop_words query.
Proof.
  intros kept. destruct (EnhancerFacts.kept_words query) as [Hw Hl].
  fold kept in Hw, Hl.
  assert (Hstop : Forall (fun w => ~ List.In w stop_words) kept).
  { apply List.Forall_forall. intros w H. apply filter_In in H as [_ H].
    apply negb_true_iff in H. now apply PyStrMoreFacts.mem_str_not_In. }
  assert (E : remove_stop_words query
              = match kept with [] => query | _ => join (py " ") kept end)
    by reflexivity.
  destruct kept as [|w kept'] eqn:K.
  - rewrite E. repeat split; try reflexivity; try constructor.
    unfold remove_stop_words. fold kept. now rewrite K.
  - split; [rewrite E; now apply PyStrMoreFacts.split_ws_join|].
    split; [discriminate|]. split; [exact Hstop|].
    rewrite E. unfold remove_stop_words at 1.
    rewrite PyStrMoreFacts.lower_join, Hl.
    change (lower (py " ")) with (py " ").
    rewrite (PyStrMoreFacts.split_ws_join _ Hw).
    unfold kept in K. rewrite <- K, PyStrMoreFacts.filter_idem, K. reflexivity.
Qed.

(** X3. [generate_query_variations] always returns, the query first; at
    most [num_variations] entries follow it; none of them is empty, is the
    query itself, or starts with a list marker (a digit from 1 to 9, a dot,
    a dash, a closing parenthesis or a space); a model that fails leaves
    the query alone. *)
Theorem generate_query_variations_shape (llm : model) (query : str)
    (num_variations : nat) :
  exists rest,
    generate_query_variations llm query num_variations = Ok (query :: rest) /\
    (length rest <= num_variations)%nat /\
    Forall (fun v => v <> [] /\ v <> query /\
                     match v with
                     | c :: _ => mem_char c (py "123456789.-) ") = false
                     | [] => True
                     end) rest /\
    (raises (llm (VariationsPrompt query num_variations)) = true -> rest = []).
Proof.
  unfold generate_query_variations.
  destruct (llm (VariationsPrompt query num_variations)) as [content|e]; cbn.
  - eexists. split; [reflexivity|]. split.
    + etransitivity; [apply PyStrMoreFacts.filter_length_le|].
      rewrite length_firstn. lia.
    + split; [|discriminate].
      apply List.Forall_forall. intros v Hv.
      apply filter_In in Hv as [Hin Hv].
      apply andb_true_iff in Hv as [Hne Hq].
      split; [now destruct v|].
      split; [apply negb_true_iff in Hq; now apply PyStrMoreFacts.eqs_neq|].
      apply PyStrMoreFacts.In_firstn, in_map_iff in Hin as (u & <- & _).
      apply (PyStrMoreFacts.lstrip_by_head
               (fun c => mem_char c (py "123456789.-) "))).
  - exists []. split; [reflexivity|]. split; [cbn; lia|].
    split; [constructor|reflexivity].
Qed.

(** *** Facts on the classifier *)

(** X4. Whatever the model answers, [classify_query] routes the query to
    at least one of the two engines, to both exactly when the type is
    [hybrid]; the type is one of the three values of [QueryType]; the method
    and the confidence go together; and when the keywords do not decide and
    the model fails, the query goes to the documents alone. *)
Theorem classify_query_routes (llm : model) (query : str)
    (tables : option (list str)) :
  let c := classify_query llm query tables in
  requires_sql c || requires_rag c = true /\
  (requires_sql c && requires_rag c = true <-> query_type c = py "hybrid") /\
  List.In (query_type c) [py "structured_sql"; py "semantic_rag"; py "hybrid"] /\
  ((classification_method c = py "keyword" /\ confidence c = py "high") \/
   (classification_method c = py "llm" /\ confidence c = py "medium")) /\
  (_keyword_based_classification query = None ->
   raises (llm (ClassifyPrompt query (available_tables c))) = true ->
   query_type c = py "semantic_rag" /\
   requires_sql c = false /\ requires_rag c = true).
Proof.
  intros c. unfold c, classify_query.
  destruct (_keyword_based_classification query) as [t|] eqn:K.
  - destruct t; cbn; (split; [reflexivity|]); (split; [split; (discriminate || reflexivity)|]);
      (split; [tauto|]); (split; [left; now split|discriminate]).
  - cbn [query_type classification_method confidence requires_sql requires_rag
         available_tables].
    unfold _llm_based_classification.
    set (tl := match tables with Some (t :: ts) => t :: ts | _ => [] end).
    destruct (llm (ClassifyPrompt query tl)) as [content|e]; cbn [raises].
    + destruct (contains (py "STRUCTURED_SQL") (upper (strip content)));
        [|destruct (contains (py "SEMANTIC_RAG") (upper (strip content)));
          [|destruct (contains (py "HYBRID") (upper (strip content)))]];
        cbn; (split; [reflexivity|]);
        (split; [split; (discriminate || reflexivity)|]);
        (split; [tauto|]); (split; [right; now split|discriminate]).
    + cbn. split; [reflexivity|]. split; [split; discriminate|].
      split; [tauto|]. split; [right; now split|]. now intros _ _.
Qed.

(** X5. [suggest_table] answers [None] exactly when there is no table;
    otherwise it answers one of the tables, whatever the model says: the
    only table when there is one, and the first table when the model fails
    or its reply is blank. *)
Theorem suggest_table_picks_available (llm : further_model) (query : str)
    (tables : list str) :
  (suggest_table llm query tables = None <-> tables = []) /\
  (forall t, suggest_table llm query tables = Some t -> List.In t tables) /\
  (forall t, tables = [t] -> suggest_table llm query tables = Some t) /\
  (raises (llm (SuggestTablePrompt query tables)) = true ->
   suggest_table llm query tables = hd_error tables) /\
  (forall content, llm (SuggestTablePrompt query tables) = Ok content ->
     strip content = [] -> suggest_table llm query tables = hd_error tables).
Proof.
  destruct tables as [|t1 [|t2 rest]].
  - cbn. repeat split; try discriminate; try reflexivity; auto.
  - cbn. split; [split; discriminate|].
    split; [intros t [= <-]; now left|].
    split; [now intros t [= <-]|]. split; reflexivity.
  - unfold suggest_table.
    set (tables := t1 :: t2 :: rest).
    destruct (llm (SuggestTablePrompt query tables)) as [content|e] eqn:L.
    + set (matching := fun table : str =>
             contains (lower table) (lower (strip content))
             || contains (lower (strip content)) (lower table)).
      destruct (List.find matching tables) as [t|] eqn:F.
      * split; [split; discriminate|].
        split; [intros u [= <-]; now apply (find_some _ _ F)|].
        split; [discriminate|]. split; [discriminate|].
        intros content' [= <-] Hblank.
        assert (M : matching t1 = true).
        { unfold matching. rewrite Hblank.
          rewrite (PyStrFacts.contains_unfold (lower []) (lower t1)).
          cbn. apply orb_true_r. }
        unfold tables in F. cbn [List.find] in F. rewrite M in F.
        symmetry. exact F.
      * split; [split; discriminate|].
        split; [intros u [= <-]; now left|].
        split; [discriminate|]. split; [discriminate|]. reflexivity.
    + split; [split; discriminate|].
      split; [intros u [= <-]; now left|].
      split; [discriminate|]. split; reflexivity.
Qed.

(** *** Facts on the optimised queries *)

Module EnhancerMoreFacts.

Lemma expand_acronyms_nonempty query :
  split_ws query <> [] -> expand_acronyms query <> [].
Proof.
  intros H. unfold expand_acronyms. apply PyStrMoreFacts.join_nonempty.
  - destruct (split_ws query); [congruence|discriminate].
  - apply List.Forall_forall. intros w Hw.
    apply in_map_iff in Hw as (u & <- & Hu).
    pose proof (PyStrMoreFacts.split_ws_word_list query) as Hall.
    rewrite List.Forall_forall in Hall. destruct (Hall u Hu) as [Hne _].
    destruct (dict_get acronym_dict (upper (strip_chars punctuation u))).
    + intros E. apply app_eq_nil in E as [_ E]. discriminate.
    + exact Hne.
Qed.

End EnhancerMoreFacts.

(** X6. [optimize_for_sql] and [optimize_for_semantic] never give an
    empty query for a query that is not empty (that has a word, for the
    second): a model that fails, or whose reply is blank, gives way to the
    query, or to the query with its acronyms expanded. *)
Theorem optimized_queries_fall_back (llm : further_model) (query : str) :
  (query <> [] -> optimize_for_sql llm query <> []) /\
  (split_ws query <> [] -> optimize_for_semantic llm query <> []) /\
  (raises (llm (SqlFriendlyPrompt query)) = true ->
   optimize_for_sql llm query = query) /\
  (raises (llm (SemanticPrompt query)) = true ->
   optimize_for_semantic llm query = expand_acronyms query) /\
  (forall content, strip content = [] ->
     (llm (SqlFriendlyPrompt query) = Ok content ->
      optimize_for_sql llm query = query) /\
     (llm (SemanticPrompt query) = Ok content ->
      optimize_for_semantic llm query = expand_acronyms query)).
Proof.
  unfold optimize_for_sql, optimize_for_semantic.
  split; [|split; [|split; [|split]]].
  - intros Hq. destruct (llm (SqlFriendlyPrompt query)) as [content|e]; [|exact Hq].
    destruct (strip content) eqn:E; cbn; [exact Hq|discriminate].
  - intros Hq. pose proof (EnhancerMoreFacts.expand_acronyms_nonempty query Hq) as He.
    destruct (llm (SemanticPrompt query)) as [content|e]; [|exact He].
    destruct (strip content) eqn:E; cbn; [exact He|discriminate].
  - destruct (llm (SqlFriendlyPrompt query)); [discriminate|reflexivity].
  - destruct (llm (SemanticPrompt query)); [discriminate|reflexivity].
  - intros content Hblank. split; intros ->; now rewrite Hblank.
Qed.

(** *** Facts on the reading of the SQL intent *)

Module ClassifierMoreFacts.

Lemma eqc_sym a b : eqc a b = eqc b a.
Proof. unfold eqc. apply Ascii.eqb_sym. Qed.

Lemma mem_char_app c a b : mem_char c (a ++ b) = mem_char c a || mem_char c b.
Proof. unfold mem_char. apply existsb_app. Qed.

Lemma split_char_whole sep a : mem_char sep a = false -> split_char sep a = [a].
Proof.
  induction a as [|c a IH]; cbn; [reflexivity|].
  rewrite (eqc_sym c sep). intros H. apply orb_false_iff in H as [-> H].
  now rewrite (IH H).
Qed.

Lemma split_char_app sep a b :
  mem_char sep a = false -> split_char sep (a ++ sep :: b) = a :: split_char sep b.
Proof.
  induction a as [|c a IH]; cbn.
  - intros _. now rewrite PyStrFacts.eqc_refl.
  - rewrite (eqc_sym c sep). intros H. apply orb_false_iff in H as [-> H].
    now rewrite (IH H).
Qed.

Lemma split_char_line sep a b :
  mem_char sep a = false ->
  split_char sep (a ++ [sep] ++ b) = a :: split_char sep b.
Proof. apply split_char_app. Qed.

Lemma strip_ended c r :
  isspace c = false -> ends_in_text r = true -> strip (c :: r) = c :: r.
Proof.
  intros Hc Hr. unfold strip. cbn [lstrip_by]. rewrite Hc.
  apply PyStrFacts.rstrip_by_last. intros s' c' E.
  unfold ends_in_text in Hr. destruct (rev r) as [|x t] eqn:R; [discriminate|].
  apply negb_true_iff in Hr.
  assert (Er : r = rev t ++ [x]).
  { rewrite <- (rev_involutive r), R. reflexivity. }
  rewrite Er, app_comm_cons in E. apply app_inj_tail in E as [_ ->]. exact Hr.
Qed.

Lemma ends_in_text_app a b : ends_in_text b = true -> ends_in_text (a ++ b) = true.
Proof.
  unfold ends_in_text. rewrite rev_app_distr.
  destruct (rev b); [discriminate|]. now cbn.
Qed.

Lemma read_operation intent op :
  read_line intent (py "Operation: " ++ op) =
  {| operation := strip op; columns := columns intent;
     conditions := conditions intent; aggregation := aggregation intent |}.
Proof. reflexivity. Qed.

Lemma read_columns intent cols :
  read_line intent (py "Columns: " ++ cols) =
  if eqs (upper (strip cols)) (py "UNKNOWN") then intent
  else {| operation := operation intent;
          columns := map strip (split_char "," (strip cols));
          conditions := conditions intent; aggregation := aggregation intent |}.
Proof.
  unfold read_line.
  change (startswith (py "Operation:") (py "Columns: " ++ cols)) with false.
  change (startswith (py "Columns:") (py "Columns: " ++ cols)) with true.
  change (strip (after_colon (py "Columns: " ++ cols))) with (strip cols).
  cbv iota. now destruct (eqs (upper (strip cols)) (py "UNKNOWN")).
Qed.

Lemma read_conditions intent cond :
  read_line intent (py "Conditions: " ++ cond) =
  if eqs (upper (strip cond)) (py "NONE") then intent
  else {| operation := operation intent; columns := columns intent;
          conditions := Some (strip cond); aggregation := aggregation intent |}.
Proof.
  unfold read_line.
  change (startswith (py "Operation:") (py "Conditions: " ++ cond)) with false.
  change (startswith (py "Columns:") (py "Conditions: " ++ cond)) with false.
  change (startswith (py "Conditions:") (py "Conditions: " ++ cond)) with true.
  change (strip (after_colon (py "Conditions: " ++ cond))) with (strip cond).
  cbv iota. now destruct (eqs (upper (strip cond)) (py "NONE")).
Qed.

Lemma read_aggregation intent agg :
  read_line intent (py "Aggregation: " ++ agg) =
  if eqs (upper (strip agg)) (py "NONE") then intent
  else {| operation := operation intent; columns := columns intent;
          conditions := conditions intent; aggregation := Some (strip agg) |}.
Proof.
  unfold read_line.
  change (startswith (py "Operation:") (py "Aggregation: " ++ agg)) with false.
  change (startswith (py "Columns:") (py "Aggregation: " ++ agg)) with false.
  change (startswith (py "Conditions:") (py "Aggregation: " ++ agg)) with false.
  change (startswith (py "Aggregation:") (py "Aggregation: " ++ agg)) with true.
  change (strip (after_colon (py "Aggregation: " ++ agg))) with (strip agg).
  cbv iota. now destruct (eqs (upper (strip agg)) (py "NONE")).
Qed.

Lemma one_line_label (label : string) s :
  one_line (py label) = true -> one_line s = true ->
  mem_char Enhancer.newline (py label ++ s) = false.
Proof.
  unfold one_line. rewrite !negb_true_iff, mem_char_app. now intros -> ->.
Qed.

(** The lines of the reply. *)
Lemma intent_reply_lines op cols cond agg :
  one_line op = true -> one_line cols = true -> one_line cond = true ->
  one_line agg = true -> ends_in_text agg = true ->
  split_char Enhancer.newline (strip (intent_reply op cols cond agg)) =
  [py "Operation: " ++ op; py "Columns: " ++ cols;
   py "Conditions: " ++ cond; py "Aggregation: " ++ agg].
Proof.
  intros Hop Hcols Hcond Hagg Hend.
  assert (S : strip (intent_reply op cols cond agg) = intent_reply op cols cond agg).
  { unfold intent_reply.
    change (py "Operation: " ++ ?x) with ("O"%char :: (py "peration: " ++ x)).
    apply strip_ended; [reflexivity|].
    rewrite !app_assoc. apply ends_in_text_app. exact Hend. }
  rewrite S. unfold intent_reply.
  rewrite (app_assoc (py "Operation: ") op).
  rewrite split_char_line by (now apply one_line_label).
  rewrite (app_assoc (py "Columns: ") cols).
  rewrite split_char_line by (now apply one_line_label).
  rewrite (app_assoc (py "Conditions: ") cond).
  rewrite split_char_line by (now apply one_line_label).
  rewrite split_char_whole by (now apply one_line_label).
  reflexivity.
Qed.

End ClassifierMoreFacts.

(** X7. [extract_sql_intent] reads the reply the prompt asks for: for a
    reply of the four lines [Operation:], [Columns:], [Conditions:] and
    [Aggregation:], each field on one line, the intent holds the fields
    without their outer whitespace, the columns split at the commas, no
    column for [UNKNOWN] and no condition or aggregation for [NONE], in any
    letter case; a model that fails gives the intent [UNKNOWN] with no
    column, condition or aggregation. *)
Theorem extract_sql_intent_reads_reply (llm : further_model) (query : str) :
  (raises (llm (SqlIntentPrompt query)) = true ->
   extract_sql_intent llm query = unknown_intent) /\
  (forall op cols cond agg,
     llm (SqlIntentPrompt query) = Ok (intent_reply op cols cond agg) ->
     one_line op = true -> one_line cols = true -> one_line cond = true ->
     one_line agg = true -> ends_in_text agg = true ->
     extract_sql_intent llm query =
     {| operation := strip op;
        columns := if eqs (upper (strip cols)) (py "UNKNOWN") then []
                   else map strip (split_char "," (strip cols));
        conditions := if eqs (upper (strip cond)) (py "NONE") then None
                      else Some (strip cond);
        aggregation := if eqs (upper (strip agg)) (py "NONE") then None
                       else Some (strip agg) |}).
Proof.
  unfold extract_sql_intent. split.
  - destruct (llm (SqlIntentPrompt query)); [discriminate|reflexivity].
  - intros op cols cond agg -> Hop Hcols Hcond Hagg Hend.
    rewrite ClassifierMoreFacts.intent_reply_lines by assumption.
    cbn [fold_left].
    rewrite ClassifierMoreFacts.read_operation, ClassifierMoreFacts.read_columns,
      ClassifierMoreFacts.read_conditions, ClassifierMoreFacts.read_aggregation.
    destruct (eqs (upper (strip cols)) (py "UNKNOWN"));
      destruct (eqs (upper (strip cond)) (py "NONE"));
      destruct (eqs (upper (strip agg)) (py "NONE")); reflexivity.
Qed.

Lemma extract_sql_intent_reads_reply_witness :
  extract_sql_intent
    (fun _ => Ok (intent_reply (py "COUNT") (py "state, provider") (py "none")
                    (py "COUNT(*)")))
    (py "How many providers are in NSW?") =
  {| operation := py "COUNT"; columns := [py "state"; py "provider"];
     conditions := None; aggregation := Some (py "COUNT(*)") |}.
Proof.
  exact (proj2 (extract_sql_intent_reads_reply
                  (fun _ => Ok (intent_reply (py "COUNT") (py "state, provider")
                                  (py "none") (py "COUNT(*)")))
                  (py "How many providers are in NSW?"))
               (py "COUNT") (py "state, provider") (py "none") (py "COUNT(*)")
               eq_refl eq_refl eq_refl eq_refl eq_refl eq_refl).
Defined.

(** *** Facts on the decomposition of a query *)

Module DecomposeFacts.

Lemma strip_Forall (P : ascii -> Prop) s : Forall P s -> Forall P (strip s).
Proof.
  intros H. unfold strip, rstrip_by.
  apply List.Forall_rev, SQLNamesFacts.lstrip_by_Forall, List.Forall_rev.
  now apply SQLNamesFacts.lstrip_by_Forall.
Qed.

Lemma strip_trimmed s : trimmed (strip s).
Proof.
  unfold trimmed, strip. split.
  - pose proof (PyStrMoreFacts.lstrip_by_head isspace s) as H.
    destruct (lstrip_by isspace s) as [|c l]; [exact I|].
    change (c :: l) with ([] ++ c :: l).
    rewrite (PyStrFacts.rstrip_by_keep isspace [] c l H). exact H.
  - unfold rstrip_by. rewrite rev_involutive.
    apply PyStrMoreFacts.lstrip_by_head.
Qed.

Lemma mem_char_Forall c s :
  Forall (fun x => eqc x c = false) s -> mem_char c s = false.
Proof.
  induction 1 as [|x s Hx _ IH]; cbn; [reflexivity|].
  now rewrite (ClassifierMoreFacts.eqc_sym c x), Hx.
Qed.

(** No piece of the split holds a question mark. *)
Lemma re_split_aux_pieces s : forall prev skip cur,
  Forall (fun x => eqc x "?" = false) cur ->
  Forall (Forall (fun x => eqc x "?" = false)) (re_split_aux prev skip cur s).
Proof.
  induction s as [|c s IH]; intros prev skip cur Hcur; cbn [re_split_aux].
  - constructor; [now apply List.Forall_rev|constructor].
  - destruct skip as [|k]; [|now apply IH].
    destruct (eqc c "?") eqn:E.
    + constructor; [now apply List.Forall_rev|]. apply IH. constructor.
    + destruct (matches_word (py "and") prev (c :: s)).
      * constructor; [now apply List.Forall_rev|]. apply IH. constructor.
      * destruct (matches_word (py "or") prev (c :: s)).
        -- constructor; [now apply List.Forall_rev|]. apply IH. constructor.
        -- apply IH. now constructor.
Qed.

End DecomposeFacts.

Example decompose_two_questions :
  decompose_complex_query (py "What are the fees for android courses? and who are the providers or agents?")
  = [py "What are the fees for android courses"; py "who are the providers";
     py "agents"].
Proof. reflexivity. Qed.

(** X8. [decompose_complex_query] never returns an empty list; a query
    without a question mark comes back alone; and the result is either the
    query alone or at least two sub-queries, none of them empty, none with
    whitespace at either end, none with a question mark. *)
Theorem decompose_complex_query_shape (query : str) :
  let r := decompose_complex_query query in
  r <> [] /\
  (mem_char "?" query = false -> r = [query]) /\
  (r = [query] \/
   ((2 <= length r)%nat /\
    Forall (fun q => q <> [] /\ trimmed q /\ mem_char "?" q = false) r)).
Proof.
  intros r. unfold r, decompose_complex_query.
  destruct (mem_char "?" query) eqn:M; cbn [negb].
  2:{ split; [discriminate|]. split; [reflexivity|now left]. }
  set (sub := map strip (List.filter (fun q => nonempty (strip q)) (re_split query))).
  destruct (length sub <=? 1)%nat eqn:L.
  - split; [discriminate|]. split; [discriminate|now left].
  - apply Nat.leb_gt in L. split; [destruct sub; [cbn in L; lia|discriminate]|].
    split; [discriminate|]. right. split; [lia|].
    apply List.Forall_forall. intros q Hq.
    apply in_map_iff in Hq as (p & <- & Hp). apply filter_In in Hp as [Hp Hne].
    split; [now destruct (strip p)|]. split; [apply DecomposeFacts.strip_trimmed|].
    apply DecomposeFacts.mem_char_Forall, DecomposeFacts.strip_Forall.
    pose proof (DecomposeFacts.re_split_aux_pieces query None 0 []
                  (List.Forall_nil _)) as H.
    rewrite List.Forall_forall in H. now apply H.
Qed.

(** *** Facts on the tables of the SQL engine *)

Module SQLEngineMoreFacts.

Lemma set_table_consistent e name df :
  consistent e -> consistent (set_table e name df (_get_schema df)).
Proof.
  intros H other. cbn. destruct (decide (name = other)) as [->|Hne].
  - now rewrite !lookup_insert_eq.
  - rewrite !lookup_insert_ne by exact Hne. apply H.
Qed.

Section Files.

Variable path_exists : str -> bool.
Variable listdir : str -> list str.
Variable read_csv : str -> str -> option DataFrame.

Lemma load_one_consistent dir st filename :
  consistent (fst st) -> consistent (fst (load_one read_csv dir st filename)).
Proof.
  destruct st as [e n]. unfold load_one. intros H.
  destruct (endswith (py ".csv") (lower filename)); [|exact H].
  destruct (dataframes e !! _sanitize_table_name filename); [exact H|].
  destruct (_read_csv_with_encoding read_csv (path_join dir filename)); [|exact H].
  now apply set_table_consistent.
Qed.

(** The counter grows by one exactly when a table is added. *)
Lemma load_one_count dir st filename :
  let r := load_one read_csv dir st filename in
  (size (dataframes (fst r)) + snd st = size (dataframes (fst st)) + snd r)%nat.
Proof.
  destruct st as [e n]. unfold load_one.
  destruct (endswith (py ".csv") (lower filename)); [|reflexivity].
  destruct (dataframes e !! _sanitize_table_name filename) eqn:L; [reflexivity|].
  destruct (_read_csv_with_encoding read_csv (path_join dir filename)); [|reflexivity].
  cbn. rewrite map_size_insert_None by exact L. lia.
Qed.

Lemma load_files_consistent dir files : forall st,
  consistent (fst st) ->
  consistent (fst (fold_left (load_one read_csv dir) files st)).
Proof.
  induction files as [|f files IH]; intros st H; [exact H|].
  cbn [fold_left]. apply IH. now apply load_one_consistent.
Qed.

Lemma load_files_count dir files : forall st,
  let r := fold_left (load_one read_csv dir) files st in
  (size (dataframes (fst r)) + snd st = size (dataframes (fst st)) + snd r)%nat.
Proof.
  induction files as [|f files IH]; intros st; [reflexivity|].
  cbn [fold_left]. cbv zeta.
  pose proof (IH (load_one read_csv dir st f)) as H1.
  pose proof (load_one_count dir st f) as H2. cbv zeta in H1, H2. lia.
Qed.

Lemma load_directory_consistent st dir :
  consistent (fst st) ->
  consistent (fst (load_directory path_exists listdir read_csv st dir)).
Proof.
  destruct st as [e n]. unfold load_directory. intros H.
  destruct (path_exists dir); [|exact H].
  pose proof (load_files_consistent dir (listdir dir) (e, 0%nat) H) as H'.
  now destruct (fold_left (load_one read_csv dir) (listdir dir) (e, 0%nat)).
Qed.

Lemma load_directory_count st dir :
  let r := load_directory path_exists listdir read_csv st dir in
  (size (dataframes (fst r)) + snd st = size (dataframes (fst st)) + snd r)%nat.
Proof.
  destruct st as [e n]. unfold load_directory.
  destruct (path_exists dir); [|reflexivity].
  pose proof (load_files_count dir (listdir dir) (e, 0%nat)) as H. cbv zeta in H.
  destruct (fold_left (load_one read_csv dir) (listdir dir) (e, 0%nat)) as [e' c].
  cbn in *. lia.
Qed.

Lemma load_directories_consistent dirs : forall st,
  consistent (fst st) ->
  consistent (fst (fold_left (load_directory path_exists listdir read_csv) dirs st)).
Proof.
  induction dirs as [|d dirs IH]; intros st H; [exact H|].
  cbn [fold_left]. apply IH. now apply load_directory_consistent.
Qed.

Lemma load_directories_count dirs : forall st,
  let r := fold_left (load_directory path_exists listdir read_csv) dirs st in
  (size (dataframes (fst r)) + snd st = size (dataframes (fst st)) + snd r)%nat.
Proof.
  induction dirs as [|d dirs IH]; intros st; [reflexivity|].
  cbn [fold_left]. cbv zeta.
  pose proof (IH (load_directory path_exists listdir read_csv st d)) as H1.
  pose proof (load_directory_count st d) as H2. cbv zeta in H1, H2. lia.
Qed.

(** A table that is there stays there. *)
Lemma load_one_present dir st filename name :
  is_Some (dataframes (fst st) !! name) ->
  is_Some (dataframes (fst (load_one read_csv dir st filename)) !! name).
Proof.
  destruct st as [e n]. intros [df H].
  exists df. apply (CsvLoadingFacts.load_one_holds read_csv name df
                      (table_schemas e !! name) dir e n filename).
  now split.
Qed.

Lemma load_files_present dir files name : forall st,
  is_Some (dataframes (fst st) !! name) ->
  is_Some (dataframes (fst (fold_left (load_one read_csv dir) files st)) !! name).
Proof.
  induction files as [|f files IH]; intros st H; [exact H|].
  cbn [fold_left]. apply IH. now apply load_one_present.
Qed.

Lemma load_directory_present st dir name :
  is_Some (dataframes (fst st) !! name) ->
  is_Some (dataframes (fst (load_directory path_exists listdir read_csv st dir)) !! name).
Proof.
  destruct st as [e n]. unfold load_directory. intros H.
  destruct (path_exists dir); [|exact H].
  pose proof (load_files_present dir (listdir dir) name (e, 0%nat) H) as H'.
  now destruct (fold_left (load_one read_csv dir) (listdir dir) (e, 0%nat)).
Qed.

Lemma load_directories_present dirs name : forall st,
  is_Some (dataframes (fst st) !! name) ->
  is_Some (dataframes
             (fst (fold_left (load_directory path_exists listdir read_csv) dirs st))
           !! name).
Proof.
  induction dirs as [|d dirs IH]; intros st H; [exact H|].
  cbn [fold_left]. apply IH. now apply load_directory_present.
Qed.

(** A file that can be read has its table after its round. *)
Lemma load_one_loads dir st filename df :
  endswith (py ".csv") (lower filename) = true ->
  _read_csv_with_encoding read_csv (path_join dir filename) = Some df ->
  is_Some (dataframes (fst (load_one read_csv dir st filename))
           !! _sanitize_table_name filename).
Proof.
  destruct st as [e n]. unfold load_one. intros -> ->.
  destruct (dataframes e !! _sanitize_table_name filename) eqn:L.
  - cbn. rewrite L. eauto.
  - cbn. rewrite lookup_insert_eq. eauto.
Qed.

End Files.

End SQLEngineMoreFacts.

(** X9. The two dictionaries of the SQL engine always agree: on a new
    engine, and after [load_all_csv_files], [add_csv_file] and
    [reload_csv_files], a table has a schema exactly when it has a frame,
    and the schema is the one computed from the frame.  So
    [get_table_schema] never raises: for a loaded table it gives the number
    of rows of the frame and the schema of the frame, for another name the
    error [Table '...' not found], and without a name the same for every
    loaded table. *)
Theorem engine_tables_consistent
    (path_exists : str -> bool) (listdir : str -> list str)
    (read_csv : str -> str -> option DataFrame) :
  (forall dirs, consistent (init path_exists listdir read_csv dirs)) /\
  (forall e, consistent (fst (reload_csv_files path_exists listdir read_csv e))) /\
  (forall e, consistent e ->
     consistent (fst (load_all_csv_files path_exists listdir read_csv e)) /\
     (forall file_path table_name,
        consistent (fst (add_csv_file read_csv e file_path table_name))) /\
     (forall name, name <> [] ->
        get_table_schema e (Some name) =
        Ok (match dataframes e !! name with
            | Some df => TableSchema name (length (df_rows df)) (_get_schema df)
            | None => SchemaError (py "Table '" ++ name ++ py "' not found")
            end)) /\
     (exists schemas,
        get_table_schema e None = Ok (AllSchemas schemas) /\
        forall name,
          schemas !! name =
          (fun df => (length (df_rows df), _get_schema df)) <$> dataframes e !! name)).
Proof.
  assert (Hempty : forall dirs,
            consistent {| csv_directories := dirs; dataframes := ∅;
                          table_schemas := ∅ |}).
  { intros dirs name. cbn. now rewrite !lookup_empty. }
  split; [|split].
  - intros dirs. unfold init, load_all_csv_files.
    apply SQLEngineMoreFacts.load_directories_consistent. apply Hempty.
  - intros e. unfold reload_csv_files, load_all_csv_files.
    apply SQLEngineMoreFacts.load_directories_consistent. apply Hempty.
  - intros e H. split; [|split; [|split]].
    + unfold load_all_csv_files.
      now apply SQLEngineMoreFacts.load_directories_consistent.
    + intros file_path table_name. unfold add_csv_file.
      destruct (_read_csv_with_encoding read_csv file_path); [|exact H].
      now apply SQLEngineMoreFacts.set_table_consistent.
    + intros [|c n] Hne; [congruence|]. cbn [get_table_schema].
      rewrite (H (c :: n)). now destruct (dataframes e !! (c :: n)).
    + eexists. split.
      * cbn [get_table_schema].
        destruct (List.find _ (map fst (map_to_list (table_schemas e))))
          as [name|] eqn:F; [|reflexivity].
        exfalso. apply find_some in F as [Hin Hno].
        apply in_map_iff in Hin as ([name' cols] & <- & Hin).
        apply list_elem_of_In, elem_of_map_to_list in Hin. cbn in Hno.
        rewrite (H name') in Hin.
        destruct (dataframes e !! name') as [df|] eqn:D; [|discriminate].
        apply negb_true_iff, bool_decide_eq_false in Hno. apply Hno.
        eauto.
      * intros name. rewrite map_lookup_imap, (H name).
        now destruct (dataframes e !! name).
Qed.

(** X10. [load_all_csv_files] returns the number of tables it added: the
    engine has that many tables more than before; and [reload_csv_files]
    returns the number of tables of the engine afterwards. *)
Theorem load_all_csv_files_counts_new_tables
    (path_exists : str -> bool) (listdir : str -> list str)
    (read_csv : str -> str -> option DataFrame) (e : Engine) :
  (let r := load_all_csv_files path_exists listdir read_csv e in
   size (dataframes (fst r)) = (size (dataframes e) + snd r)%nat) /\
  (let r := reload_csv_files path_exists listdir read_csv e in
   snd r = size (dataframes (fst r))).
Proof.
  split; cbv zeta.
  - pose proof (SQLEngineMoreFacts.load_directories_count path_exists listdir
                  read_csv (csv_directories e) (e, 0%nat)) as H.
    cbv zeta in H. cbn [fst snd] in H. unfold load_all_csv_files. lia.
  - unfold reload_csv_files, load_all_csv_files. cbn [csv_directories].
    match goal with |- context [fold_left ?f ?l ?st] =>
      pose proof (SQLEngineMoreFacts.load_directories_count path_exists listdir
                    read_csv l st) as H end.
    cbv zeta in H. cbn [fst snd dataframes] in H.
    rewrite map_size_empty in H. lia.
Qed.

(** X11. After [load_all_csv_files], every file of an existing directory of
    the engine whose name ends in [.csv], in any letter case, and that one
    of the encodings reads, has a table under its sanitized name. *)
Theorem load_all_csv_files_loads_every_file
    (path_exists : str -> bool) (listdir : str -> list str)
    (read_csv : str -> str -> option DataFrame) (e : Engine)
    (csv_directory filename : str) (df : DataFrame) :
  List.In csv_directory (csv_directories e) ->
  path_exists csv_directory = true ->
  List.In filename (listdir csv_directory) ->
  endswith (py ".csv") (lower filename) = true ->
  _read_csv_with_encoding read_csv (path_join csv_directory filename) = Some df ->
  is_Some (dataframes (fst (load_all_csv_files path_exists listdir read_csv e))
           !! _sanitize_table_name filename).
Proof.
  intros Hdir Hex Hfile Hcsv Hread. unfold load_all_csv_files.
  apply in_split in Hdir as (d1 & d2 & ->).
  rewrite fold_left_app. cbn [fold_left].
  apply SQLEngineMoreFacts.load_directories_present.
  destruct (fold_left (load_directory path_exists listdir read_csv) d1 (e, 0%nat))
    as [e1 n1].
  unfold load_directory. rewrite Hex.
  apply in_split in Hfile as (f1 & f2 & ->).
  rewrite fold_left_app. cbn [fold_left].
  pose proof (SQLEngineMoreFacts.load_files_present read_csv csv_directory f2
                (_sanitize_table_name filename)
                (load_one read_csv csv_directory
                   (fold_left (load_one read_csv csv_directory) f1 (e1, 0%nat))
                   filename)
                (SQLEngineMoreFacts.load_one_loads read_csv csv_directory _
                   filename df Hcsv Hread)) as H.
  now destruct (fold_left (load_one read_csv csv_directory) f2 _).
Qed.

Lemma load_all_csv_files_loads_every_file_witness :
  is_Some (dataframes
             (fst (load_all_csv_files (fun _ => true) (fun _ => [py "Providers.CSV"])
                     (fun _ _ => Some (numbered_table 2))
                     {| csv_directories := [py "./pdfs"]; dataframes := ∅;
                        table_schemas := ∅ |}))
           !! _sanitize_table_name (py "Providers.CSV")).
Proof.
  apply (load_all_csv_files_loads_every_file (fun _ => true)
           (fun _ => [py "Providers.CSV"]) (fun _ _ => Some (numbered_table 2))
           {| csv_directories := [py "./pdfs"]; dataframes := ∅; table_schemas := ∅ |}
           (py "./pdfs") (py "Providers.CSV") (numbered_table 2)).
  - left; reflexivity.
  - reflexivity.
  - left; reflexivity.
  - reflexivity.
  - reflexivity.
Defined.

(** *** Facts on the fused results *)

Module RetrieverMoreFacts.

Local Open Scope Q_scope.

Lemma in_table_In table id :
  in_table table id = true <-> List.In id (map fst table).
Proof.
  unfold in_table. induction table as [|[id' e] rest IH]; cbn.
  - split; [discriminate|tauto].
  - destruct (Nat.eqb_spec id id') as [->|E].
    + split; [now left|reflexivity].
    + rewrite IH. split; [now right|]. intros [H|H]; [congruence|exact H].
Qed.

Lemma add_rrf_keys d x key s table :
  map fst (add_rrf d x key s table) =
  if in_table table (doc_id d) then map fst table
  else map fst table ++ [doc_id d].
Proof.
  unfold in_table. induction table as [|[id' e] rest IH]; cbn; [reflexivity|].
  destruct (Nat.eqb_spec (doc_id d) id') as [E|E]; cbn; [reflexivity|].
  rewrite IH. now destruct (table_get rest (doc_id d)).
Qed.

Lemma add_rrf_well_keyed d x key s table :
  well_keyed table -> well_keyed (add_rrf d x key s table).
Proof.
  intros [Hnd Hk]. split.
  - rewrite add_rrf_keys. destruct (in_table table (doc_id d)) eqn:E; [exact Hnd|].
    apply NoDup_app. split; [exact Hnd|]. split; [|apply NoDup_singleton].
    intros y Hy Hy'. apply list_elem_of_singleton in Hy'. subst y.
    apply list_elem_of_In, in_table_In in Hy. congruence.
  - clear Hnd. induction Hk as [|[id' e] rest Hp Hrest IH]; cbn.
    + constructor; [reflexivity|constructor].
    + destruct (doc_id d =? id')%nat; constructor;
        [exact Hp|exact Hrest|exact Hp|exact IH].
Qed.

Lemma add_ranked_well_keyed w key results : forall rank table,
  well_keyed table -> well_keyed (add_ranked w key rank results table).
Proof.
  induction results as [|[d s] rest IH]; intros rank table H; cbn; [exact H|].
  apply IH. now apply add_rrf_well_keyed.
Qed.

Lemma doc_scores_well_keyed sem kw w : well_keyed (doc_scores sem kw w).
Proof.
  unfold doc_scores. do 2 apply add_ranked_well_keyed.
  split; constructor.
Qed.

Lemma table_get_In table id e :
  NoDup (map fst table) -> List.In (id, e) table -> table_get table id = Some e.
Proof.
  induction table as [|[id' e'] rest IH]; cbn; [tauto|].
  intros Hnd [H|H].
  - injection H as -> ->. now rewrite Nat.eqb_refl.
  - apply NoDup_cons in Hnd as [Hnot Hnd].
    destruct (Nat.eqb_spec id id') as [->|E]; [|now apply IH].
    exfalso. apply Hnot. apply list_elem_of_In.
    change id' with (fst (id', e)). now apply in_map.
Qed.

(** An entry of a well keyed table is found under its document. *)
Lemma well_keyed_entry table e :
  well_keyed table -> List.In e (map snd table) ->
  table_get table (doc_id (doc e)) = Some e /\
  List.In (doc_id (doc e)) (map fst table).
Proof.
  intros [Hnd Hk] Hin. apply in_map_iff in Hin as ([id e'] & E & Hin).
  cbn in E. subst e'. rewrite List.Forall_forall in Hk.
  pose proof (Hk _ Hin) as Hid. cbn in Hid. rewrite Hid. split.
  - now apply table_get_In.
  - change id with (fst (id, e)). now apply in_map.
Qed.

Lemma well_keyed_ids table :
  well_keyed table -> map (fun e => doc_id (doc e)) (map snd table) = map fst table.
Proof.
  intros [_ Hk]. induction Hk as [|[id e] rest Hp _ IH]; cbn; [reflexivity|].
  cbn in Hp. now rewrite Hp, IH.
Qed.

Lemma slice_to_firstn {A} k (l : list A) :
  exists n, slice_to k l = firstn n l /\ ((0 <= k)%Z -> n = Z.to_nat k).
Proof.
  unfold slice_to. destruct (k <? 0)%Z eqn:E.
  - eexists. split; [reflexivity|]. apply Z.ltb_lt in E. lia.
  - eexists. split; reflexivity.
Qed.

(** The fused list: a prefix of the entries by decreasing score, each
    document with its fused score noted. *)
Lemma rrf_structure sem kw k w :
  exists n,
    reciprocal_rank_fusion sem kw k w =
    map (fun e => set_meta (py "rrf_score") (VFloat (score e)) (doc e))
        (firstn n (sort_desc score Qltb (map snd (doc_scores sem kw w)))) /\
    ((0 <= k)%Z -> n = Z.to_nat k).
Proof.
  unfold reciprocal_rank_fusion.
  destruct (slice_to_firstn k
              (map (fun item => {| doc := set_meta (py "rrf_score")
                                           (VFloat (score item)) (doc item);
                                   score := score item |})
                   (sort_desc score Qltb (map snd (doc_scores sem kw w)))))
    as (n & -> & Hn).
  exists n. split; [|exact Hn].
  rewrite firstn_map, map_map. reflexivity.
Qed.

Lemma lookup_map {A B} (f : A -> B) l i b :
  map f l !! i = Some b -> exists a, l !! i = Some a /\ b = f a.
Proof.
  revert i. induction l as [|x l IH]; intros [|i]; cbn; try discriminate.
  - intros [= <-]. now exists x.
  - apply IH.
Qed.

Lemma sorted_entry sem kw w n e :
  List.In e (firstn n (sort_desc score Qltb (map snd (doc_scores sem kw w)))) ->
  List.In e (map snd (doc_scores sem kw w)).
Proof.
  intros H. apply PyStrMoreFacts.In_firstn in H.
  exact (proj1 (PySortFacts.sort_desc_In score Qltb e _) H).
Qed.

Lemma rrf_ids sem kw k w :
  exists n ids,
    map doc_id (reciprocal_rank_fusion sem kw k w) = firstn n ids /\
    Permutation ids (map fst (doc_scores sem kw w)) /\
    ((0 <= k)%Z -> n = Z.to_nat k).
Proof.
  destruct (rrf_structure sem kw k w) as (n & E & Hn).
  exists n, (map (fun e => doc_id (doc e))
               (sort_desc score Qltb (map snd (doc_scores sem kw w)))).
  split; [|split; [|exact Hn]].
  - rewrite E, map_map, firstn_map. reflexivity.
  - rewrite <- (well_keyed_ids _ (doc_scores_well_keyed sem kw w)).
    apply Permutation_map, PySortFacts.sort_desc_perm.
Qed.

Lemma rrf_nodup sem kw k w :
  NoDup (map doc_id (reciprocal_rank_fusion sem kw k w)).
Proof.
  destruct (rrf_ids sem kw k w) as (n & ids & -> & Hperm & _).
  eapply sublist_NoDup; [|apply sublist_take].
  rewrite Hperm. apply doc_scores_well_keyed.
Qed.

Lemma rrf_length sem kw k w :
  (0 <= k)%Z ->
  (length (reciprocal_rank_fusion sem kw k w) <= Z.to_nat k)%nat.
Proof.
  intros Hk. destruct (rrf_structure sem kw k w) as (n & -> & Hn).
  rewrite length_map, length_firstn, (Hn Hk). lia.
Qed.

Lemma slice_to_nodup {A} (f : A -> nat) k (l : list A) :
  NoDup (map f l) -> NoDup (map f (slice_to k l)).
Proof.
  intros H. destruct (slice_to_firstn k l) as (n & -> & _).
  rewrite <- firstn_map. eapply sublist_NoDup; [exact H|apply sublist_take].
Qed.

Lemma slice_to_length {A} k (l : list A) :
  (0 <= k)%Z -> (length (slice_to k l) <= Z.to_nat k)%nat.
Proof.
  intros Hk. destruct (slice_to_firstn k l) as (n & -> & Hn).
  rewrite length_firstn, (Hn Hk). lia.
Qed.

Lemma slice_to_In {A} k (l : list A) x :
  List.In x (slice_to k l) -> List.In x l.
Proof.
  destruct (slice_to_firstn k l) as (n & -> & _). apply PyStrMoreFacts.In_firstn.
Qed.

Lemma map_fst_combine {A B} (l1 : list A) (l2 : list B) :
  map fst (combine l1 l2) = firstn (length l2) l1.
Proof.
  revert l2. induction l1 as [|a l1 IH]; intros [|b l2]; cbn; try reflexivity.
  now rewrite IH.
Qed.

End RetrieverMoreFacts.

(** X12. The documents [reciprocal_rank_fusion] returns are distinct,
    each of them is in one of the two lists of results, and for a [k] that
    is not negative there are [k] of them, or as many as there are distinct
    documents in the two lists when that is less; with a [k] that large,
    every document of the two lists is returned. *)
Theorem rrf_output_documents
    (semantic_results keyword_results : list (Document * Q))
    (k : Z) (semantic_weight : Q) :
  let out := reciprocal_rank_fusion semantic_results keyword_results k
               semantic_weight in
  let table := doc_scores semantic_results keyword_results semantic_weight in
  NoDup (map doc_id out) /\
  (forall d, List.In d out ->
     occurs (doc_id d) semantic_results || occurs (doc_id d) keyword_results
     = true) /\
  ((0 <= k)%Z -> length out = Nat.min (Z.to_nat k) (length table)) /\
  ((Z.of_nat (length table) <= k)%Z ->
   forall id, occurs id semantic_results || occurs id keyword_results = true ->
              List.In id (map doc_id out)).
Proof.
  intros out table.
  destruct (RetrieverMoreFacts.rrf_structure semantic_results keyword_results k
              semantic_weight) as (n & E & Hn).
  fold out table in E.
  pose proof (RetrieverMoreFacts.doc_scores_well_keyed semantic_results
                keyword_results semantic_weight) as Hwk. fold table in Hwk.
  set (sorted := sort_desc score Qltb (map snd table)) in *.
  assert (Hids : map doc_id out = firstn n (map (fun e => doc_id (doc e)) sorted)).
  { rewrite E, map_map, firstn_map. reflexivity. }
  assert (Hperm : Permutation (map (fun e => doc_id (doc e)) sorted) (map fst table)).
  { rewrite <- (RetrieverMoreFacts.well_keyed_ids table Hwk).
    apply Permutation_map, PySortFacts.sort_desc_perm. }
  assert (Hin : forall id, List.In id (map fst table) <->
                  occurs id semantic_results || occurs id keyword_results = true).
  { intros id. rewrite <- RetrieverMoreFacts.in_table_In. unfold table, doc_scores.
    rewrite !RetrieverFacts.add_ranked_in. cbn. reflexivity. }
  split; [|split; [|split]].
  - apply RetrieverMoreFacts.rrf_nodup.
  - intros d Hd. apply Hin. apply (Permutation_in _ Hperm).
    apply (PyStrMoreFacts.In_firstn _ n). rewrite <- Hids. now apply in_map.
  - intros Hk. rewrite E, length_map, length_firstn.
    unfold sorted. rewrite PySortFacts.sort_desc_length, length_map.
    now rewrite (Hn Hk).
  - intros Hk id Hid. rewrite Hids, firstn_all2.
    + apply (Permutation_in _ (Permutation_sym Hperm)). now apply Hin.
    + rewrite length_map. unfold sorted.
      rewrite PySortFacts.sort_desc_length, length_map.
      assert (0 <= k)%Z by lia. rewrite (Hn H). lia.
Qed.

(** X13. Every document [reciprocal_rank_fusion] returns carries its fused
    score under [rrf_score], and the documents come by decreasing fused
    score: none is followed by a document of a larger score. *)
Theorem rrf_output_ranked
    (semantic_results keyword_results : list (Document * Q))
    (k : Z) (semantic_weight : Q) :
  let out := reciprocal_rank_fusion semantic_results keyword_results k
               semantic_weight in
  let table := doc_scores semantic_results keyword_results semantic_weight in
  (forall d, List.In d out ->
     metadata d !! py "rrf_score" = Some (VFloat (table_score table (doc_id d)))) /\
  (forall i j a b, (i < j)%nat -> out !! i = Some a -> out !! j = Some b ->
     (table_score table (doc_id b) <= table_score table (doc_id a))%Q).
Proof.
  intros out table.
  destruct (RetrieverMoreFacts.rrf_structure semantic_results keyword_results k
              semantic_weight) as (n & E & _).
  fold out table in E.
  pose proof (RetrieverMoreFacts.doc_scores_well_keyed semantic_results
                keyword_results semantic_weight) as Hwk. fold table in Hwk.
  assert (Hscore : forall e,
            List.In e (firstn n (sort_desc score Qltb (map snd table))) ->
            table_score table
              (doc_id (set_meta (py "rrf_score") (VFloat (score e)) (doc e)))
            = score e).
  { intros e He. apply RetrieverMoreFacts.sorted_entry in He.
    destruct (RetrieverMoreFacts.well_keyed_entry table e Hwk He) as [Hget _].
    unfold table_score. cbn [set_meta doc_id]. now rewrite Hget. }
  split.
  - intros d Hd. rewrite E in Hd. apply in_map_iff in Hd as (e & <- & He).
    rewrite (Hscore e He). cbn. now rewrite lookup_insert_eq.
  - intros i j a b Hij Hi Hj. rewrite E in Hi, Hj.
    apply RetrieverMoreFacts.lookup_map in Hi as (ea & Hi & ->).
    apply RetrieverMoreFacts.lookup_map in Hj as (eb & Hj & ->).
    rewrite (Hscore ea), (Hscore eb).
    + apply PySortFacts.Qltb_ge.
      apply (PySortFacts.descending_lookup score Qltb
               (firstn n (sort_desc score Qltb (map snd table))) i j ea eb);
        try assumption.
      apply (PySortFacts.descending_sublist score Qltb _ _ (sublist_take _ n)).
      apply PySortFacts.sort_desc_descending.
      * apply PySortFacts.Qltb_asym.
      * apply PySortFacts.Qltb_trans.
    + apply list_elem_of_In. eapply list_elem_of_lookup_2. exact Hj.
    + apply list_elem_of_In. eapply list_elem_of_lookup_2. exact Hi.
Qed.

(** *** The weight of a rank *)

Module RankFacts.

Local Open Scope Q_scope.

Lemma occurs_In id results :
  occurs id results = true <-> List.In id (result_ids results).
Proof.
  unfold occurs, result_ids. rewrite existsb_exists, in_map_iff. split.
  - intros (r & Hr & E). exists r. apply Nat.eqb_eq in E. now split.
  - intros (r & E & Hr). exists r. split; [exact Hr|now apply Nat.eqb_eq].
Qed.

Lemma occurs_not_In id results :
  ~ List.In id (result_ids results) -> occurs id results = false.
Proof.
  intros H. destruct (occurs id results) eqn:E; [|reflexivity].
  now apply occurs_In in E.
Qed.

(** In a list without repetition, a document at rank [r] weighs
    [weight / (60 + r + 1)]. *)
Lemma rank_score_at w results : forall rank r id,
  NoDup (result_ids results) ->
  result_ids results !! r = Some id ->
  rank_score w rank results id == w / inject_Z (60 + Z.of_nat (rank + r) + 1).
Proof.
  induction results as [|[d s] rest IH]; intros rank r id Hnd Hr;
    [destruct r; discriminate|].
  change (result_ids ((d, s) :: rest)) with (doc_id d :: result_ids rest) in Hnd, Hr.
  apply NoDup_cons in Hnd as [Hnot Hnd]. rewrite list_elem_of_In in Hnot.
  cbn [rank_score]. destruct r as [|r]; cbn in Hr.
  - injection Hr as <-. rewrite Nat.eqb_refl.
    rewrite (RetrieverFacts.rank_score_absent w (S rank) rest (doc_id d)
               (occurs_not_In _ _ Hnot)).
    rewrite Nat.add_0_r. ring.
  - destruct (Nat.eqb_spec (doc_id d) id) as [E|E].
    + exfalso. apply Hnot. rewrite E. apply list_elem_of_In.
      eapply list_elem_of_lookup_2. exact Hr.
    + rewrite (IH (S rank) r id Hnd Hr).
      replace (S rank + r)%nat with (rank + S r)%nat by lia. ring.
Qed.

Lemma doc_scores_score sem kw w id :
  table_score (doc_scores sem kw w) id ==
  rank_score w 0 sem id + rank_score (1 - w) 0 kw id.
Proof.
  unfold doc_scores. rewrite !RetrieverFacts.add_ranked_score.
  unfold table_score. cbn. ring.
Qed.

Lemma rank_denominator_pos r : 0 < inject_Z (60 + Z.of_nat r + 1).
Proof. change 0 with (inject_Z 0). rewrite <- Zlt_Qlt. lia. Qed.

Lemma rank_weight_pos w r : 0 < w -> 0 < w / inject_Z (60 + Z.of_nat r + 1).
Proof.
  intros H. apply Qlt_shift_div_l; [apply rank_denominator_pos|].
  now rewrite Qmult_0_l.
Qed.

(** A later rank weighs no more. *)
Lemma rank_weight_le w (r1 r2 : nat) :
  0 <= w -> (r1 <= r2)%nat ->
  w / inject_Z (60 + Z.of_nat r2 + 1) <= w / inject_Z (60 + Z.of_nat r1 + 1).
Proof.
  intros Hw Hr. destruct (Nat.eq_dec r1 r2) as [->|Hne]; [apply Qle_refl|].
  unfold Qdiv. rewrite !(Qmult_comm w). apply Qmult_le_compat_r; [|exact Hw].
  apply Qlt_le_weak.
  apply (proj1 (Qinv_lt_contravar _ _ (rank_denominator_pos r1)
                  (rank_denominator_pos r2))).
  rewrite <- Zlt_Qlt. lia.
Qed.

End RankFacts.

(** X14. With both weights positive and no document twice in a list of
    results, a document that is in both lists has a larger fused score than
    a document that is in one list only, at the same rank of that list or
    further down. *)
Theorem rrf_both_lists_dominates
    (semantic_results keyword_results : list (Document * Q))
    (semantic_weight : Q) (both other : nat) (rs rk ro : nat) :
  (0 < semantic_weight)%Q -> (semantic_weight < 1)%Q ->
  NoDup (result_ids semantic_results) ->
  NoDup (result_ids keyword_results) ->
  result_ids semantic_results !! rs = Some both ->
  result_ids keyword_results !! rk = Some both ->
  (result_ids semantic_results !! ro = Some other /\ (rs <= ro)%nat /\
   occurs other keyword_results = false) \/
  (result_ids keyword_results !! ro = Some other /\ (rk <= ro)%nat /\
   occurs other semantic_results = false) ->
  (table_score (doc_scores semantic_results keyword_results semantic_weight) other
   < table_score (doc_scores semantic_results keyword_results semantic_weight) both)%Q.
Proof.
  intros Hw0 Hw1 Hs Hk Hbs Hbk Hother.
  assert (Hk0 : (0 < 1 - semantic_weight)%Q).
  { apply (Qplus_lt_l _ _ semantic_weight). ring_simplify. exact Hw1. }
  rewrite !RankFacts.doc_scores_score.
  rewrite (RankFacts.rank_score_at semantic_weight semantic_results 0 rs both Hs Hbs).
  rewrite (RankFacts.rank_score_at (1 - semantic_weight) keyword_results 0 rk both
             Hk Hbk).
  cbn [Nat.add].
  destruct Hother as [(Ho & Hr & Habs)|(Ho & Hr & Habs)].
  - rewrite (RankFacts.rank_score_at semantic_weight semantic_results 0 ro other
               Hs Ho).
    rewrite (RetrieverFacts.rank_score_absent _ 0 keyword_results other Habs).
    cbn [Nat.add].
    rewrite (Qplus_comm _ 0), (Qplus_comm (semantic_weight / _)).
    apply Qplus_lt_le_compat.
    + apply RankFacts.rank_weight_pos. exact Hk0.
    + apply RankFacts.rank_weight_le; [now apply Qlt_le_weak|exact Hr].
  - rewrite (RankFacts.rank_score_at (1 - semantic_weight) keyword_results 0 ro
               other Hk Ho).
    rewrite (RetrieverFacts.rank_score_absent _ 0 semantic_results other Habs).
    cbn [Nat.add].
    apply Qplus_lt_le_compat.
    + apply RankFacts.rank_weight_pos. exact Hw0.
    + apply RankFacts.rank_weight_le; [now apply Qlt_le_weak|exact Hr].
Qed.

Lemma rrf_both_lists_dominates_witness :
  (table_score FusionExample.table 3 < table_score FusionExample.table 2)%Q.
Proof.
  apply (rrf_both_lists_dominates FusionExample.semantic_results
           FusionExample.keyword_results (6#10)%Q 2 3 1 0 2).
  - reflexivity.
  - reflexivity.
  - apply (bool_decide_unpack _). vm_compute. exact I.
  - apply (bool_decide_unpack _). vm_compute. exact I.
  - reflexivity.
  - reflexivity.
  - left. split; [reflexivity|]. split; [lia|reflexivity].
Defined.

(** *** Facts on the keyword search *)

Module KeywordSearchFacts.

Section Order.
Context {A K : Type}.
Variable key : A -> K.
Variable ltb : K -> K -> bool.

Lemma insert_asc_as_desc x s :
  insert_asc key ltb x s = insert_desc key (fun a b => ltb b a) x s.
Proof.
  induction s as [|y s IHs]; cbn; [reflexivity|]. now rewrite IHs.
Qed.

Lemma sort_asc_as_desc l :
  sort_asc key ltb l = sort_desc key (fun a b => ltb b a) l.
Proof.
  unfold sort_asc, sort_desc.
  induction l as [|x l IH]; cbn [fold_right]; [reflexivity|].
  now rewrite IH, insert_asc_as_desc.
Qed.

End Order.

Lemma ordered_app {A} (R : A -> A -> Prop) l1 l2 :
  ForallOrdPairs R l1 -> ForallOrdPairs R l2 ->
  (forall a b, List.In a l1 -> List.In b l2 -> R a b) ->
  ForallOrdPairs R (l1 ++ l2).
Proof.
  induction 1 as [|x l1 Hx Hl1 IH]; intros H2 Hc; cbn; [exact H2|].
  constructor.
  - apply Forall_app. split; [exact Hx|].
    apply List.Forall_forall. intros b Hb. apply Hc; [now left|exact Hb].
  - apply IH; [exact H2|]. intros a b Ha Hb. apply Hc; [now right|exact Hb].
Qed.

Lemma ordered_rev {A} (R : A -> A -> Prop) l :
  ForallOrdPairs R l -> ForallOrdPairs (fun a b => R b a) (rev l).
Proof.
  induction 1 as [|x l Hx Hl IH]; cbn; [constructor|].
  apply ordered_app; [exact IH|repeat constructor|].
  intros a b Ha [<-|[]]. rewrite List.Forall_forall in Hx.
  apply Hx. now apply in_rev.
Qed.

(** The order goes through a selection that gives at most one element for
    each element. *)
Lemma ordered_flat_map {A B} (R : A -> A -> Prop) (R' : B -> B -> Prop)
    (g : A -> list B) l :
  (forall a, (length (g a) <= 1)%nat) ->
  (forall a b x y, R a b -> List.In x (g a) -> List.In y (g b) -> R' x y) ->
  ForallOrdPairs R l -> ForallOrdPairs R' (flat_map g l).
Proof.
  intros Hone Hrel. induction 1 as [|a l Ha Hl IH]; cbn; [constructor|].
  apply ordered_app; [|exact IH|].
  - specialize (Hone a). destruct (g a) as [|x [|y t]]; cbn in Hone;
      [constructor|repeat constructor|lia].
  - intros x y Hx Hy. apply in_flat_map in Hy as (b & Hb & Hy).
    rewrite List.Forall_forall in Ha. apply (Hrel a b x y); auto.
Qed.

Lemma flat_map_length_le {A B} (g : A -> list B) l :
  (forall a, (length (g a) <= 1)%nat) -> (length (flat_map g l) <= length l)%nat.
Proof.
  intros Hone. induction l as [|a l IH]; cbn; [lia|].
  rewrite length_app. specialize (Hone a). lia.
Qed.

Lemma flat_map_of_map {A B C} (f : B -> list C) (h : A -> B) l :
  flat_map f (map h l) = flat_map (fun a => f (h a)) l.
Proof. induction l as [|a l IH]; cbn; [reflexivity|]. now rewrite IH. Qed.

(** The pairs of an enumeration hold the elements at their indices. *)
Lemma combine_seq_nth {A} (l : list A) : forall start i s,
  List.In (i, s) (combine (seq start (length l)) l) ->
  nth_error l (i - start) = Some s /\ (start <= i)%nat.
Proof.
  induction l as [|x l IH]; intros start i s; cbn; [tauto|].
  intros [H|H].
  - injection H as <- <-. rewrite Nat.sub_diag. split; [reflexivity|lia].
  - apply IH in H as [H Hle]. split; [|lia].
    replace (i - start)%nat with (S (i - S start)) by lia. exact H.
Qed.

Section Scores.

Variable bm25_get_scores : list Document -> list str -> list Q.

(** [bm25_top] goes through the indices with their scores, by decreasing
    score, and keeps the documents of a positive score. *)
Lemma bm25_top_unfold st query k :
  exists entries : list (nat * Q),
    ForallOrdPairs (fun a b : nat * Q => Qltb (snd a) (snd b) = false) entries /\
    ((0 <= k)%Z -> (length entries <= Z.to_nat k)%nat) /\
    bm25_top bm25_get_scores st query k =
    flat_map (fun e : nat * Q =>
                match nth_error (bm25_documents st) (fst e) with
                | Some d => if Qltb 0%Q (snd e) then [(d, snd e)] else []
                | None => []
                end) entries.
Proof.
  cut (exists scores entries,
    Forall (fun e : nat * Q => nth_error scores (fst e) = Some (snd e)) entries /\
    ForallOrdPairs (fun a b : nat * Q => Qltb (snd a) (snd b) = false) entries /\
    ((0 <= k)%Z -> (length entries <= Z.to_nat k)%nat) /\
    bm25_top bm25_get_scores st query k =
    flat_map (fun e : nat * Q =>
                match nth_error (bm25_documents st) (fst e),
                      nth_error scores (fst e) with
                | Some d, Some s => if Qltb 0%Q s then [(d, s)] else []
                | _, _ => []
                end) entries).
  { intros (scores & entries & Hnth & Hord & Hlen & ->).
    exists entries. split; [exact Hord|]. split; [exact Hlen|].
    clear Hord Hlen. induction Hnth as [|e entries He _ IH]; [reflexivity|].
    cbn [flat_map]. rewrite IH, He. reflexivity. }
  unfold bm25_top.
  set (scores := match bm25_index st with
                 | Some corpus => bm25_get_scores corpus (split_ws (lower query))
                 | None => []
                 end).
  exists scores.
  destruct ((Z.min k (Z.of_nat (length scores)) =? 0)%Z
            || (length scores =? 0)%nat) eqn:Z0.
  { exists []. repeat split; try constructor. cbn. lia. }
  apply orb_false_iff in Z0 as [Hk0 _]. apply Z.eqb_neq in Hk0.
  unfold argsort. rewrite sort_asc_as_desc.
  set (sorted := sort_desc snd (fun a b => Qltb b a)
                   (combine (seq 0 (length scores)) scores)).
  set (k' := Z.min k (Z.of_nat (length scores))) in *.
  assert (Hslice : exists m, slice_from (- k') (map fst sorted)
                             = map fst (skipn m sorted) /\
                             ((0 <= k)%Z -> (length (skipn m sorted) <= Z.to_nat k)%nat)).
  { unfold slice_from. destruct (- k' <? 0)%Z eqn:E.
    - eexists. split; [apply skipn_map|]. intros Hk.
      rewrite length_skipn, length_map. apply Z.ltb_lt in E. lia.
    - eexists. split; [apply skipn_map|]. intros Hk.
      apply Z.ltb_ge in E. unfold k' in *. lia. }
  destruct Hslice as (m & -> & Hlen).
  exists (rev (skipn m sorted)). split; [|split; [|split]].
  - apply List.Forall_forall. intros [i s] Hin. apply in_rev in Hin.
    apply PyStrMoreFacts.In_skipn in Hin.
    unfold sorted in Hin.
    apply (proj1 (PySortFacts.sort_desc_In snd (fun a b => Qltb b a) (i, s) _))
      in Hin.
    apply combine_seq_nth in Hin as [Hin _]. now rewrite Nat.sub_0_r in Hin.
  - apply (ordered_rev (fun a b : nat * Q => Qltb (snd b) (snd a) = false)).
    apply (PySortFacts.descending_sublist snd (fun a b => Qltb b a) _ sorted
             (sublist_drop _ m)).
    apply PySortFacts.sort_desc_descending.
    + intros a b. apply PySortFacts.Qltb_asym.
    + intros a b c H1 H2. exact (PySortFacts.Qltb_trans c b a H2 H1).
  - intros Hk. rewrite length_rev. now apply Hlen.
  - rewrite <- map_rev. apply flat_map_of_map.
Qed.

Lemma bm25_top_spec st query k :
  let res := bm25_top bm25_get_scores st query k in
  Forall (fun r : Document * Q =>
            (0 < snd r)%Q /\ List.In (fst r) (bm25_documents st)) res /\
  ((0 <= k)%Z -> (length res <= Z.to_nat k)%nat) /\
  descending snd Qltb res.
Proof.
  intros res. destruct (bm25_top_unfold st query k) as (entries & Hord & Hlen & E).
  unfold res. rewrite E. clear E res.
  set (g := fun e : nat * Q =>
              match nth_error (bm25_documents st) (fst e) with
              | Some d => if Qltb 0%Q (snd e) then [(d, snd e)] else []
              | None => []
              end).
  assert (Hg : forall e y, List.In y (g e) ->
                 snd y = snd e /\ (0 < snd y)%Q /\
                 List.In (fst y) (bm25_documents st)).
  { intros e y. unfold g.
    destruct (nth_error (bm25_documents st) (fst e)) as [d|] eqn:D; [|intros []].
    destruct (Qltb 0%Q (snd e)) eqn:P; [|intros []].
    intros [<-|[]]. cbn. split; [reflexivity|].
    split; [now apply PySortFacts.Qltb_lt|]. eapply nth_error_In. exact D. }
  assert (Hone : forall e, (length (g e) <= 1)%nat).
  { intros e. unfold g. destruct (nth_error (bm25_documents st) (fst e));
      [destruct (Qltb 0%Q (snd e))|]; cbn; lia. }
  split; [|split].
  - apply List.Forall_forall. intros y Hy.
    apply in_flat_map in Hy as (e & _ & Hy). now apply (Hg e y).
  - intros Hk. etransitivity; [apply (flat_map_length_le g _ Hone)|now apply Hlen].
  - apply (ordered_flat_map
             (fun a b : nat * Q => Qltb (snd a) (snd b) = false) _ g entries Hone);
      [|exact Hord].
    intros a b x y Hab Hx Hy.
    destruct (Hg a x Hx) as [-> _], (Hg b y Hy) as [-> _]. exact Hab.
Qed.

End Scores.

End KeywordSearchFacts.

(** X15. [keyword_search] returns documents of the corpus of the index,
    each with a positive BM25 score, by decreasing score, and at most [k] of
    them for a [k] that is not negative. *)
Theorem keyword_search_results
    (child_collection_get : Result (list Document))
    (bm25_get_scores : list Document -> list str -> list Q)
    (st : RetrieverState) (query : str) (k : Z) :
  let res := fst (keyword_search child_collection_get bm25_get_scores st query k) in
  let st' := snd (keyword_search child_collection_get bm25_get_scores st query k) in
  Forall (fun r : Document * Q =>
            (0 < snd r)%Q /\ List.In (fst r) (bm25_documents st')) res /\
  ((0 <= k)%Z -> (length res <= Z.to_nat k)%nat) /\
  (forall i j a b, (i < j)%nat -> res !! i = Some a -> res !! j = Some b ->
     (snd b <= snd a)%Q).
Proof.
  intros res st'.
  assert (H : Forall (fun r : Document * Q =>
                        (0 < snd r)%Q /\ List.In (fst r) (bm25_documents st')) res /\
              ((0 <= k)%Z -> (length res <= Z.to_nat k)%nat) /\
              descending snd Qltb res).
  { unfold res, st', keyword_search.
    destruct (bm25_index st) as [corpus|] eqn:I.
    - destruct (bm25_documents st) as [|d ds] eqn:D.
      + destruct (_get_all_documents_from_vectorstore child_collection_get)
          as [|d' ds'].
        * cbn. repeat split; try constructor. lia.
        * apply KeywordSearchFacts.bm25_top_spec.
      + cbn [fst snd]. apply KeywordSearchFacts.bm25_top_spec.
    - destruct (_get_all_documents_from_vectorstore child_collection_get)
        as [|d' ds'].
      + cbn. repeat split; try constructor. lia.
      + apply KeywordSearchFacts.bm25_top_spec. }
  destruct H as (H1 & H2 & H3). split; [exact H1|]. split; [exact H2|].
  intros i j a b Hij Hi Hj. apply PySortFacts.Qltb_ge.
  exact (PySortFacts.descending_lookup snd Qltb res i j a b H3 Hij Hi Hj).
Qed.

(** X16. The BM25 index is a cache.  Once it is built over a corpus that
    is not empty, [keyword_search] neither reads the collection nor changes
    the state: it answers from the corpus of the index, whatever the
    collection holds by then.  [rebuild_bm25_index] succeeds exactly when
    the collection can be read and is not empty; it then replaces the index
    by one over the collection, from which the later searches answer; when
    it fails the state is as before. *)
Theorem bm25_index_cached
    (child_collection_get : Result (list Document))
    (bm25_get_scores : list Document -> list str -> list Q)
    (st : RetrieverState) :
  (forall corpus d ds query k,
     bm25_index st = Some corpus -> bm25_documents st = d :: ds ->
     keyword_search child_collection_get bm25_get_scores st query k
     = (bm25_top bm25_get_scores st query k, st)) /\
  (fst (rebuild_bm25_index child_collection_get st) = true <->
   exists d ds, child_collection_get = Ok (d :: ds)) /\
  (fst (rebuild_bm25_index child_collection_get st) = false ->
   snd (rebuild_bm25_index child_collection_get st) = st) /\
  (forall d ds,
     child_collection_get = Ok (d :: ds) ->
     let st' := snd (rebuild_bm25_index child_collection_get st) in
     st' = _build_bm25_index (d :: ds) /\
     forall (later : Result (list Document)) query k,
       keyword_search later bm25_get_scores st' query k
       = (bm25_top bm25_get_scores st' query k, st')).
Proof.
  split; [|split; [|split]].
  - intros corpus d ds query k I D. unfold keyword_search. now rewrite I, D.
  - unfold rebuild_bm25_index, _get_all_documents_from_vectorstore.
    destruct child_collection_get as [[|d ds]|e]; cbn; split;
      try discriminate; try (intros (? & ? & [=])); eauto.
  - unfold rebuild_bm25_index.
    destruct (_get_all_documents_from_vectorstore child_collection_get);
      [reflexivity|discriminate].
  - intros d ds E st'. unfold st', rebuild_bm25_index,
      _get_all_documents_from_vectorstore. rewrite E. cbn.
    split; reflexivity.
Qed.

(** *** Facts on the reranking *)

Module RerankFacts.

Section Encoder.

Variable cross_encoder : option (list (str * str) -> Result (list Q)).

(** What [cross_encoder_rerank] returns: the head of the documents, or the
    head of the scored documents by decreasing score, each with its score
    noted. *)
Lemma cross_encoder_rerank_cases query documents top_n :
  cross_encoder_rerank cross_encoder query documents top_n
    = slice_to top_n documents \/
  exists scores,
    cross_encoder_rerank cross_encoder query documents top_n =
    map (fun ds : Document * Q =>
           set_meta (py "cross_encoder_score") (VFloat (snd ds)) (fst ds))
        (slice_to top_n (sort_desc snd Qltb (combine documents scores))).
Proof.
  unfold cross_encoder_rerank.
  destruct cross_encoder as [predict|]; [|now left].
  destruct documents as [|d ds]; [now left|].
  destruct (predict _) as [scores|e]; [|now left].
  right. now exists scores.
Qed.

Lemma cross_encoder_rerank_nodup query documents top_n :
  NoDup (map doc_id documents) ->
  NoDup (map doc_id (cross_encoder_rerank cross_encoder query documents top_n)).
Proof.
  intros H.
  destruct (cross_encoder_rerank_cases query documents top_n) as [->|(scores & ->)].
  - now apply RetrieverMoreFacts.slice_to_nodup.
  - rewrite map_map. cbn [set_meta doc_id].
    apply (RetrieverMoreFacts.slice_to_nodup (fun ds : Document * Q => doc_id (fst ds))).
    rewrite (Permutation_map _ (PySortFacts.sort_desc_perm snd Qltb _)).
    rewrite <- (map_map fst doc_id), RetrieverMoreFacts.map_fst_combine.
    rewrite <- firstn_map. eapply sublist_NoDup; [exact H|apply sublist_take].
Qed.

Lemma cross_encoder_rerank_length query documents top_n :
  (0 <= top_n)%Z ->
  (length (cross_encoder_rerank cross_encoder query documents top_n)
   <= Z.to_nat top_n)%nat.
Proof.
  intros H.
  destruct (cross_encoder_rerank_cases query documents top_n) as [->|(scores & ->)].
  - now apply RetrieverMoreFacts.slice_to_length.
  - rewrite length_map. now apply RetrieverMoreFacts.slice_to_length.
Qed.

End Encoder.

End RerankFacts.


(** X18. When [hybrid_search] returns, it returns at most [k] documents for
    a [k] that is not negative, and no document twice, with or without the
    cross-encoder. *)
Theorem hybrid_search_bounded
    (child_similarity_search : str -> Z -> Result (list (Document * Q)))
    (parent_get : str -> option str)
    (child_collection_get : Result (list Document))
    (bm25_get_scores : list Document -> list str -> list Q)
    (cross_encoder : option (list (str * str) -> Result (list Q)))
    (st : RetrieverState) (query : str) (k : Z) (semantic_weight : Q)
    (use_cross_encoder : bool) (docs : list Document) (st' : RetrieverState) :
  hybrid_search child_similarity_search parent_get child_collection_get
    bm25_get_scores cross_encoder st query k semantic_weight use_cross_encoder
  = Ok (docs, st') ->
  NoDup (map doc_id docs) /\
  ((0 <= k)%Z -> (length docs <= Z.to_nat k)%nat).
Proof.
  unfold hybrid_search.
  destruct (semantic_search child_similarity_search parent_get query (k * 2))
    as [sem|e]; cbn [bind]; [|discriminate].
  destruct (keyword_search child_collection_get bm25_get_scores st query (k * 2))
    as [kw st1].
  destruct (use_cross_encoder && _); intros [= <- <-].
  - split.
    + apply RerankFacts.cross_encoder_rerank_nodup, RetrieverMoreFacts.rrf_nodup.
    + apply RerankFacts.cross_encoder_rerank_length.
  - split.
    + apply RetrieverMoreFacts.slice_to_nodup, RetrieverMoreFacts.rrf_nodup.
    + apply RetrieverMoreFacts.slice_to_length.
Qed.

Lemma hybrid_search_bounded_witness :
  exists docs st',
    hybrid_search (fun _ _ => Ok []) no_parent two_documents flat_scores None
      initial_state (py "visa process") 1 (6#10)%Q true = Ok (docs, st') /\
    NoDup (map doc_id docs) /\
    ((0 <= 1)%Z -> (length docs <= Z.to_nat 1)%nat).
Proof.
  eexists. eexists. split; [reflexivity|].
  eapply (hybrid_search_bounded (fun _ _ => Ok []) no_parent two_documents
            flat_scores None initial_state (py "visa process") 1 (6#10)%Q true).
  reflexivity.
Defined.

(** *** Facts on the search by similarity *)

Module SimilarityFacts.



Lemma attach_parent_keeps parent_get r :
  doc_id (fst (attach_parent parent_get r)) = doc_id (fst r) /\
  page_content (fst (attach_parent parent_get r)) = page_content (fst r) /\
  snd (attach_parent parent_get r) = snd r.
Proof.
  destruct r as [d s]. unfold attach_parent.
  destruct (meta_str (py "parent_id") d) as [[|c p]|]; try now repeat split.
  destruct (parent_get (c :: p)); now repeat split.
Qed.

Lemma similarity_search_scores child_similarity_search parent_get query k
    threshold results :
  similarity_search_with_score child_similarity_search parent_get query k threshold
    = Ok results ->
  Forall (fun r : Document * Q => (threshold <= snd r)%Q) results /\
  (length results <= Z.to_nat (Z.max 1 k))%nat.
Proof.
  unfold similarity_search_with_score.
  destruct (child_similarity_search query (Z.max 1 k * 2)%Z) as [child|e];
    cbn [bind]; [|discriminate].
  intros [= <-]. split.
  - apply List.Forall_forall. intros r Hr.
    apply in_map_iff in Hr as (r0 & <- & Hr0).
    rewrite (proj2 (proj2 (attach_parent_keeps parent_get r0))).
    apply RetrieverMoreFacts.slice_to_In, filter_In in Hr0 as [_ H].
    now apply Qle_bool_iff.
  - rewrite length_map. apply RetrieverMoreFacts.slice_to_length. lia.
Qed.

End SimilarityFacts.


(** *** Facts on the retriever with reformulation and reranking *)

Module IntelligentRetrieverFacts.

Lemma fill_spec (doc_eq : Document -> Document -> bool) top_n documents :
  forall reranked,
  (forall d, List.In d (fill doc_eq top_n documents reranked) ->
     List.In d reranked \/ List.In d documents) /\
  ((Z.of_nat (length reranked) <= top_n)%Z ->
   (Z.of_nat (length (fill doc_eq top_n documents reranked)) <= top_n)%Z).
Proof.
  induction documents as [|d rest IH]; intros reranked; cbn [fill].
  - split; [now left|easy].
  - destruct (negb (doc_in doc_eq d reranked)
              && (Z.of_nat (length reranked) <? top_n)%Z) eqn:C.
    + destruct (IH (reranked ++ [d])) as [Hin Hlen]. split.
      * intros x Hx. destruct (Hin x Hx) as [H|H]; [|right; now right].
        apply in_app_or in H as [H|[<-|[]]]; [now left|right; now left].
      * intros _. apply Hlen. rewrite length_app. cbn.
        apply andb_true_iff in C as [_ C]. apply Z.ltb_lt in C. lia.
    + destruct (IH reranked) as [Hin Hlen]. split; [|exact Hlen].
      intros x Hx. destruct (Hin x Hx) as [H|H]; [now left|right; now right].
Qed.

Lemma rerank_results_spec (llm : further_model)
    (doc_eq : Document -> Document -> bool) query documents top_n :
  let out := rerank_results llm doc_eq query documents top_n in
  Forall (fun d => List.In d documents) out /\
  ((0 <= top_n)%Z -> (length out <= Z.to_nat top_n)%nat).
Proof.
  intros out. subst out. unfold rerank_results.
  assert (Hslice : Forall (fun d => List.In d documents) (slice_to top_n documents) /\
                   ((0 <= top_n)%Z ->
                    (length (slice_to top_n documents) <= Z.to_nat top_n)%nat)).
  { split; [|apply RetrieverMoreFacts.slice_to_length].
    apply List.Forall_forall. intros d. apply RetrieverMoreFacts.slice_to_In. }
  destruct documents as [|d0 ds] eqn:D; [split; [constructor|cbn; lia]|].
  cbv iota. rewrite <- D in Hslice |- *.
  destruct (Z.of_nat (length documents) <=? top_n)%Z; [exact Hslice|].
  destruct (llm _) as [content|e]; [|exact Hslice].
  destruct (read_indices _) as [indices|]; [|exact Hslice].
  set (pick := fun idx : Z =>
         if (0 <=? idx)%Z && (idx <? Z.of_nat (length documents))%Z
         then match nth_error documents (Z.to_nat idx) with
              | Some d => [d]
              | None => []
              end
         else []).
  set (reranked := flat_map pick (slice_to top_n indices)).
  assert (Hin : Forall (fun d => List.In d documents) reranked).
  { apply List.Forall_forall. intros d Hd.
    apply in_flat_map in Hd as (idx & _ & Hd). unfold pick in Hd.
    destruct ((0 <=? idx)%Z && (idx <? Z.of_nat (length documents))%Z); [|destruct Hd].
    destruct (nth_error documents (Z.to_nat idx)) as [d'|] eqn:N; [|destruct Hd].
    destruct Hd as [<-|[]]. eapply nth_error_In. exact N. }
  assert (Hlen : (0 <= top_n)%Z -> (length reranked <= Z.to_nat top_n)%nat).
  { intros H. etransitivity.
    - apply KeywordSearchFacts.flat_map_length_le. intros idx. unfold pick.
      destruct ((0 <=? idx)%Z && (idx <? Z.of_nat (length documents))%Z);
        [destruct (nth_error documents (Z.to_nat idx))|]; cbn; lia.
    - now apply RetrieverMoreFacts.slice_to_length. }
  destruct (Z.of_nat (length reranked) <? top_n)%Z eqn:L; [|now split].
  apply Z.ltb_lt in L.
  destruct (fill_spec doc_eq top_n documents reranked) as [Hf Hl]. split.
  - apply List.Forall_forall. intros d Hd. destruct (Hf d Hd) as [H|H]; [|exact H].
    rewrite List.Forall_forall in Hin. now apply Hin.
  - intros H. assert (Z.of_nat (length reranked) <= top_n)%Z as H' by lia.
    specialize (Hl H'). lia.
Qed.

(** What the loops of [retrieve] keep: the contents seen are those of the
    documents, no content comes twice, and every document carries a score
    at or above the threshold. *)
Lemma add_result_spec st r :
  (SIMILARITY_THRESHOLD <= snd r)%Q ->
  (forall c, List.In c (fst st) <-> List.In c (map page_content (snd st))) ->
  NoDup (map page_content (snd st)) ->
  Forall (scored_above SIMILARITY_THRESHOLD) (snd st) ->
  let st' := add_result st r in
  (forall c, List.In c (fst st') <-> List.In c (map page_content (snd st'))) /\
  NoDup (map page_content (snd st')) /\
  Forall (scored_above SIMILARITY_THRESHOLD) (snd st').
Proof.
  destruct st as [seen docs]. cbn [fst snd]. intros Hr Hseen Hnd Hall.
  unfold add_result. cbv zeta.
  destruct (mem_str (page_content (fst r)) seen) eqn:M; cbn [fst snd];
    [split; [exact Hseen|split; assumption]|].
  apply PyStrMoreFacts.mem_str_not_In in M. split; [|split].
  - intros c. rewrite map_app, in_app_iff. cbn. rewrite <- Hseen. tauto.
  - rewrite map_app. cbn. apply NoDup_app. split; [exact Hnd|].
    split; [|apply NoDup_singleton].
    intros c Hc Hc'. apply list_elem_of_singleton in Hc'. subst c.
    apply M, Hseen. now apply list_elem_of_In.
  - apply Forall_app. split; [exact Hall|]. constructor; [|constructor].
    exists (snd r). cbn. now rewrite lookup_insert_eq.
Qed.

Lemma add_results_spec results : forall st,
  Forall (fun r : Document * Q => (SIMILARITY_THRESHOLD <= snd r)%Q) results ->
  (forall c, List.In c (fst st) <-> List.In c (map page_content (snd st))) ->
  NoDup (map page_content (snd st)) ->
  Forall (scored_above SIMILARITY_THRESHOLD) (snd st) ->
  let st' := fold_left add_result results st in
  (forall c, List.In c (fst st') <-> List.In c (map page_content (snd st'))) /\
  NoDup (map page_content (snd st')) /\
  Forall (scored_above SIMILARITY_THRESHOLD) (snd st').
Proof.
  induction results as [|r results IH]; intros st Hres Hseen Hnd Hall;
    [split; [exact Hseen|split; assumption]|].
  inversion Hres as [|? ? Hr Hres']; subst. cbn [fold_left].
  destruct (add_result_spec st r Hr Hseen Hnd Hall) as (H1 & H2 & H3).
  now apply IH.
Qed.

Lemma gather_spec
    (child_similarity_search : str -> Z -> Result (list (Document * Q)))
    (parent_get : str -> option str) k queries : forall st st',
  gather child_similarity_search parent_get k queries st = Ok st' ->
  (forall c, List.In c (fst st) <-> List.In c (map page_content (snd st))) ->
  NoDup (map page_content (snd st)) ->
  Forall (scored_above SIMILARITY_THRESHOLD) (snd st) ->
  NoDup (map page_content (snd st')) /\
  Forall (scored_above SIMILARITY_THRESHOLD) (snd st').
Proof.
  induction queries as [|q queries IH]; intros st st'; cbn [gather].
  - intros [= <-] _ Hnd Hall. now split.
  - destruct (similarity_search_with_score child_similarity_search parent_get q
                (k * 2) SIMILARITY_THRESHOLD) as [results|e] eqn:S;
      cbn [bind]; [|discriminate].
    intros G Hseen Hnd Hall.
    apply SimilarityFacts.similarity_search_scores in S as [S _].
    destruct (add_results_spec results st S Hseen Hnd Hall) as (H1 & H2 & H3).
    exact (IH _ _ G H1 H2 H3).
Qed.

(** What [retrieve] returns. *)
Lemma retrieve_spec (llm : further_model) (doc_eq : Document -> Document -> bool)
    (child_similarity_search : str -> Z -> Result (list (Document * Q)))
    (parent_get : str -> option str) query k use_reformulation use_reranking
    context docs :
  retrieve llm doc_eq child_similarity_search parent_get query k use_reformulation
    use_reranking context = Ok docs ->
  Forall (scored_above SIMILARITY_THRESHOLD) docs /\
  (length docs <= Z.to_nat (Z.max 1 k))%nat /\
  (use_reranking = false ->
   NoDup (map page_content docs) /\ descending (retrieval_score 0%Q) Qltb docs).
Proof.
  unfold retrieve.
  destruct (gather child_similarity_search parent_get (Z.max 1 k) _ ([], []))
    as [st|e] eqn:G; cbn [bind]; [|discriminate].
  intros [= <-].
  destruct (gather_spec _ _ _ _ _ _ G) as [Hnd Hall];
    [easy|constructor|constructor|].
  set (sorted := sort_desc (retrieval_score 0%Q) Qltb (snd st)).
  assert (Hperm : Permutation sorted (snd st)) by apply PySortFacts.sort_desc_perm.
  assert (Hs : Forall (scored_above SIMILARITY_THRESHOLD) sorted).
  { apply List.Forall_forall. intros d Hd. rewrite List.Forall_forall in Hall.
    apply Hall. now apply (Permutation_in _ Hperm). }
  assert (Hsn : NoDup (map page_content sorted)).
  { now rewrite (Permutation_map page_content Hperm). }
  assert (Hsd : descending (retrieval_score 0%Q) Qltb sorted).
  { apply PySortFacts.sort_desc_descending.
    - apply PySortFacts.Qltb_asym.
    - apply PySortFacts.Qltb_trans. }
  assert (Hk : (0 <= Z.max 1 k)%Z) by lia.
  assert (Hslice : Forall (scored_above SIMILARITY_THRESHOLD)
                     (slice_to (Z.max 1 k) sorted) /\
                   (length (slice_to (Z.max 1 k) sorted) <= Z.to_nat (Z.max 1 k))%nat /\
                   NoDup (map page_content (slice_to (Z.max 1 k) sorted)) /\
                   descending (retrieval_score 0%Q) Qltb (slice_to (Z.max 1 k) sorted)).
  { destruct (RetrieverMoreFacts.slice_to_firstn (Z.max 1 k) sorted) as (n & E & Hn).
    split; [|split; [|split]].
    - apply List.Forall_forall. intros d Hd. rewrite List.Forall_forall in Hs.
      apply Hs. now apply (RetrieverMoreFacts.slice_to_In (Z.max 1 k)).
    - now apply RetrieverMoreFacts.slice_to_length.
    - rewrite E, <- firstn_map. eapply sublist_NoDup; [exact Hsn|apply sublist_take].
    - rewrite E. apply (PySortFacts.descending_sublist _ _ _ _ (sublist_take _ n)).
      exact Hsd. }
  destruct use_reranking.
  - destruct sorted as [|d0 ds] eqn:S.
    + destruct Hslice as (H1 & H2 & _).
      split; [exact H1|]. split; [exact H2|discriminate].
    + rewrite <- S in *.
      destruct (rerank_results_spec llm doc_eq query sorted (Z.max 1 k))
        as [Hin Hlen].
      split; [|split; [now apply Hlen|discriminate]].
      apply List.Forall_forall. intros d Hd. rewrite List.Forall_forall in Hin, Hs.
      now apply Hs, Hin.
  - destruct Hslice as (H1 & H2 & H3 & H4).
    assert (E : match sorted with
                | [] => slice_to (Z.max 1 k) sorted
                | _ :: _ => slice_to (Z.max 1 k) sorted
                end = slice_to (Z.max 1 k) sorted) by now destruct sorted.
    split; [exact H1|]. split; [exact H2|]. intros _. now split.
Qed.

Lemma scored_retrieval_score default d :
  scored_above SIMILARITY_THRESHOLD d ->
  (SIMILARITY_THRESHOLD <= retrieval_score default d)%Q.
Proof.
  intros (s & E & Hs). unfold retrieval_score. now rewrite E.
Qed.

End IntelligentRetrieverFacts.

(** X20. [reformulate_query] returns the query first, followed by at most
    three alternatives, none of which starts with a list marker (1, 2, 3,
    a dot, a dash, a closing parenthesis or a space); a model that fails
    leaves the query alone. *)
Theorem reformulate_query_shape (llm : further_model) (query : str)
    (context : option str) :
  exists alternatives,
    reformulate_query llm query context = query :: alternatives /\
    (length alternatives <= 3)%nat /\
    Forall (fun a => match a with
                     | c :: _ => mem_char c (py "123.-) ") = false
                     | [] => True
                     end) alternatives /\
    ((forall prompt, raises (llm prompt) = true) -> alternatives = []).
Proof.
  unfold reformulate_query.
  set (ctx := match context with Some (c :: r) => Some (c :: r) | _ => None end).
  destruct (llm (ReformulatePrompt query ctx)) as [content|e] eqn:L.
  - eexists. split; [reflexivity|]. split; [apply firstn_le_length|].
    split.
    + apply List.Forall_forall. intros a Ha.
      apply PyStrMoreFacts.In_firstn, in_map_iff in Ha as (u & <- & _).
      apply (PyStrMoreFacts.lstrip_by_head (fun c => mem_char c (py "123.-) "))).
    + intros H. specialize (H (ReformulatePrompt query ctx)).
      rewrite L in H. discriminate.
  - exists []. split; [reflexivity|]. split; [cbn; lia|]. split; [constructor|easy].
Qed.

(** X21. [rerank_results] returns documents it was given, at most [top_n]
    of them for a [top_n] that is not negative; it returns the documents
    as they are when there are no more than [top_n], and the first [top_n]
    when the model fails. *)
Theorem rerank_results_shape (llm : further_model)
    (doc_eq : Document -> Document -> bool) (query : str)
    (documents : list Document) (top_n : Z) :
  let out := rerank_results llm doc_eq query documents top_n in
  Forall (fun d => List.In d documents) out /\
  ((0 <= top_n)%Z -> (length out <= Z.to_nat top_n)%nat) /\
  ((Z.of_nat (length documents) <= top_n)%Z -> out = documents) /\
  ((forall prompt, raises (llm prompt) = true) -> out = slice_to top_n documents).
Proof.
  intros out.
  destruct (IntelligentRetrieverFacts.rerank_results_spec llm doc_eq query
              documents top_n) as [H1 H2].
  split; [exact H1|]. split; [exact H2|]. subst out. unfold rerank_results. split.
  - intros Hle. destruct documents as [|d ds] eqn:D; [reflexivity|].
    rewrite <- D in *. apply Z.leb_le in Hle as Hle'. rewrite Hle'.
    unfold slice_to. destruct (top_n <? 0)%Z eqn:N;
      [apply Z.ltb_lt in N; lia|].
    apply firstn_all2. lia.
  - intros Hfail. destruct documents as [|d ds] eqn:D.
    { unfold slice_to. destruct (top_n <? 0)%Z; now rewrite firstn_nil. }
    rewrite <- D in *.
    destruct (Z.of_nat (length documents) <=? top_n)%Z; [reflexivity|].
    specialize (Hfail (RerankPrompt query (doc_texts 0 (firstn 10 documents)) top_n)).
    destruct (llm _); [discriminate|reflexivity].
Qed.

(** X22. When [retrieve] returns, every document carries a retrieval score
    at or above the similarity threshold of 0.7, and there are at most
    [max(1, k)] documents; without reranking no two of them have the same
    content and none is followed by one of a larger retrieval score. *)
Theorem retrieve_shape (llm : further_model)
    (doc_eq : Document -> Document -> bool)
    (child_similarity_search : str -> Z -> Result (list (Document * Q)))
    (parent_get : str -> option str) (query : str) (k : Z)
    (use_reformulation use_reranking : bool) (context : option str)
    (docs : list Document) :
  retrieve llm doc_eq child_similarity_search parent_get query k use_reformulation
    use_reranking context = Ok docs ->
  Forall (scored_above (7#10)) docs /\
  (length docs <= Z.to_nat (Z.max 1 k))%nat /\
  (use_reranking = false ->
   NoDup (map page_content docs) /\
   forall i j a b, (i < j)%nat -> docs !! i = Some a -> docs !! j = Some b ->
     (retrieval_score 0 b <= retrieval_score 0 a)%Q).
Proof.
  intros H.
  destruct (IntelligentRetrieverFacts.retrieve_spec _ _ _ _ _ _ _ _ _ _ H)
    as (H1 & H2 & H3).
  split; [exact H1|]. split; [exact H2|]. intros Hno.
  destruct (H3 Hno) as [Hnd Hd]. split; [exact Hnd|].
  intros i j a b Hij Hi Hj. apply PySortFacts.Qltb_ge.
  exact (PySortFacts.descending_lookup _ _ _ i j a b Hd Hij Hi Hj).
Qed.

Lemma retrieve_shape_witness :
  exists docs,
    retrieve out_of_reach (fun _ _ => false)
      (fun _ _ => Ok [(FusionExample.A, (9#10)%Q); (FusionExample.B, (8#10)%Q);
                      (FusionExample.C, (6#10)%Q)])
      no_parent (py "visa rules") 5 true false None = Ok docs /\
    Forall (scored_above (7#10)) docs /\
    (length docs <= Z.to_nat (Z.max 1 5))%nat.
Proof.
  eexists. split; [reflexivity|].
  split; [|apply (retrieve_shape out_of_reach (fun _ _ => false)
                    (fun _ _ => Ok [(FusionExample.A, (9#10)%Q);
                                    (FusionExample.B, (8#10)%Q);
                                    (FusionExample.C, (6#10)%Q)])
                    no_parent (py "visa rules") 5 true false None _ eq_refl)].
  apply (retrieve_shape out_of_reach (fun _ _ => false)
           (fun _ _ => Ok [(FusionExample.A, (9#10)%Q);
                           (FusionExample.B, (8#10)%Q);
                           (FusionExample.C, (6#10)%Q)])
           no_parent (py "visa rules") 5 true false None _ eq_refl).
Defined.

(** X23. The confidence of the RAG agent after a retrieval: the documents
    [retrieve] gives to [RAGAgent.process_query] carry scores at or above
    0.7, so the confidence of the response is 0.5 when nothing was
    retrieved, and between 0.7 and 1 otherwise. *)
Theorem rag_confidence_after_retrieve (llm : further_model)
    (doc_eq : Document -> Document -> bool)
    (child_similarity_search : str -> Z -> Result (list (Document * Q)))
    (parent_get : str -> option str) (query : str) (context : option str)
    (sid : str) (run : RagRun) :
  retrieve llm doc_eq child_similarity_search parent_get query 5 true true context
    = Ok (run_kb_docs run) ->
  let c := rag_confidence_score (rag_agent_response sid (Ok run)) in
  (run_kb_docs run = [] /\ c = Qmin (1#2) 1) \/
  (run_kb_docs run <> [] /\ (7#10 <= c)%Q /\ (c <= 1)%Q).
Proof.
  intros H c.
  destruct (IntelligentRetrieverFacts.retrieve_spec _ _ _ _ _ _ _ _ _ _ H)
    as (Hall & _ & _).
  subst c. cbn [rag_agent_response rag_confidence_score]. unfold rag_confidence.
  destruct (run_kb_docs run) as [|d ds]; [left; now split|right].
  split; [discriminate|]. cbn [map]. split; [|apply Q.le_min_r].
  apply Q.min_glb; [|discriminate].
  inversion Hall as [|? ? Hd _]; subst.
  apply Qle_trans with (retrieval_score (1#2) d).
  - now apply (IntelligentRetrieverFacts.scored_retrieval_score (1#2) d).
  - apply AgentFacts.max_score_ge. now left.
Qed.

Lemma rag_confidence_after_retrieve_witness :
  let run := {| run_answer := py "Visa rules are listed below.";
                run_sources := []; run_web_search_used := false;
                run_kb_docs :=
                  [set_meta (py "retrieval_score") (VFloat (9#10)) FusionExample.A] |} in
  let c := rag_confidence_score (rag_agent_response (py "s1") (Ok run)) in
  (run_kb_docs run = [] /\ c = Qmin (1#2) 1) \/
  (run_kb_docs run <> [] /\ (7#10 <= c)%Q /\ (c <= 1)%Q).
Proof.
  exact (rag_confidence_after_retrieve out_of_reach (fun _ _ => false)
           (fun _ _ => Ok [(FusionExample.A, (9#10)%Q)]) no_parent
           (py "visa rules") None (py "s1")
           {| run_answer := py "Visa rules are listed below.";
              run_sources := []; run_web_search_used := false;
              run_kb_docs :=
                [set_meta (py "retrieval_score") (VFloat (9#10)) FusionExample.A] |}
           eq_refl).
Defined.

(** *** Facts on the map from parents to children *)

Module ParentChildMapFacts.

Lemma map_wf_mono st st' :
  parent_child_map st' = parent_child_map st ->
  (forall id, is_Some (child_store st !! id) -> is_Some (child_store st' !! id)) ->
  (forall p, is_Some (parent_store st !! p) -> is_Some (parent_store st' !! p)) ->
  map_wf st -> map_wf st'.
Proof.
  intros Em Hc Hp W p ids L. rewrite Em in L. destruct (W p ids L) as (Hs & Hne & Hall).
  split; [now apply Hp|]. split; [exact Hne|].
  eapply List.Forall_impl; [|exact Hall]. intros id [F S]. split; [exact F|now apply Hc].
Qed.

Lemma insert_is_Some `{Countable K} {A} (m : gmap K A) k v x :
  is_Some (m !! x) -> is_Some (<[k := v]> m !! x).
Proof.
  intros Hx. destruct (decide (k = x)) as [<-|N].
  - rewrite lookup_insert_eq. eauto.
  - now rewrite lookup_insert_ne.
Qed.

Section Ingestion.

Variable parent_splitter : str -> Result (list str).
Variable child_splitter : str -> Result (list str).
Variable uuid4 : nat -> str.
Variable store_fails : nat -> bool.

Lemma child_add_map id c st r st' :
  child_add store_fails id c st = (r, st') ->
  parent_child_map st' = parent_child_map st /\
  parent_store st' = parent_store st /\
  (forall x, is_Some (child_store st !! x) -> is_Some (child_store st' !! x)) /\
  (r = Ok tt -> is_Some (child_store st' !! id)).
Proof.
  unfold child_add. destruct (store_fails (store_calls st)); intros [= <- <-]; cbn.
  - repeat split; auto. discriminate.
  - repeat split; auto.
    + intros x. apply insert_is_Some.
    + intros _. rewrite lookup_insert_eq. eauto.
Qed.

Lemma parent_add_map id c st r st' :
  parent_add store_fails id c st = (r, st') ->
  parent_child_map st' = parent_child_map st /\
  child_store st' = child_store st /\
  (forall x, is_Some (parent_store st !! x) -> is_Some (parent_store st' !! x)) /\
  (r = Ok tt -> is_Some (parent_store st' !! id)).
Proof.
  unfold parent_add. destruct (store_fails (store_calls st)); intros [= <- <-]; cbn.
  - repeat split; auto. discriminate.
  - repeat split; auto.
    + intros x. apply insert_is_Some.
    + intros _. rewrite lookup_insert_eq. eauto.
Qed.

(** The loop over the children keeps the map and the parents, only adds
    children, and returns identifiers of stored children of [p]. *)
Lemma add_children_map meta p chunks : forall i ids st r st',
  add_children store_fails meta p i chunks ids st = (r, st') ->
  Forall (fun id : child_id => fst id = p /\ is_Some (child_store st !! id)) ids ->
  parent_child_map st' = parent_child_map st /\
  parent_store st' = parent_store st /\
  (forall x, is_Some (child_store st !! x) -> is_Some (child_store st' !! x)) /\
  (forall ids', r = Ok ids' ->
     Forall (fun id : child_id => fst id = p /\ is_Some (child_store st' !! id)) ids').
Proof.
  induction chunks as [|chunk rest IH]; intros i ids st r st' H Hids.
  - injection H as <- <-. repeat split; auto. now intros ids' [= <-].
  - cbn [add_children] in H. destruct (blank chunk); [eapply IH; eauto|].
    unfold mbind in H.
    destruct (child_add store_fails (p, i) _ st) as [r1 st1] eqn:A.
    destruct (child_add_map _ _ _ _ _ A) as (Em & Ep & Hc & Hnew).
    destruct r1 as [[]|e].
    + assert (Hids1 : Forall (fun id : child_id =>
                                fst id = p /\ is_Some (child_store st1 !! id))
                             (ids ++ [(p, i)])).
      { apply Forall_app. split.
        - eapply List.Forall_impl; [|exact Hids]. intros id [F S]. split; auto.
        - constructor; [|constructor]. split; [reflexivity|now apply Hnew]. }
      destruct (IH _ _ _ _ _ H Hids1) as (Em' & Ep' & Hc' & Hr).
      split; [congruence|]. split; [congruence|]. split; [auto|exact Hr].
    + injection H as <- <-. repeat split; auto. discriminate.
Qed.

(** The loop over the parents keeps the map well formed and its keys, and
    returns keys of the map. *)
Lemma add_parents_map meta chunks : forall acc st r st',
  add_parents child_splitter uuid4 store_fails meta chunks acc st = (r, st') ->
  map_wf st -> Forall (mapped st) acc ->
  map_wf st' /\
  (forall p, mapped st p -> mapped st' p) /\
  (forall out, r = Ok out -> Forall (mapped st') out).
Proof.
  induction chunks as [|chunk rest IH]; intros acc st r st' H W Hacc.
  - injection H as <- <-. split; [exact W|]. split; [auto|]. now intros out [= <-].
  - cbn [add_parents] in H. destruct (blank chunk); [eapply IH; eauto|].
    unfold mbind at 1 in H. cbn [draw_uuid] in H.
    set (p := uuid4 (uuids_drawn st)) in H.
    set (st0 := {| child_store := child_store st; parent_store := parent_store st;
                   parent_child_map := parent_child_map st;
                   uuids_drawn := S (uuids_drawn st);
                   store_calls := store_calls st |}) in H.
    unfold mbind at 1 in H.
    destruct (add_children store_fails meta p 0 _ [] st0) as [r1 st1] eqn:A.
    destruct (add_children_map _ _ _ _ _ _ _ _ A (List.Forall_nil _))
      as (Em1 & Ep1 & Hc1 & Hr1).
    assert (W1 : map_wf st1).
    { apply (map_wf_mono st st1); auto. intros x Hx. now rewrite Ep1. }
    assert (M1 : forall q, mapped st q -> mapped st1 q).
    { intros q. unfold mapped. now rewrite Em1. }
    destruct r1 as [ids|e].
    2:{ injection H as <- <-. split; [exact W1|]. split; [exact M1|discriminate]. }
    specialize (Hr1 ids eq_refl).
    destruct ids as [|id0 ids].
    + destruct (IH _ _ _ _ H W1) as (W' & M' & R').
      { eapply List.Forall_impl; [|exact Hacc]. exact M1. }
      split; [exact W'|]. split; [auto|exact R'].
    + unfold mbind at 1 in H.
      destruct (parent_add store_fails p _ st1) as [r2 st2] eqn:A2.
      destruct (parent_add_map _ _ _ _ _ A2) as (Em2 & Ec2 & Hp2 & Hnew2).
      assert (W2 : map_wf st2).
      { apply (map_wf_mono st1 st2); auto. intros x Hx. now rewrite Ec2. }
      assert (M2 : forall q, mapped st q -> mapped st2 q).
      { intros q Hq. unfold mapped. rewrite Em2. now apply M1. }
      destruct r2 as [[]|e].
      2:{ injection H as <- <-. split; [exact W2|]. split; [exact M2|discriminate]. }
      unfold mbind at 1 in H. cbn [map_children] in H.
      match type of H with
      | add_parents _ _ _ _ _ _ ?s = _ => set (st3 := s) in H
      end.
      assert (W3 : map_wf st3).
      { intros q qids. cbn [st3 parent_child_map parent_store child_store].
        intros L. apply lookup_insert_Some in L as [[<- <-]|[_ L]].
        - split; [now apply Hnew2|]. split; [discriminate|].
          eapply List.Forall_impl; [|exact Hr1]. intros id [F S].
          split; [exact F|]. cbn [st3 child_store]. now rewrite Ec2.
        - exact (W2 q qids L). }
      assert (M3 : forall q, mapped st q -> mapped st3 q).
      { intros q Hq. unfold mapped. cbn [st3 parent_child_map].
        apply insert_is_Some. now apply M2. }
      destruct (IH _ _ _ _ H W3) as (W' & M' & R').
      { apply Forall_app. split.
        - eapply List.Forall_impl; [|exact Hacc]. exact M3.
        - constructor; [|constructor]. unfold mapped.
          cbn [st3 parent_child_map]. rewrite lookup_insert_eq. eauto. }
      split; [exact W'|]. split; [auto|exact R'].
Qed.

Lemma add_each_map documents : forall acc st r st',
  add_each parent_splitter child_splitter uuid4 store_fails documents acc st = (r, st') ->
  map_wf st -> Forall (mapped st) acc ->
  map_wf st' /\
  (forall p, mapped st p -> mapped st' p) /\
  (forall out, r = Ok out -> Forall (mapped st') out).
Proof.
  induction documents as [|d rest IH]; intros acc st r st' H W Hacc.
  - injection H as <- <-. split; [exact W|]. split; [auto|]. now intros out [= <-].
  - cbn [add_each] in H. destruct (blank (page_content d)); [eapply IH; eauto|].
    unfold mbind in H.
    destruct (add_parents _ _ _ _ _ acc st) as [r1 st1] eqn:A.
    destruct (add_parents_map _ _ _ _ _ _ A W Hacc) as (W1 & M1 & R1).
    destruct r1 as [acc1|e].
    + destruct (IH _ _ _ _ H W1 (R1 acc1 eq_refl)) as (W' & M' & R').
      split; [exact W'|]. split; [auto|exact R'].
    + injection H as <- <-. split; [exact W1|]. split; [exact M1|discriminate].
Qed.

Lemma run_calls_map calls : forall st,
  map_wf st ->
  map_wf (run_calls parent_splitter child_splitter uuid4 store_fails calls st).
Proof.
  induction calls as [|documents rest IH]; intros st W; [exact W|].
  cbn [run_calls]. apply IH. unfold add_documents.
  destruct (add_each parent_splitter child_splitter uuid4 store_fails documents [] st)
    as [r st'] eqn:A.
  now destruct (add_each_map _ _ _ _ _ A W (List.Forall_nil _)).
Qed.

(** Blank documents are passed over. *)
Lemma add_each_skips_blank documents : forall acc st,
  add_each parent_splitter child_splitter uuid4 store_fails documents acc st =
  add_each parent_splitter child_splitter uuid4 store_fails
    (List.filter (fun d => negb (blank (page_content d))) documents) acc st.
Proof.
  induction documents as [|d rest IH]; intros acc st; [reflexivity|].
  cbn [add_each List.filter]. destruct (blank (page_content d)) eqn:B; cbn [negb].
  - apply IH.
  - cbn [add_each]. rewrite B. unfold mbind.
    destruct (add_parents _ _ _ _ _ acc st) as [[acc1|e] st1]; [apply IH|reflexivity].
Qed.

End Ingestion.

End ParentChildMapFacts.

(** X24. [parent_child_map] always agrees with the two collections: after
    any sequence of calls of [add_documents] on a new store, whether they
    return or raise, every key of the map is a stored parent and its entry
    is a list, not empty, of stored children of that parent; and the
    identifiers a call returns are keys of the map. *)
Theorem parent_child_map_consistent
    (parent_splitter child_splitter : str -> Result (list str))
    (uuid4 : nat -> str) (store_fails : nat -> bool) :
  (forall calls,
     map_wf (run_calls parent_splitter child_splitter uuid4 store_fails calls
               empty_store)) /\
  (forall documents st,
     map_wf st ->
     map_wf (snd (add_documents parent_splitter child_splitter uuid4 store_fails
                    documents st)) /\
     forall ids,
       fst (add_documents parent_splitter child_splitter uuid4 store_fails
              documents st) = Ok ids ->
       Forall (fun parent_id =>
                 exists children,
                   parent_child_map
                     (snd (add_documents parent_splitter child_splitter uuid4
                             store_fails documents st)) !! parent_id
                   = Some children /\
                   is_Some (parent_store
                              (snd (add_documents parent_splitter child_splitter
                                      uuid4 store_fails documents st)) !! parent_id) /\
                   children_of
                     (snd (add_documents parent_splitter child_splitter uuid4
                             store_fails documents st)) parent_id children)
              ids).
Proof.
  split.
  - intros calls. apply ParentChildMapFacts.run_calls_map.
    intros p ids L. cbn in L. rewrite lookup_empty in L. discriminate.
  - intros documents st W. unfold add_documents.
    destruct (add_each parent_splitter child_splitter uuid4 store_fails documents
                [] st) as [r st'] eqn:A.
    destruct (ParentChildMapFacts.add_each_map _ _ _ _ _ _ _ _ _ A W
                (List.Forall_nil _)) as (W' & _ & R).
    cbn [fst snd]. split; [exact W'|]. intros ids ->.
    eapply List.Forall_impl; [|exact (R ids eq_refl)].
    intros p [children L]. exists children. split; [exact L|]. exact (W' p children L).
Qed.

(** X25. [add_documents] passes over the documents that are empty or
    blank: they change neither the result nor the store; with blank
    documents only it returns no identifier and leaves the store as it was,
    without a call to a collection. *)
Theorem add_documents_skips_blank
    (parent_splitter child_splitter : str -> Result (list str))
    (uuid4 : nat -> str) (store_fails : nat -> bool)
    (documents : list Document) (st : Store) :
  add_documents parent_splitter child_splitter uuid4 store_fails documents st =
  add_documents parent_splitter child_splitter uuid4 store_fails
    (List.filter (fun d => negb (blank (page_content d))) documents) st /\
  add_documents parent_splitter child_splitter uuid4 store_fails
    (List.filter (fun d => blank (page_content d)) documents) st = (Ok [], st).
Proof.
  unfold add_documents. split.
  - apply ParentChildMapFacts.add_each_skips_blank.
  - rewrite ParentChildMapFacts.add_each_skips_blank.
    assert (E : List.filter (fun d => negb (blank (page_content d)))
                  (List.filter (fun d => blank (page_content d)) documents) = []).
    { induction documents as [|d rest IH]; [reflexivity|]. cbn [List.filter].
      destruct (blank (page_content d)) eqn:B; [|exact IH].
      cbn [List.filter]. now rewrite B. }
    now rewrite E.
Qed.

(** *** Facts on the responses of the orchestrator *)

Module ResponseFacts.

Lemma sql_tool_not_rag name :
  mem_str name sql_tools = true -> eqs name (py "rag_search") = false.
Proof.
  intros H. apply PyStrMoreFacts.mem_str_In in H.
  destruct H as [<-|[<-|[<-|[]]]]; reflexivity.
Qed.

Lemma step_source_types steps :
  existsb (fun s => mem_str (tool s) sql_tools) steps
  = existsb (fun s => eqs (source_type s) (py "sql")) (flat_map step_source steps) /\
  existsb (fun s => eqs (tool s) (py "rag_search")) steps
  = existsb (fun s => eqs (source_type s) (py "rag")) (flat_map step_source steps).
Proof.
  induction steps as [|s steps [IH1 IH2]]; [now split|].
  cbn [existsb flat_map]. rewrite !existsb_app, <- IH1, <- IH2.
  unfold step_source.
  destruct (mem_str (tool s) sql_tools) eqn:M.
  - rewrite (sql_tool_not_rag _ M). now split.
  - destruct (eqs (tool s) (py "rag_search")); now split.
Qed.

Lemma step_source_shape steps :
  Forall (fun src =>
            (length (source_content src) <= 200)%nat /\
            List.In (source_tool src) (map tool steps) /\
            (source_type src = py "sql" \/ source_type src = py "rag"))
         (flat_map step_source steps) /\
  (length (flat_map step_source steps) <= length steps)%nat.
Proof.
  split.
  - apply List.Forall_forall. intros src Hsrc.
    apply in_flat_map in Hsrc as (s & Hs & Hsrc). unfold step_source in Hsrc.
    assert (Hlen : (length (first_chars 200 (observation s)) <= 200)%nat)
      by apply firstn_le_length.
    destruct (mem_str (tool s) sql_tools);
      [|destruct (eqs (tool s) (py "rag_search")); [|destruct Hsrc]];
      destruct Hsrc as [<-|[]]; cbn; (split; [exact Hlen|]);
      (split; [now apply in_map|]); auto.
  - apply KeywordSearchFacts.flat_map_length_le. intros s. unfold step_source.
    destruct (mem_str (tool s) sql_tools);
      [|destruct (eqs (tool s) (py "rag_search"))]; cbn; lia.
Qed.

Section Orchestrator.

Variable llm : model.
Variable agent_executor : str -> list (str * str) -> Result AgentResult.

(** The response is built from the result of the agent, or is the
    response of the [except] clause. *)
Lemma process_query_cases tables sid context query uc ue :
  (exists cl result,
     process_query llm agent_executor tables sid context query uc ue
     = response_of sid cl result) \/
  (exists e,
     process_query llm agent_executor tables sid context query uc ue
     = error_response sid e).
Proof.
  unfold process_query.
  destruct (if ue then _ else _) as [enhanced|e]; cbn [bind].
  - destruct (agent_executor enhanced (parse_chat_history context)) as [result|e];
      cbn [bind]; [left; eauto|right; eauto].
  - right. eauto.
Qed.

End Orchestrator.

End ResponseFacts.

(** X26. In every response of [MasterOrchestrator.process_query], with or
    without an error, [sql_used] and [rag_used] say whether there is a
    source of that type, [hybrid_mode] is their conjunction, every source
    is of type [sql] or [rag], names a tool that was used and holds at most
    200 characters, there are no more sources than tools used, the answer
    is not empty and the session is the one of the call. *)
Theorem process_query_response_consistent
    (llm : model) (agent_executor : str -> list (str * str) -> Result AgentResult)
    (tables : list str) (sid context query : str)
    (use_classification use_enhancement : bool) :
  let r := process_query llm agent_executor tables sid context query
             use_classification use_enhancement in
  hybrid_mode r = sql_used r && rag_used r /\
  sql_used r = existsb (fun s => eqs (source_type s) (py "sql")) (sources r) /\
  rag_used r = existsb (fun s => eqs (source_type s) (py "rag")) (sources r) /\
  Forall (fun s => (length (source_content s) <= 200)%nat /\
                   List.In (source_tool s) (tools_used r) /\
                   (source_type s = py "sql" \/ source_type s = py "rag"))
         (sources r) /\
  (length (sources r) <= length (tools_used r))%nat /\
  answer r <> [] /\
  session_id r = sid.
Proof.
  intros r. subst r.
  destruct (ResponseFacts.process_query_cases llm agent_executor tables sid context
              query use_classification use_enhancement)
    as [(cl & result & ->)|(e & ->)].
  - unfold response_of.
    cbn [hybrid_mode sql_used rag_used sources tools_used answer session_id].
    set (steps := match intermediate_steps result with Some l => l | None => [] end).
    destruct (ResponseFacts.step_source_types steps) as [H1 H2].
    destruct (ResponseFacts.step_source_shape steps) as [H3 H4].
    split; [reflexivity|]. split; [exact H1|]. split; [exact H2|].
    split; [exact H3|]. split; [now rewrite length_map|].
    split; [|reflexivity].
    destruct (output result) as [[|c a]|]; discriminate.
  - cbn. repeat split; try constructor. discriminate.
Qed.

(** *** Facts on the context of a conversation *)

Module MemoryFacts.

Lemma split_char_join sep lines :
  lines <> [] -> Forall (fun line => mem_char sep line = false) lines ->
  split_char sep (join [sep] lines) = lines.
Proof.
  induction lines as [|line [|line' lines] IH]; intros Hne H; [congruence| |].
  - inversion H; subst. now apply ClassifierMoreFacts.split_char_whole.
  - inversion H as [|? ? Hl H']; subst.
    change (join [sep] (line :: line' :: lines))
      with (line ++ [sep] ++ join [sep] (line' :: lines)).
    rewrite ClassifierMoreFacts.split_char_line by exact Hl.
    now rewrite IH.
Qed.

(** A text without the old text is left as it is. *)
Lemma replace_absent old new s :
  contains old s = false -> replace_aux old new 0 s = s.
Proof.
  induction s as [|c s IH]; [reflexivity|].
  rewrite PyStrFacts.contains_unfold. intros H.
  apply orb_false_iff in H as [H1 H2].
  cbn [replace_aux]. rewrite H1. now rewrite (IH H2).
Qed.

Lemma replace_skip old new a s :
  replace_aux old new (length a) (a ++ s) = replace_aux old new 0 s.
Proof.
  induction a as [|c a IH]; [reflexivity|].
  cbn [length app replace_aux]. exact IH.
Qed.

(** The line of a message is read back as its entry. *)
Lemma read_user_line c :
  contains (py "User:") c = false ->
  strip (replace (py "User:") [] (py "User: " ++ c)) = strip c.
Proof.
  intros H. unfold replace.
  change (py "User: " ++ c) with ("U"%char :: (py "ser:" ++ " "%char :: c)).
  cbn [replace_aux].
  change (startswith (py "User:") ("U"%char :: py "ser:" ++ " "%char :: c)) with true.
  cbv iota. cbn [app].
  change (length (py "User:") - 1)%nat with (length (py "ser:")).
  rewrite replace_skip.
  rewrite replace_absent.
  - reflexivity.
  - rewrite PyStrFacts.contains_unfold. now rewrite H.
Qed.

Lemma read_assistant_line c :
  contains (py "Assistant:") c = false ->
  strip (replace (py "Assistant:") [] (py "Assistant: " ++ c)) = strip c.
Proof.
  intros H. unfold replace.
  change (py "Assistant: " ++ c)
    with ("A"%char :: (py "ssistant:" ++ " "%char :: c)).
  cbn [replace_aux].
  change (startswith (py "Assistant:") ("A"%char :: py "ssistant:" ++ " "%char :: c))
    with true.
  cbv iota. cbn [app].
  change (length (py "Assistant:") - 1)%nat with (length (py "ssistant:")).
  rewrite replace_skip.
  rewrite replace_absent.
  - reflexivity.
  - rewrite PyStrFacts.contains_unfold. now rewrite H.
Qed.

Lemma labelled_not_blank (label : string) c x r :
  py label = x :: r -> isspace x = false ->
  nonempty (strip (py label ++ py ": " ++ c)) = true.
Proof.
  intros -> Hx. cbn [app]. unfold strip. cbn [lstrip_by]. rewrite Hx.
  change (x :: r ++ py ": " ++ c) with ([] ++ x :: (r ++ py ": " ++ c)).
  now rewrite (PyStrFacts.rstrip_by_keep isspace [] x _ Hx).
Qed.

Lemma message_line msg :
  readable msg ->
  let line := role_label msg ++ py ": " ++ content msg in
  mem_char Enhancer.newline line = false /\
  (if nonempty (strip line) then
     if startswith (py "User:") line
     then [(py "human", strip (replace (py "User:") [] line))]
     else if startswith (py "Assistant:") line
     then [(py "ai", strip (replace (py "Assistant:") [] line))]
     else []
   else []) = [history_entry msg].
Proof.
  intros [Hline Hlabel] line. subst line. unfold history_entry.
  unfold role_label in *. destruct (eqs (role msg) (py "user")).
  - split.
    + rewrite !ClassifierMoreFacts.mem_char_app, Hline. reflexivity.
    + rewrite (labelled_not_blank "User" (content msg) "U"%char (py "ser"))
        by reflexivity.
      change (startswith (py "User:") (py "User" ++ py ": " ++ content msg))
        with true. cbv iota.
      change (py "User" ++ py ": " ++ content msg) with (py "User: " ++ content msg).
      now rewrite read_user_line.
  - split.
    + rewrite !ClassifierMoreFacts.mem_char_app, Hline. reflexivity.
    + rewrite (labelled_not_blank "Assistant" (content msg) "A"%char (py "ssistant"))
        by reflexivity.
      change (startswith (py "User:") (py "Assistant" ++ py ": " ++ content msg))
        with false.
      change (startswith (py "Assistant:") (py "Assistant" ++ py ": " ++ content msg))
        with true. cbv iota.
      change (py "Assistant" ++ py ": " ++ content msg)
        with (py "Assistant: " ++ content msg).
      now rewrite read_assistant_line.
Qed.

End MemoryFacts.

(** X27. The chat history the orchestrator reads from the context is the
    conversation: for messages that are each on one line and do not hold
    the label of their role followed by a colon, [parse_chat_history] of
    the formatted context gives, message by message, [human] or [ai] with
    the content of the message without its outer whitespace.  The context
    of a session of no more than [max_messages] messages is the formatted
    list of all its messages, and a session that does not exist has an
    empty context and an empty history. *)
Theorem chat_history_round_trip :
  (forall messages,
     Forall readable messages ->
     parse_chat_history (format_context messages) = map history_entry messages) /\
  (forall last_messages messages n,
     (Z.of_nat (length messages) <= n)%Z ->
     get_conversation_context last_messages (Some messages) (Some n)
     = Ok (format_context messages)) /\
  (forall last_messages max_messages,
     get_conversation_context last_messages None max_messages = Ok [] /\
     parse_chat_history [] = []).
Proof.
  split; [|split].
  - intros messages H. unfold parse_chat_history, format_context.
    set (line := fun msg => role_label msg ++ py ": " ++ content msg).
    destruct messages as [|m ms] eqn:M; [reflexivity|]. rewrite <- M in *.
    assert (Hne : map line messages <> []) by (rewrite M; discriminate).
    assert (Hlines : Forall (fun l => mem_char Enhancer.newline l = false)
                            (map line messages)).
    { apply List.Forall_forall. intros l Hl.
      apply in_map_iff in Hl as (msg & <- & Hm).
      rewrite List.Forall_forall in H.
      exact (proj1 (MemoryFacts.message_line msg (H _ Hm))). }
    assert (Hctx : join [Enhancer.newline] (map line messages) <> []).
    { rewrite M. cbn [map]. unfold line at 1, role_label.
      destruct (eqs (role m) (py "user")); destruct (map line ms); discriminate. }
    destruct (join [Enhancer.newline] (map line messages)) as [|c0 ctx] eqn:J;
      [congruence|]. rewrite <- J.
    rewrite (MemoryFacts.split_char_join _ _ Hne Hlines).
    clear J Hctx Hne Hlines M m ms c0 ctx.
    induction H as [|msg rest Hmsg _ IH]; [reflexivity|].
    cbn [map flat_map]. rewrite IH.
    destruct (MemoryFacts.message_line msg Hmsg) as [_ E]. cbv zeta in E.
    unfold line. now rewrite E.
  - intros last_messages messages n Hn. unfold get_conversation_context.
    assert (E : (n <? Z.of_nat (length messages))%Z = false)
      by (apply Z.ltb_ge; exact Hn).
    rewrite E, andb_false_r. reflexivity.
  - intros last_messages max_messages. split; reflexivity.
Qed.

Lemma chat_history_round_trip_witness :
  parse_chat_history
    (format_context [{| role := py "user"; content := py "How many providers?" |};
                     {| role := py "assistant"; content := py "There are 3. " |}])
  = [(py "human", py "How many providers?"); (py "ai", py "There are 3.")].
Proof.
  apply (proj1 chat_history_round_trip
           [{| role := py "user"; content := py "How many providers?" |};
            {| role := py "assistant"; content := py "There are 3. " |}]).
  repeat constructor.
Defined.

(** *** Facts on clean table names *)

Module SQLNamesMoreFacts.

Lemma alpha_not_stripped c :
  isalnum c = true -> isdigit c = false -> mem_char c (py "0123456789_") = false.
Proof. destruct c as [[] [] [] [] [] [] [] []]; vm_compute; intros; congruence. Qed.

Lemma lower_char_alnum c : isalnum c = true -> isalnum (lower_char c) = true.
Proof. destruct c as [[] [] [] [] [] [] [] []]; vm_compute; intros; congruence. Qed.

Lemma segment_lower p : segment p -> segment (lower p) /\ lower (lower p) = lower p.
Proof.
  intros [Hne Hall]. split; [split|apply SQLNamesFacts.lower_idem].
  - destruct p; [congruence|discriminate].
  - unfold lower. apply List.Forall_forall. intros c Hc.
    apply in_map_iff in Hc as (x & <- & Hx). rewrite List.Forall_forall in Hall.
    apply lower_char_alnum. now apply Hall.
Qed.

Lemma segment_chars p :
  segment p ->
  mem_char "_" p = false /\ contains (py ".csv") p = false /\
  contains (py ".CSV") p = false /\
  map (fun c => if isalnum c then c else "_"%char) p = p.
Proof.
  intros [_ Hall]. induction Hall as [|c p Hc _ (I1 & I2 & I3 & I4)].
  - repeat split.
  - split; [|split; [|split]].
    + change (mem_char "_" (c :: p)) with (eqc "_" c || mem_char "_" p).
      rewrite I1, (ClassifierMoreFacts.eqc_sym "_" c).
      now rewrite (SQLNamesFacts.alnum_not_underscore c Hc).
    + rewrite PyStrFacts.contains_unfold, I2.
      revert Hc. destruct c as [[] [] [] [] [] [] [] []]; vm_compute; intros;
        congruence.
    + rewrite PyStrFacts.contains_unfold, I3.
      revert Hc. destruct c as [[] [] [] [] [] [] [] []]; vm_compute; intros;
        congruence.
    + cbn [map]. now rewrite Hc, I4.
Qed.

(** The characters of a name joined from segments. *)
Lemma joined_chars segments :
  Forall segment segments ->
  contains (py ".csv") (join (py "_") segments) = false /\
  contains (py ".CSV") (join (py "_") segments) = false /\
  map (fun c => if isalnum c then c else "_"%char) (join (py "_") segments)
  = join (py "_") segments.
Proof.
  assert (Happ : forall (old a b : str) x r,
            old = x :: r -> Forall (fun c => eqc x c = false) a ->
            contains old b = false -> contains old (a ++ b) = false).
  { intros old a b x r -> Ha Hb. induction Ha as [|c a Hc _ IH]; [exact Hb|].
    cbn [app]. rewrite PyStrFacts.contains_unfold, IH.
    cbn [startswith]. now rewrite Hc. }
  assert (Hdot : forall p, segment p -> Forall (fun c => eqc "." c = false) p).
  { intros p [_ Hall]. eapply List.Forall_impl; [|exact Hall].
    intros c Hc. revert Hc.
    destruct c as [[] [] [] [] [] [] [] []]; vm_compute; intros; congruence. }
  induction 1 as [|p segments Hp Hrest (I1 & I2 & I3)]; [repeat split|].
  destruct segments as [|q segments].
  - destruct (segment_chars p Hp) as (_ & H2 & H3 & H4). now repeat split.
  - change (join (py "_") (p :: q :: segments))
      with (p ++ "_"%char :: join (py "_") (q :: segments)).
    destruct (segment_chars p Hp) as (_ & _ & _ & H4).
    split; [|split].
    + apply (Happ (py ".csv") p _ "."%char (py "csv") eq_refl (Hdot p Hp)).
      rewrite PyStrFacts.contains_unfold. now rewrite I1.
    + apply (Happ (py ".CSV") p _ "."%char (py "CSV") eq_refl (Hdot p Hp)).
      rewrite PyStrFacts.contains_unfold. now rewrite I2.
    + rewrite map_app. cbn [map]. rewrite H4, I3. reflexivity.
Qed.

(** What [_sanitize_table_name] returns is a clean name. *)
Lemma sanitize_clean filename : clean_name (_sanitize_table_name filename).
Proof.
  rewrite sanitize_unfold. cbv zeta.
  unfold squeezed.
  set (segs := filter_nonempty (split_char "_" _)).
  assert (Hsegs : Forall segment segs).
  { apply SQLNamesFacts.segments_of_split, SQLNamesFacts.lstrip_by_Forall,
      map_ident_chars. }
  assert (Hlow : forall l, Forall segment l ->
            Forall (fun p => segment p /\ lower p = p) (map lower l)).
  { intros l Hl. apply List.Forall_forall. intros p Hp.
    apply in_map_iff in Hp as (q & <- & Hq). rewrite List.Forall_forall in Hl.
    now apply segment_lower, Hl. }
  destruct segs as [|s0 rest] eqn:S.
  - exists [py "unnamed"; py "table"]. cbn. split; [reflexivity|].
    split; [discriminate|]. split; [|reflexivity].
    repeat constructor; try discriminate.
  - rewrite <- S in *.
    destruct (SQLNamesFacts.tidy_join segs Hsegs) as [_ Hne].
    assert (Hne' : join (py "_") segs <> []) by (apply Hne; rewrite S; discriminate).
    destruct (join (py "_") segs) as [|c name] eqn:J; [congruence|].
    destruct (isdigit c) eqn:D.
    + change (nonempty (py "table_" ++ c :: name)) with true. cbv iota.
      exists (map lower (py "table" :: segs)).
      assert (E : py "table_" ++ c :: name = join (py "_") (py "table" :: segs)).
      { rewrite S. rewrite S in J.
        change (join (py "_") (py "table" :: s0 :: rest))
          with (py "table" ++ py "_" ++ join (py "_") (s0 :: rest)).
        now rewrite J. }
      rewrite E.
      split; [|split; [discriminate|split]].
      * apply PyStrMoreFacts.lower_join.
      * apply Hlow. constructor; [|exact Hsegs].
        split; [discriminate|repeat constructor].
      * rewrite S. reflexivity.
    + exists (map lower segs). cbn [nonempty].
      rewrite <- J. split; [apply PyStrMoreFacts.lower_join|].
      split; [rewrite S; discriminate|]. split; [now apply Hlow|].
      rewrite J. cbn. now rewrite SQLNamesFacts.lower_char_digit.
Qed.

(** A clean name is left as it is. *)
Lemma clean_fixed t : clean_name t -> _sanitize_table_name t = t.
Proof.
  intros (segs & -> & Hne & Hall & Hd).
  assert (Hsegs : Forall segment segs).
  { eapply List.Forall_impl; [|exact Hall]. now intros p [H _]. }
  destruct (joined_chars segs Hsegs) as (H1 & H2 & H3).
  rewrite sanitize_unfold. cbv zeta. unfold squeezed.
  unfold replace. rewrite (MemoryFacts.replace_absent _ _ _ H1).
  rewrite (MemoryFacts.replace_absent _ _ _ H2), H3.
  assert (Hstrip : lstrip_chars (py "0123456789_") (join (py "_") segs)
                   = join (py "_") segs).
  { destruct segs as [|p rest]; [congruence|].
    inversion Hsegs as [|? ? [Hp Hpa] _]; subst.
    destruct p as [|c p]; [congruence|]. inversion Hpa as [|? ? Hc _]; subst.
    assert (Hhead : exists tl, join (py "_") ((c :: p) :: rest) = c :: tl).
    { destruct rest; eexists; reflexivity. }
    destruct Hhead as [tl E]. rewrite E in Hd |- *. cbn in Hd.
    unfold lstrip_chars. cbn [lstrip_by].
    now rewrite (alpha_not_stripped c Hc Hd). }
  rewrite Hstrip.
  change (split_char "_" (join (py "_") segs))
    with (split_char "_" (join ["_"%char] segs)).
  rewrite (MemoryFacts.split_char_join "_"%char segs Hne).
  2:{ eapply List.Forall_impl; [|exact Hsegs].
      intros p Hp. exact (proj1 (segment_chars p Hp)). }
  assert (Hfilter : filter_nonempty segs = segs).
  { clear -Hsegs. induction Hsegs as [|p l [Hp _] _ IH]; [reflexivity|].
    unfold filter_nonempty in *. cbn [List.filter].
    destruct p; [congruence|]. cbn [nonempty]. now rewrite IH. }
  rewrite Hfilter.
  destruct (SQLNamesFacts.tidy_join segs Hsegs) as [_ Hjne].
  specialize (Hjne Hne).
  destruct (join (py "_") segs) as [|c name] eqn:J; [congruence|].
  cbn in Hd. rewrite Hd. cbn [nonempty]. rewrite <- J.
  rewrite PyStrMoreFacts.lower_join. f_equal.
  clear -Hall. induction Hall as [|p l [_ Hp] _ IH]; [reflexivity|].
  cbn [map]. now rewrite Hp, IH.
Qed.

End SQLNamesMoreFacts.

(** X28. [_sanitize_table_name] is idempotent: the name it returns is a
    table name that it leaves as it is. *)
Theorem sanitize_table_name_idempotent (filename : str) :
  _sanitize_table_name (_sanitize_table_name filename)
  = _sanitize_table_name filename.
Proof.
  apply SQLNamesMoreFacts.clean_fixed, SQLNamesMoreFacts.sanitize_clean.
Qed.

(** X29. [_get_schema] gives one entry for each column of the frame, in
    the order of the columns and under their names, each with at most
    three sample values and no more than the frame has rows. *)
Theorem get_schema_columns (df : DataFrame) :
  map column_name (_get_schema df) = df_columns df /\
  Forall (fun c => (length (sample_values c) <= 3)%nat /\
                   (length (sample_values c) <= length (df_rows df))%nat)
         (_get_schema df).
Proof.
  unfold _get_schema. split.
  - rewrite map_map. cbn [column_name].
    generalize 0%nat. induction (df_columns df) as [|c l IH]; intros n;
      [reflexivity|].
    cbn. now rewrite IH.
  - apply List.Forall_forall. intros c Hc. apply in_map_iff in Hc as (ic & <- & _).
    cbn [sample_values]. unfold column_head.
    rewrite length_firstn, length_map. lia.
Qed.

(** *** Facts on the search with metadata filters *)

Module HierarchicalSearchFacts.

(** What the loop of [hybrid_search] adds to the results it has. *)
Lemma dedupe_spec k sorted : forall seen final,
  (forall c, List.In c seen <-> List.In c (map page_content final)) ->
  NoDup (map page_content final) ->
  let out := HierarchicalSearch.dedupe k seen final sorted in
  NoDup (map page_content out) /\
  (forall d, List.In d out -> List.In d final \/ List.In d (map fst sorted)) /\
  ((Z.of_nat (length final) < Z.max 1 k)%Z ->
   (Z.of_nat (length out) <= Z.max 1 k)%Z).
Proof.
  induction sorted as [|[d s] rest IH]; intros seen final Hseen Hnd;
    cbn [HierarchicalSearch.dedupe].
  - split; [exact Hnd|]. split; [now left|lia].
  - destruct (mem_str (page_content d) seen) eqn:M.
    + destruct (IH seen final Hseen Hnd) as (H1 & H2 & H3).
      split; [exact H1|]. split; [|exact H3].
      intros x Hx. destruct (H2 x Hx) as [H|H]; [now left|right; now right].
    + apply PyStrMoreFacts.mem_str_not_In in M.
      assert (Hnd' : NoDup (map page_content (final ++ [d]))).
      { rewrite map_app. apply NoDup_app. split; [exact Hnd|].
        split; [|apply NoDup_singleton].
        intros c Hc Hc'. apply list_elem_of_singleton in Hc'. subst c.
        apply M, Hseen. now apply list_elem_of_In. }
      cbv zeta.
      destruct (k <=? Z.of_nat (length (final ++ [d])))%Z eqn:Full.
      * split; [exact Hnd'|]. split.
        -- intros x Hx. apply in_app_or in Hx as [Hx|[<-|[]]];
             [now left|right; now left].
        -- intros Hlen. rewrite length_app. cbn. lia.
      * destruct (IH (page_content d :: seen) (final ++ [d])) as (H1 & H2 & H3).
        { intros c. rewrite map_app, in_app_iff. cbn. rewrite <- Hseen. tauto. }
        { exact Hnd'. }
        split; [exact H1|]. split.
        -- intros x Hx. destruct (H2 x Hx) as [H|H]; [|right; now right].
           apply in_app_or in H as [H|[<-|[]]]; [now left|right; now left].
        -- intros _. apply H3. apply Z.leb_gt in Full. lia.
Qed.

End HierarchicalSearchFacts.

(** X30. The search of the document store with metadata filters: when
    [hybrid_search] returns with filters, no two documents have the same
    content, there are at most [max(1, k)] of them, and each is a result of
    the semantic search or holds a text the filter selected; without
    filters, or with empty ones, it returns the documents of the semantic
    search as they came; and it raises when the semantic search raises. *)
Theorem vectorstore_hybrid_search_shape
    (child_similarity_search : str -> Z -> Result (list (Document * Q)))
    (parent_get : str -> option str)
    (child_get_where : gmap str Value -> Z -> Result (list str))
    (new_id : nat -> nat) (query : str) (k : Z)
    (metadata_filters : option (gmap str Value)) :
  match similarity_search_with_score child_similarity_search parent_get query
          (Z.max 1 k) (7#10) with
  | Raise e =>
      HierarchicalSearch.hybrid_search child_similarity_search parent_get
        child_get_where new_id query k metadata_filters = Raise e
  | Ok semantic_results =>
      forall docs,
        HierarchicalSearch.hybrid_search child_similarity_search parent_get
          child_get_where new_id query k metadata_filters = Ok docs ->
        (length docs <= Z.to_nat (Z.max 1 k))%nat /\
        match metadata_filters with
        | None => docs = map fst semantic_results
        | Some filters =>
            (filters = ∅ -> docs = map fst semantic_results) /\
            (filters <> ∅ ->
             NoDup (map page_content docs) /\
             forall d, List.In d docs ->
               List.In d (map fst semantic_results) \/
               exists texts, child_get_where filters (Z.max 1 k) = Ok texts /\
                             List.In (page_content d) texts /\ metadata d = ∅)
        end
  end.
Proof.
  unfold HierarchicalSearch.hybrid_search.
  destruct (similarity_search_with_score child_similarity_search parent_get query
              (Z.max 1 k) (7#10)) as [sem|e] eqn:S; cbn [bind]; [|reflexivity].
  intros docs.
  assert (Hsem : (length (map fst sem) <= Z.to_nat (Z.max 1 k))%nat).
  { rewrite length_map.
    destruct (SimilarityFacts.similarity_search_scores _ _ _ _ _ _ S) as [_ H].
    lia. }
  destruct metadata_filters as [filters|]; [|intros [= <-]; now split].
  destruct (bool_decide (filters = ∅)) eqn:B.
  - apply bool_decide_eq_true in B. intros [= <-]. split; [exact Hsem|].
    split; [reflexivity|congruence].
  - apply bool_decide_eq_false in B.
    destruct (child_get_where filters (Z.max 1 k)) as [texts|e] eqn:G;
      cbn [bind]; [|discriminate].
    intros [= <-].
    set (sorted := sort_desc snd Qltb
                     (sem ++ HierarchicalSearch.keyword_documents new_id 0 texts)).
    destruct (HierarchicalSearchFacts.dedupe_spec (Z.max 1 k) sorted [] [])
      as (H1 & H2 & H3); [easy|constructor|].
    split; [cbn in H3; lia|]. split; [congruence|]. intros _.
    split; [exact H1|]. intros d Hd.
    destruct (H2 d Hd) as [[]|Hin].
    apply in_map_iff in Hin as ([d' s] & <- & Hin). cbn [fst].
    apply (proj1 (PySortFacts.sort_desc_In snd Qltb (d', s) _)) in Hin.
    apply in_app_or in Hin as [Hin|Hin].
    + left. change d' with (fst (d', s)). now apply in_map.
    + right. exists texts. split; [reflexivity|].
      clear -Hin. revert Hin. generalize 0%nat.
      induction texts as [|t rest IH]; intros n; cbn; [tauto|].
      intros [H|H].
      * injection H as <- _. cbn. split; [now left|reflexivity].
      * destruct (IH _ H) as [H1 H2]. split; [now right|exact H2].
Qed.
